(** * basic-calculator: the safe evaluator, the result formatter and the
    notation translator of [main.py], embedded in Rocq.

    Python values are modelled as the interpreter has them: a [str] is a
    sequence of Unicode code points, a [float] is an IEEE-754 binary64
    (the kernel's primitive floats), an [int] is an unbounded integer.
    Exceptions are explicit: a computation either returns, raises, or
    calls into a part of the host that has no closed description (the C
    library's [pow], complex arithmetic, [ast.parse]). *)

From Stdlib Require Import ZArith NArith List String Ascii Bool Lia.
From Stdlib Require Import Floats.
From Stdlib Require Import DecimalPos.
Import ListNotations.

(** ** Python strings *)

Module PyStr.

(** A character is its code point. *)
Abbreviation char := N (only parsing).
Abbreviation str := (list N) (only parsing).

(** Code points of a UTF-8 encoded literal, so that the literals of
    [main.py] can be written as they are in the source. *)
Fixpoint utf8_from (s : string) (need : nat) (acc : N) : str :=
  match s with
  | EmptyString => []
  | String a t =>
      let b := N_of_ascii a in
      match need with
      | O =>
          if (b <? 128)%N then b :: utf8_from t 0 0%N
          else if (b <? 224)%N then utf8_from t 1 (b - 192)%N
          else if (b <? 240)%N then utf8_from t 2 (b - 224)%N
          else utf8_from t 3 (b - 240)%N
      | S k =>
          let acc' := (acc * 64 + (b - 128))%N in
          match k with
          | O => acc' :: utf8_from t 0 0%N
          | S _ => utf8_from t k acc'
          end
      end
  end.

Definition utf8 (s : string) : str := utf8_from s 0 0%N.

Fixpoint eqb (a b : str) : bool :=
  match a, b with
  | [], [] => true
  | x :: a', y :: b' => (x =? y)%N && eqb a' b'
  | _, _ => false
  end.

(** [not s] *)
Definition is_empty (s : str) : bool :=
  match s with
  | [] => true
  | _ :: _ => false
  end.

(** [s.startswith(p)] *)
Fixpoint starts_with (p s : str) : bool :=
  match p, s with
  | [], _ => true
  | _ :: _, [] => false
  | a :: p', b :: s' => (a =? b)%N && starts_with p' s'
  end.

(** [s.replace(old, new)]: every non-overlapping occurrence of [old],
    found from the left, is replaced.  [skip] counts the characters of
    an occurrence that are still to be dropped. *)
Fixpoint replace_from (old new : str) (skip : nat) (s : str) : str :=
  match s with
  | [] => match old with [] => new | _ :: _ => [] end
  | c :: t =>
      match skip with
      | S k => replace_from old new k t
      | O =>
          if starts_with old s
          then new ++ match old with
                      | [] => c :: replace_from old new 0 t
                      | _ :: _ => replace_from old new (List.length old - 1) t
                      end
          else c :: replace_from old new 0 t
      end
  end.

Definition replace (old new s : str) : str := replace_from old new 0 s.

(** [c in s] for a single character. *)
Definition contains (c : char) (s : str) : bool :=
  existsb (N.eqb c) s.

Fixpoint drop_while (p : char -> bool) (s : str) : str :=
  match s with
  | [] => []
  | c :: t => if p c then drop_while p t else s
  end.

(** [s.rstrip(chars)] and [s.lstrip(chars)] *)
Definition rstrip_chars (chars s : str) : str :=
  rev (drop_while (fun c => contains c chars) (rev s)).

(** [str.isspace] on one code point. *)
Definition is_space (c : char) : bool :=
  ((9 <=? c) && (c <=? 13) || (28 <=? c) && (c <=? 32)
   || (c =? 133) || (c =? 160) || (c =? 5760)
   || (8192 <=? c) && (c <=? 8202)
   || (c =? 8232) || (c =? 8233) || (c =? 8239) || (c =? 8287)
   || (c =? 12288))%N.

(** [s.strip()] *)
Definition strip (s : str) : str :=
  rev (drop_while is_space (rev (drop_while is_space s))).

(** [s.lower()], on the ASCII letters (the only letters a formatted
    number holds). *)
Definition lower (s : str) : str :=
  map (fun c => if ((65 <=? c) && (c <=? 90))%N then (c + 32)%N else c) s.

End PyStr.

Import PyStr.

(** ** The notation translator (main.py, lines 94-103) *)

Definition display_expr (expr : str) : str :=
  replace (utf8 "/") (utf8 "÷")
    (replace (utf8 "*") (utf8 "×")
       (replace (utf8 "**") (utf8 "^") expr)).

Definition internal_expr (display : str) : str :=
  replace (utf8 "^") (utf8 "**")
    (replace (utf8 "÷") (utf8 "/")
       (replace (utf8 "×") (utf8 "*") display)).

(** ** Python floats: C doubles and the operations of [floatobject.c] *)

Module PyFloat.

Local Open Scope float_scope.

(** The exact integer [m * 2^e] scaled to a common exponent. *)
Definition scaled (m : positive) (e e0 : Z) : Z := Z.shiftl (Zpos m) (e - e0).

(** [float(n)] for an [int]: round to nearest, ties to even; [None]
    stands for [OverflowError: int too large to convert to float]. *)
Definition of_int (n : Z) : option float :=
  match binary_normalize prec emax n 0 false with
  | S754_infinity _ => None
  | x => Some (SF2Prim x)
  end.

(** Truncation towards zero of a finite double, [None] on NaN and the
    infinities (where [int(x)] raises). *)
Definition trunc (x : float) : option Z :=
  match Prim2SF x with
  | S754_zero _ => Some 0%Z
  | S754_finite s m e =>
      Some (cond_Zopp s (Z.shiftl (Zpos m) e))
  | S754_infinity _ | S754_nan => None
  end.

(** [x == n] for a double and an [int]: Python compares the exact
    values. *)
Definition eq_int (x : float) (n : Z) : bool :=
  match Prim2SF x with
  | S754_zero _ => (n =? 0)%Z
  | S754_finite s m e =>
      if (0 <=? e)%Z then (cond_Zopp s (Z.shiftl (Zpos m) e) =? n)%Z
      else (cond_Zopp s (Zpos m) =? Z.shiftl n (- e))%Z
  | S754_infinity _ | S754_nan => false
  end.

(** C [floor]. *)
Definition floor (x : float) : float :=
  match Prim2SF x with
  | S754_finite s m e =>
      if (0 <=? e)%Z then x
      else SF2Prim (binary_normalize prec emax
                      (Z.shiftl (cond_Zopp s (Zpos m)) e) 0 false)
  | _ => x
  end.

(** C [fmod] on the specification of doubles: the exact remainder of
    the magnitudes, with the sign of [x].  The remainder [r * 2^e] is
    below both magnitudes, so its canonical mantissa is [r] shifted left
    to the exponent [fexp]. *)
Definition fmod_spec (x y : spec_float) : spec_float :=
  match x, y with
  | S754_nan, _ | _, S754_nan => S754_nan
  | S754_infinity _, _ => S754_nan
  | _, S754_zero _ => S754_nan
  | _, S754_infinity _ => x
  | S754_zero _, _ => x
  | S754_finite sx mx ex, S754_finite _ my ey =>
      let e := Z.min ex ey in
      match Z.rem (scaled mx ex e) (scaled my ey e) with
      | Zpos r =>
          let e' := fexp prec emax (Zpos (digits2_pos r) + e) in
          S754_finite sx (fst (shl_align r e e')) e'
      | _ => S754_zero sx
      end
  end.

(** C [fmod]. *)
Definition fmod (x y : float) : float :=
  SF2Prim (fmod_spec (Prim2SF x) (Prim2SF y)).

(** C [copysign(0.0, y)]. *)
Definition copysign_zero (y : float) : float :=
  if get_sign y then neg_zero else zero.

(** [DOUBLE_IS_ODD_INTEGER] of floatobject.c. *)
Definition is_odd_integer (x : float) : bool :=
  fmod (abs x) 2 =? 1.

End PyFloat.

(** ** Exceptions *)

Inductive exn_class : Set :=
| ZeroDivisionError
| OverflowError
| ValueError
| TypeError
| SyntaxError
| RecursionError
| MemoryError.

Definition exn_class_eqb (a b : exn_class) : bool :=
  match a, b with
  | ZeroDivisionError, ZeroDivisionError
  | OverflowError, OverflowError
  | ValueError, ValueError
  | TypeError, TypeError
  | SyntaxError, SyntaxError
  | RecursionError, RecursionError
  | MemoryError, MemoryError => true
  | _, _ => false
  end.

(** An exception instance: its class and [str(e)] (for a [SyntaxError],
    [e.msg]). *)
Record exn : Set := Exn { exn_cls : exn_class; exn_msg : str }.

(** ** The [ast] nodes [eval_node] can be given *)

Module Ast.

(** [ast.Constant.value] *)
Inductive constant : Set :=
| CInt (n : Z)
| CFloat (x : float)
| CComplex (re im : float)
| CBool (b : bool)
| CStr (s : str)
| CBytes (s : list N)
| CNone
| CEllipsis.

Inductive unaryop : Set := Invert | Not | UAdd | USub.

Inductive operator : Set :=
| Add | Sub | Mult | MatMult | Div | Mod | Pow
| LShift | RShift | BitOr | BitXor | BitAnd | FloorDiv.

(** The expression classes [eval_node] does not look into. *)
Inductive other_expr : Set :=
| BoolOp | NamedExpr | Lambda | IfExp | Dict | SetExpr | ListComp
| SetComp | DictComp | GeneratorExp | Await | Yield | YieldFrom
| Compare | Call | FormattedValue | JoinedStr | Attribute | Subscript
| Starred | Name | ListExpr | Tuple | Slice.

Inductive expr : Set :=
| Constant (value : constant)
| UnaryOp (op : unaryop) (operand : expr)
| BinOp (left : expr) (op : operator) (right : expr)
| Other (kind : other_expr).

End Ast.

Import Ast.

(** A number as [eval_node] computes it: a [float], or the [complex] that
    [**] yields for a negative base and a fractional exponent. *)
Inductive value : Set :=
| VFloat (x : float)
| VComplex (re im : float).

(** ** Computations

    [Ret] and [Raise] are Python's return and raise.  The other
    constructors are calls into the host whose result the model does not
    fix; the continuation receives the host's answer: the C library's
    [pow] for a finite positive base and a finite exponent ([None] when
    it reports a range error), an arithmetic operation with a [complex]
    operand, [format(z, ".10g")] for a [complex], and [ast.parse] in
    [eval] mode (the body of the parsed expression, or the exception). *)
Inductive M (A : Type) : Type :=
| Ret (a : A)
| Raise (e : exn)
| LibmPow (x y : float) (k : option float -> M A)
| ComplexArith (op : operator) (l r : value) (k : exn + value -> M A)
| ComplexFormat (re im : float) (k : str -> M A)
| AstParse (source : str) (k : exn + expr -> M A).

Arguments Ret {A} a.
Arguments Raise {A} e.
Arguments LibmPow {A} x y k.
Arguments ComplexArith {A} op l r k.
Arguments ComplexFormat {A} re im k.
Arguments AstParse {A} source k.

Fixpoint bind {A B : Type} (m : M A) (f : A -> M B) : M B :=
  match m with
  | Ret a => f a
  | Raise e => Raise e
  | LibmPow x y k => LibmPow x y (fun r => bind (k r) f)
  | ComplexArith op l r k => ComplexArith op l r (fun a => bind (k a) f)
  | ComplexFormat re im k => ComplexFormat re im (fun a => bind (k a) f)
  | AstParse s k => AstParse s (fun a => bind (k a) f)
  end.

Notation "x <- m ;; f" := (bind m (fun x => f))
  (at level 61, m at next level, right associativity).

(** [try: m  except classes as e: handler e] *)
Fixpoint try_except {A : Type} (m : M A) (classes : list exn_class)
  (handler : exn -> M A) : M A :=
  match m with
  | Ret a => Ret a
  | Raise e =>
      if existsb (exn_class_eqb (exn_cls e)) classes then handler e
      else Raise e
  | LibmPow x y k => LibmPow x y (fun r => try_except (k r) classes handler)
  | ComplexArith op l r k =>
      ComplexArith op l r (fun a => try_except (k a) classes handler)
  | ComplexFormat re im k =>
      ComplexFormat re im (fun a => try_except (k a) classes handler)
  | AstParse s k => AstParse s (fun a => try_except (k a) classes handler)
  end.

Definition raise {A : Type} (c : exn_class) (msg : string) : M A :=
  Raise (Exn c (utf8 msg)).

(** The host: what the C library, the complex type and the parser answer. *)
Record Host : Type := {
  libm_pow : float -> float -> option float;
  complex_arith : operator -> value -> value -> exn + value;
  complex_format : float -> float -> str;
  ast_parse : str -> exn + expr
}.

(** The outcome of a computation under a host. *)
Inductive outcome (A : Type) : Type :=
| Returns (a : A)
| Raises (e : exn).

Arguments Returns {A} a.
Arguments Raises {A} e.

Fixpoint run {A : Type} (h : Host) (m : M A) : outcome A :=
  match m with
  | Ret a => Returns a
  | Raise e => Raises e
  | LibmPow x y k => run h (k (libm_pow h x y))
  | ComplexArith op l r k => run h (k (complex_arith h op l r))
  | ComplexFormat re im k => run h (k (complex_format h re im))
  | AstParse s k => run h (k (ast_parse h s))
  end.

(** ** Arithmetic on the numbers of [eval_node] *)

Section Arithmetic.

Local Open Scope float_scope.
Import PyFloat.

Definition of_host (a : exn + value) : M value :=
  match a with
  | inl e => Raise e
  | inr v => Ret v
  end.

(** An operation with a [complex] operand is the host's. *)
Definition host_complex (op : operator) (l r : value) : M value :=
  ComplexArith op l r of_host.

(** [float.__truediv__] *)
Definition float_div (a b : float) : M value :=
  if b =? 0 then raise ZeroDivisionError "float division by zero"
  else Ret (VFloat (a / b)).

(** The remainder of [float_rem] (floatobject.c) for a divisor that is
    not zero: C's [fmod], corrected to the sign of the divisor. *)
Definition float_mod (vx wx : float) : float :=
  let md := fmod vx wx in
  if negb (md =? 0) then
    if negb (Bool.eqb (wx <? 0) (md <? 0)) then md + wx else md
  else copysign_zero wx.

(** [float.__mod__] *)
Definition float_rem (vx wx : float) : M value :=
  if wx =? 0 then raise ZeroDivisionError "float modulo"
  else Ret (VFloat (float_mod vx wx)).

(** [float.__pow__] ([float_pow] of floatobject.c): the special cases
    are decided here, the rest is the C library's [pow]. *)
Definition float_pow (iv iw : float) : M value :=
  if iw =? 0 then Ret (VFloat 1)
  else if is_nan iv then Ret (VFloat iv)
  else if is_nan iw then Ret (VFloat (if iv =? 1 then 1 else iw))
  else if is_infinity iw then
    let av := abs iv in
    if av =? 1 then Ret (VFloat 1)
    else if Bool.eqb (0 <? iw) (1 <? av) then Ret (VFloat (abs iw))
    else Ret (VFloat 0)
  else if is_infinity iv then
    let iw_is_odd := is_odd_integer iw in
    if 0 <? iw then Ret (VFloat (if iw_is_odd then iv else abs iv))
    else Ret (VFloat (if iw_is_odd then copysign_zero iv else 0))
  else if iv =? 0 then
    let iw_is_odd := is_odd_integer iw in
    if iw <? 0
    then raise ZeroDivisionError "0.0 cannot be raised to a negative power"
    else Ret (VFloat (if iw_is_odd then iv else 0))
  else if (iv <? 0) && negb (iw =? floor iw) then
    host_complex Pow (VFloat iv) (VFloat iw)
  else
    let negate_result := (iv <? 0) && is_odd_integer iw in
    let av := if iv <? 0 then - iv else iv in
    if av =? 1 then Ret (VFloat (if negate_result then -1 else 1))
    else
      LibmPow av iw (fun r =>
        match r with
        | None => raise OverflowError "(34, 'Numerical result out of range')"
        | Some ix => Ret (VFloat (if negate_result then - ix else ix))
        end).

(** [v == 0] *)
Definition is_zero (v : value) : bool :=
  match v with
  | VFloat x => x =? 0
  | VComplex re im => (re =? 0) && (im =? 0)
  end.

(** [-v] *)
Definition neg (v : value) : value :=
  match v with
  | VFloat x => VFloat (- x)
  | VComplex re im => VComplex (- re) (- im)
  end.

Definition py_add (l r : value) : M value :=
  match l, r with
  | VFloat a, VFloat b => Ret (VFloat (a + b))
  | _, _ => host_complex Add l r
  end.

Definition py_sub (l r : value) : M value :=
  match l, r with
  | VFloat a, VFloat b => Ret (VFloat (a - b))
  | _, _ => host_complex Sub l r
  end.

Definition py_mul (l r : value) : M value :=
  match l, r with
  | VFloat a, VFloat b => Ret (VFloat (a * b))
  | _, _ => host_complex Mult l r
  end.

Definition py_truediv (l r : value) : M value :=
  match l, r with
  | VFloat a, VFloat b => float_div a b
  | _, _ => host_complex Div l r
  end.

Definition type_name (v : value) : string :=
  match v with
  | VFloat _ => "float"
  | VComplex _ _ => "complex"
  end.

Definition py_mod (l r : value) : M value :=
  match l, r with
  | VFloat a, VFloat b => float_rem a b
  | _, _ =>
      raise TypeError
        ("unsupported operand type(s) for %: '" ++ type_name l
           ++ "' and '" ++ type_name r ++ "'")
  end.

Definition py_pow (l r : value) : M value :=
  match l, r with
  | VFloat a, VFloat b => float_pow a b
  | _, _ => host_complex Pow l r
  end.

(** [float(node.value)] for the constants that pass
    [isinstance(node.value, (int, float))]; [bool] is a subclass of
    [int]. *)
Definition float_of_constant (c : constant) : option (M float) :=
  match c with
  | CInt n =>
      Some match of_int n with
           | Some x => Ret x
           | None => raise OverflowError "int too large to convert to float"
           end
  | CBool b => Some (Ret (if b then 1 else 0))
  | CFloat x => Some (Ret x)
  | _ => None
  end.

End Arithmetic.

(** ** The safe evaluator (main.py, lines 13-76) *)

Definition ALLOWED_BINOPS : list operator := [Add; Sub; Mult; Div; Mod; Pow].
Definition ALLOWED_UNARY : list unaryop := [USub; UAdd].

Definition operator_eqb (a b : operator) : bool :=
  match a, b with
  | Add, Add | Sub, Sub | Mult, Mult | MatMult, MatMult | Div, Div
  | Mod, Mod | Pow, Pow | LShift, LShift | RShift, RShift | BitOr, BitOr
  | BitXor, BitXor | BitAnd, BitAnd | FloorDiv, FloorDiv => true
  | _, _ => false
  end.

Definition unaryop_eqb (a b : unaryop) : bool :=
  match a, b with
  | Invert, Invert | Not, Not | UAdd, UAdd | USub, USub => true
  | _, _ => false
  end.

(** [eval_node]: [None] is Python's [None]. *)
Fixpoint eval_node (node : expr) : M (option value) :=
  match node with
  | Constant c =>
      match float_of_constant c with
      | Some m => x <- m ;; Ret (Some (VFloat x))
      | None => Ret None
      end
  | UnaryOp op operand =>
      if negb (existsb (unaryop_eqb op) ALLOWED_UNARY)
      then raise ValueError "Unsupported unary operator"
      else
        val <- eval_node operand ;;
        match val with
        | None => Ret None
        | Some v => Ret (Some (if unaryop_eqb op USub then neg v else v))
        end
  | BinOp node_left op node_right =>
      if negb (existsb (operator_eqb op) ALLOWED_BINOPS)
      then raise ValueError "Unsupported operator"
      else
        l <- eval_node node_left ;;
        r <- eval_node node_right ;;
        match l, r with
        | Some l, Some r =>
            if operator_eqb op Add then v <- py_add l r ;; Ret (Some v)
            else if operator_eqb op Sub then v <- py_sub l r ;; Ret (Some v)
            else if operator_eqb op Mult then v <- py_mul l r ;; Ret (Some v)
            else if operator_eqb op Div then
              if is_zero r then raise ZeroDivisionError "Division by zero"
              else v <- py_truediv l r ;; Ret (Some v)
            else if operator_eqb op Mod then
              if is_zero r then raise ZeroDivisionError "Modulo by zero"
              else v <- py_mod l r ;; Ret (Some v)
            else if operator_eqb op Pow then v <- py_pow l r ;; Ret (Some v)
            else raise ValueError "Unsupported expression node"
        | _, _ => Ret None
        end
  | Other _ => raise ValueError "Unsupported expression node"
  end.

(** What [safe_eval] returns: the pair [(result, error)]. *)
Definition result : Set := (option value * option str)%type.

(** Lines 68-76: the evaluation of [tree.body] inside [try]. *)
Definition safe_eval_tree (body : expr) : M result :=
  try_except
    (try_except
       (res <- eval_node body ;;
        match res with
        | None => Ret (None, Some (utf8 "Invalid expression"))
        | Some v => Ret (Some v, None)
        end)
       [ZeroDivisionError] (fun e => Ret (None, Some (exn_msg e))))
    [ValueError; TypeError] (fun e => Ret (None, Some (exn_msg e))).

(** Line 23: [expr.strip().replace("^", "**")]. *)
Definition preprocess (expr : str) : str :=
  replace (utf8 "^") (utf8 "**") (strip expr).

(** Lines 17-76. *)
Definition safe_eval (expr : str) : M result :=
  let expr := preprocess expr in
  if is_empty expr then Ret (None, Some (utf8 "Empty expression"))
  else
    AstParse expr (fun a =>
      match a with
      | inl e =>
          if exn_class_eqb (exn_cls e) SyntaxError
          then Ret (None, Some (utf8 "Invalid expression: " ++ exn_msg e))
          else Raise e
      | inr body => safe_eval_tree body
      end).

(** ** Number formatting *)

Module PyFormat.

Local Open Scope Z_scope.

Fixpoint uint_chars (u : Decimal.uint) : str :=
  match u with
  | Decimal.Nil => []
  | Decimal.D0 u => 48%N :: uint_chars u
  | Decimal.D1 u => 49%N :: uint_chars u
  | Decimal.D2 u => 50%N :: uint_chars u
  | Decimal.D3 u => 51%N :: uint_chars u
  | Decimal.D4 u => 52%N :: uint_chars u
  | Decimal.D5 u => 53%N :: uint_chars u
  | Decimal.D6 u => 54%N :: uint_chars u
  | Decimal.D7 u => 55%N :: uint_chars u
  | Decimal.D8 u => 56%N :: uint_chars u
  | Decimal.D9 u => 57%N :: uint_chars u
  end.

(** Decimal digits of a natural number, ["0"] for zero. *)
Definition digits (n : Z) : str := uint_chars (N.to_uint (Z.to_N n)).

(** [str(n)] for an [int]. *)
Definition str_of_int (n : Z) : str :=
  if n <? 0 then utf8 "-" ++ digits (- n) else digits n.

(** [a / b] rounded to nearest, ties to even ([0 < b]). *)
Definition round_half_even (a b : Z) : Z :=
  let q := a / b in
  match 2 * (a mod b) ?= b with
  | Lt => q
  | Gt => q + 1
  | Eq => if Z.even q then q else q + 1
  end.

(** [10^X <= num / den] *)
Definition le_pow10 (X num den : Z) : bool :=
  if 0 <=? X then 10 ^ X * den <=? num else den <=? num * 10 ^ (- X).

(** The decimal exponent of [num / den]: the largest [X], searched
    downwards, with [10^X <= num / den].  A double that is not zero lies
    between [10^-324] and [10^309], so 640 steps from 309 reach it. *)
Fixpoint decimal_exponent (fuel : nat) (X num den : Z) : Z :=
  match fuel with
  | O => X
  | S k =>
      if le_pow10 X num den then X
      else decimal_exponent k (X - 1) num den
  end.

(** [num / den] rounded to ten significant digits: the ten-digit
    integer and the decimal exponent of its first digit. *)
Definition ten_digits (num den : Z) : Z * Z :=
  let X := decimal_exponent 640 309 num den in
  let s := X - 9 in
  let D := if s <=? 0 then round_half_even (num * 10 ^ (- s)) den
           else round_half_even num (den * 10 ^ s) in
  if D =? 10 ^ 10 then (10 ^ 9, X + 1) else (D, X).

Definition strip_zeros (ds : str) : str := rstrip_chars (utf8 "0") ds.

Definition with_point (int_part frac : str) : str :=
  match strip_zeros frac with
  | [] => int_part
  | f => int_part ++ utf8 "." ++ f
  end.

(** The exponent of the [e] notation: a sign and at least two digits. *)
Definition exponent_chars (X : Z) : str :=
  (if X <? 0 then utf8 "-" else utf8 "+")
    ++ (if Z.abs X <? 10 then utf8 "0" else []) ++ digits (Z.abs X).

(** The [g] presentation of ten significant digits [D] with decimal
    exponent [X]. *)
Definition general (D X : Z) : str :=
  let ds := digits D in
  if (-4 <=? X) && (X <? 10) then
    if 0 <=? X
    then with_point (firstn (Z.to_nat (X + 1)) ds) (skipn (Z.to_nat (X + 1)) ds)
    else with_point (utf8 "0") (repeat 48%N (Z.to_nat (- X - 1)) ++ ds)
  else
    with_point (firstn 1 ds) (skipn 1 ds) ++ utf8 "e" ++ exponent_chars X.

(** [format(x, ".10g")] for a [float]. *)
Definition format_10g (x : float) : str :=
  match Prim2SF x with
  | S754_nan => utf8 "nan"
  | S754_infinity s => if s then utf8 "-inf" else utf8 "inf"
  | S754_zero s => if s then utf8 "-0" else utf8 "0"
  | S754_finite s m e =>
      let '(D, X) :=
        if 0 <=? e then ten_digits (Zpos m * 2 ^ e) 1
        else ten_digits (Zpos m) (2 ^ (- e)) in
      (if s then utf8 "-" else []) ++ general D X
  end.

End PyFormat.

(** ** The result formatter (main.py, lines 79-91) *)

Section Formatter.

Local Open Scope float_scope.
Import PyFloat PyFormat.

(** [int(x)] for a [float]. *)
Definition float_to_int (x : float) : M Z :=
  match trunc x with
  | Some n => Ret n
  | None =>
      if is_nan x then raise ValueError "cannot convert float NaN to integer"
      else raise OverflowError "cannot convert float infinity to integer"
  end.

(** [v != v] *)
Definition ne_self (v : value) : bool :=
  match v with
  | VFloat x => negb (x =? x)
  | VComplex re im => negb ((re =? re) && (im =? im))
  end.

(** [v == x] for a [float] [x] *)
Definition eq_float (v : value) (x : float) : bool :=
  match v with
  | VFloat y => y =? x
  | VComplex re im => (re =? x) && (im =? 0)
  end.

(** Lines 88-91, on the ten-digit representation [s]. *)
Definition trim (s : str) : str :=
  if contains 101%N (lower s) then s
  else
    match rstrip_chars (utf8 ".") (rstrip_chars (utf8 "0") s) with
    | [] => utf8 "0"
    | s' => s'
    end.

Definition format_result (value : value) : M str :=
  if ne_self value then Ret (utf8 "Error")
  else if eq_float value infinity || eq_float value neg_infinity
  then Ret (utf8 "Error")
  else
    match value with
    | VFloat x =>
        n <- float_to_int x ;;
        if eq_int x n then
          n' <- float_to_int x ;; Ret (str_of_int n')
        else Ret (trim (format_10g x))
    | VComplex re im => ComplexFormat re im (fun s => Ret (trim s))
    end.

End Formatter.

(** ** The application state and the evaluate handler
       (main.py, lines 139-142 and 343-363) *)

Record CalculatorApp : Set := {
  expression : str;
  last_ans : option value;
  history_list : list (str * str);
  sub_display_text : str;
  main_display : str;      (* the text of the main label *)
  sub_display : str;       (* the text of the small label *)
  history_label : str      (* the text of the history panel *)
}.

Fixpoint join (sep : str) (lines : list str) : str :=
  match lines with
  | [] => []
  | [l] => l
  | l :: rest => l ++ sep ++ join sep rest
  end.

Definition _update_history_display (self : CalculatorApp) : CalculatorApp :=
  let lines := map (fun '(expr, res) => expr ++ utf8 " = " ++ res)
                   (history_list self) in
  {| expression := expression self;
     last_ans := last_ans self;
     history_list := history_list self;
     sub_display_text := sub_display_text self;
     main_display := main_display self;
     sub_display := sub_display self;
     history_label := match lines with
                      | [] => utf8 "—"
                      | _ :: _ => join [10%N] lines
                      end |}.

(** [_evaluate]: the state after the handler.  An exception can only
    come out of [safe_eval], before any field is assigned. *)
Definition _evaluate (self : CalculatorApp) : M CalculatorApp :=
  if is_empty (strip (expression self)) then
      Ret {| expression := expression self;
             last_ans := last_ans self;
             history_list := history_list self;
             sub_display_text := sub_display_text self;
             main_display := utf8 "0";
             sub_display := [];
             history_label := history_label self |}
  else
      let internal := internal_expr (expression self) in
      res <- safe_eval internal ;;
      match res with
      | (_, Some err) =>
          let text := utf8 "Error: " ++ err in
          Ret {| expression := expression self;
                 last_ans := last_ans self;
                 history_list := history_list self;
                 sub_display_text := text;
                 main_display := utf8 "Error";
                 sub_display := text;
                 history_label := history_label self |}
      | (result, None) =>
          result_str <-
            match result with
            | Some v => format_result v
            | None =>
                raise TypeError
                  "unsupported format string passed to NoneType.__format__"
            end ;;
          let history :=
            firstn 6 ((display_expr (expression self), result_str)
                        :: history_list self) in
          let self' :=
            _update_history_display
              {| expression := expression self;
                 last_ans := result;
                 history_list := history;
                 sub_display_text := sub_display_text self;
                 main_display := main_display self;
                 sub_display := sub_display self;
                 history_label := history_label self |} in
          let text := display_expr internal ++ utf8 " =" in
          Ret {| expression := result_str;
                 last_ans := last_ans self';
                 history_list := history_list self';
                 sub_display_text := text;
                 main_display := result_str;
                 sub_display := text;
                 history_label := history_label self' |}
      end.

(** ** Regular expressions ([re]), as far as main.py uses them

    A pattern is matched as CPython's engine does it: alternatives in
    their order, every quantifier greedy, giving characters back one at a
    time when what follows fails.  Quantifiers stand on character classes
    only, as in the two patterns of main.py. *)

Module PyRe.

Inductive regex : Type :=
| Bol                        (* [^] *)
| Eol                        (* [$] *)
| In (cls : N -> bool)       (* one character of a class *)
| Opt (cls : N -> bool)      (* [c?] *)
| Star (cls : N -> bool)     (* [c*] *)
| Plus (cls : N -> bool)     (* [c+] *)
| Alt (a b : regex)          (* [a|b] *)
| Seq (a b : regex)
| Group (r : regex).         (* the capturing group *)

(** What is left to match: the position, the text from there on, and the
    span of the group so far. *)
Definition cont (T : Type) : Type := nat -> str -> nat * nat -> option T.

Fixpoint star {T : Type} (cls : N -> bool) (k : cont T) (i : nat) (s : str)
  (g : nat * nat) : option T :=
  match s with
  | c :: t =>
      if cls c then
        match star cls k (S i) t g with
        | Some r => Some r
        | None => k i s g
        end
      else k i s g
  | [] => k i s g
  end.

Fixpoint go {T : Type} (r : regex) (k : cont T) (i : nat) (s : str)
  (g : nat * nat) : option T :=
  match r with
  | Bol => if Nat.eqb i 0 then k i s g else None
  | Eol =>
      (* the end of the text, or the newline that ends it *)
      match s with
      | [] => k i s g
      | [c] => if (c =? 10)%N then k i s g else None
      | _ => None
      end
  | In cls =>
      match s with
      | c :: t => if cls c then k (S i) t g else None
      | [] => None
      end
  | Opt cls =>
      match s with
      | c :: t =>
          if cls c then
            match k (S i) t g with
            | Some r => Some r
            | None => k i s g
            end
          else k i s g
      | [] => k i s g
      end
  | Star cls => star cls k i s g
  | Plus cls =>
      match s with
      | c :: t => if cls c then star cls k (S i) t g else None
      | [] => None
      end
  | Alt a b =>
      match go a k i s g with
      | Some r => Some r
      | None => go b k i s g
      end
  | Seq a b => go a (go b k) i s g
  | Group r' => go r' (fun j s' _ => k j s' (i, j)) i s g
  end.

(** A match object: [m.span()] and [m.span(1)]. *)
Definition found : Type := ((nat * nat) * (nat * nat))%type.

(** The match that starts at position [i], [s] being the text from
    there on. *)
Definition match_at (r : regex) (i : nat) (s : str) : option found :=
  go r (fun j _ g => Some ((i, j), g)) i s (0, 0).

(** [re.match(r, s)] *)
Definition re_match (r : regex) (s : str) : option found := match_at r 0 s.

(** The leftmost match at or after position [i]. *)
Fixpoint search (r : regex) (i : nat) (s : str) : option found :=
  match match_at r i s with
  | Some m => Some m
  | None =>
      match s with
      | [] => None
      | _ :: t => search r (S i) t
      end
  end.

(** [list(re.finditer(r, s))]: the matches from the left, each search
    starting where the last match ended, one character further after a
    match of no text (the patterns of main.py match no empty text). *)
Fixpoint finditer_from (fuel : nat) (r : regex) (i : nat) (s : str)
  : list found :=
  match fuel with
  | O => []
  | S fuel' =>
      match search r i s with
      | None => []
      | Some ((b, j), g) =>
          let j' := if Nat.eqb b j then S j else j in
          ((b, j), g) :: finditer_from fuel' r j' (skipn (j' - i) s)
      end
  end.

Definition finditer (r : regex) (s : str) : list found :=
  finditer_from (S (List.length s)) r 0 s.

(** [m.group(1)] *)
Definition group1 (m : found) (s : str) : str :=
  let '(a, b) := snd m in firstn (b - a) (skipn a s).

End PyRe.

(** ** The other handlers of [CalculatorApp] (main.py, lines 262-341,
       365-370 and 378-402) *)

(** What the handlers take from the interpreter's library: the decimal
    digits of its Unicode database ([\d] of [re]) and [float] of a
    [str]. *)
Record Library : Type := {
  is_decimal : char -> bool;
  float_of_str : str -> exn + float
}.

(** [p in s] for two strings: [p] occurs in [s]; the empty string occurs
    in every string. *)
Fixpoint str_in (p s : str) : bool :=
  starts_with p s
  || match s with
     | [] => false
     | _ :: t => str_in p t
     end.

(** [s.lstrip(chars)] *)
Definition lstrip_chars (chars s : str) : str :=
  drop_while (fun c => contains c chars) s.

(** [s[a:b]] for [0 <= a] and [0 <= b]. *)
Definition slice (s : str) (a b : nat) : str := firstn (b - a) (skipn a s).

(** [except Exception]: every class of [exn_class]. *)
Definition Exception : list exn_class :=
  [ZeroDivisionError; OverflowError; ValueError; TypeError; SyntaxError;
   RecursionError; MemoryError].

(** The assignments to [self.expression] and [self.sub_display_text]. *)
Definition set_expression (self : CalculatorApp) (e : str) : CalculatorApp :=
  {| expression := e;
     last_ans := last_ans self;
     history_list := history_list self;
     sub_display_text := sub_display_text self;
     main_display := main_display self;
     sub_display := sub_display self;
     history_label := history_label self |}.

Definition set_sub_display_text (self : CalculatorApp) (t : str)
  : CalculatorApp :=
  {| expression := expression self;
     last_ans := last_ans self;
     history_list := history_list self;
     sub_display_text := t;
     main_display := main_display self;
     sub_display := sub_display self;
     history_label := history_label self |}.

Definition _append (self : CalculatorApp) (char : str) : CalculatorApp :=
  let internal := internal_expr char in
  set_sub_display_text (set_expression self (expression self ++ internal)) [].

Definition _clear (self : CalculatorApp) : CalculatorApp :=
  set_sub_display_text (set_expression self []) [].

Definition _backspace (self : CalculatorApp) : CalculatorApp :=
  set_sub_display_text
    (set_expression self (removelast (expression self))) [].

Definition _insert_ans (self : CalculatorApp) : M CalculatorApp :=
  self' <-
    match last_ans self with
    | Some v =>
        s <- format_result v ;;
        Ret (set_expression self (expression self ++ s))
    | None => Ret self
    end ;;
  Ret (set_sub_display_text self' []).

Definition _refresh_display (self : CalculatorApp) : CalculatorApp :=
  {| expression := expression self;
     last_ans := last_ans self;
     history_list := history_list self;
     sub_display_text := sub_display_text self;
     main_display := if is_empty (expression self) then utf8 "0"
                     else display_expr (expression self);
     sub_display := sub_display_text self;
     history_label := history_label self |}.

Section Handlers.

Import PyRe.

Variable lib : Library.

(** The capturing group of both patterns: an optional [-], one or more
    digits, an optional [.], any number of digits. *)
Definition NUMBER : regex :=
  Group (Seq (Opt (N.eqb 45))
          (Seq (Plus (is_decimal lib))
             (Seq (Opt (N.eqb 46)) (Star (is_decimal lib))))).

(** The pattern of lines 302 and 325: the start of the text or one of
    [+ - * / % (], white space, the group, white space, the end. *)
Definition LAST_NUMBER : regex :=
  Seq (Alt Bol (In (fun c => contains c (utf8 "+-*/%("))))
    (Seq (Star is_space) (Seq NUMBER (Seq (Star is_space) Eol))).

(** The pattern of lines 305 and 327: the start of the text, the group,
    white space, the end. *)
Definition WHOLE_NUMBER : regex :=
  Seq Bol (Seq NUMBER (Seq (Star is_space) Eol)).

(** [float(s)] *)
Definition float_ (s : str) : M float :=
  match float_of_str lib s with
  | inl e => Raise e
  | inr x => Ret x
  end.

Definition _toggle_sign (self : CalculatorApp) : CalculatorApp :=
  let e := expression self in
  if is_empty e then self
  else
    let m := finditer LAST_NUMBER e in
    match m with
    | [] =>
        match re_match WHOLE_NUMBER e with
        | Some m2 =>
            let num := group1 m2 e in
            let prefix := if starts_with (utf8 "-") num then utf8 "-" else [] in
            let rest := lstrip_chars (utf8 "-") num in
            set_expression self
              ((if is_empty prefix then utf8 "-" else []) ++ rest)
        | None => self
        end
    | m0 :: _ =>
        let last_m := last m m0 in
        let span := snd last_m in
        let num_str := group1 last_m e in
        let new_num := if starts_with (utf8 "-") num_str then skipn 1 num_str
                       else utf8 "-" ++ num_str in
        set_sub_display_text
          (set_expression self
             (firstn (fst span) e ++ new_num ++ skipn (snd span) e)) []
    end.

Definition _percent (self : CalculatorApp) : M CalculatorApp :=
  let e := expression self in
  if is_empty e then Ret self
  else
    let m := finditer LAST_NUMBER e in
    match m with
    | [] =>
        match re_match WHOLE_NUMBER e with
        | Some m2 =>
            try_except
              (x <- float_ (group1 m2 e) ;;
               s <- format_result (VFloat (x / 100)) ;;
               Ret (set_expression self s))
              Exception (fun _ => Ret self)
        | None => Ret self
        end
    | m0 :: _ =>
        let last_m := last m m0 in
        let span := snd last_m in
        self' <-
          try_except
            (x <- float_ (group1 last_m e) ;;
             s <- format_result (VFloat (x / 100)) ;;
             Ret (set_expression self
                    (firstn (fst span) e ++ s ++ skipn (snd span) e)))
            Exception (fun _ => Ret self) ;;
        Ret (set_sub_display_text self' [])
    end.

Definition _on_button (key : str) (self : CalculatorApp) : M CalculatorApp :=
  self' <-
    (if PyStr.eqb key (utf8 "C") then Ret (_clear self)
     else if PyStr.eqb key (utf8 "⌫") then Ret (_backspace self)
     else if PyStr.eqb key (utf8 "=") then _evaluate self
     else if PyStr.eqb key (utf8 "ANS") then _insert_ans self
     else if PyStr.eqb key (utf8 "+/-") then Ret (_toggle_sign self)
     else if PyStr.eqb key (utf8 "%") then _percent self
     else if str_in key (utf8 "0123456789.+-×÷^()") then Ret (_append self key)
     else Ret self) ;;
  Ret (_refresh_display self').

End Handlers.

(** A key event of Tk: [e.keysym], [e.char] and [e.state]. *)
Record KeyEvent : Set := {
  e_keysym : str;
  e_char : str;
  e_state : Z
}.

(** [on_key] of [_bind_keys]: the state after the handler, and whether
    it returned ["break"]. *)
Definition on_key (e : KeyEvent) (self : CalculatorApp)
  : M (CalculatorApp * bool) :=
  let k := e_keysym e in
  let char := e_char e in
  if str_in char (utf8 "0123456789.+-*/()") then
    let self := _append self (if str_in char (utf8 "*/")
                              then internal_expr char else char) in
    Ret (_refresh_display self, true)
  else if PyStr.eqb k (utf8 "Return") || PyStr.eqb k (utf8 "KP_Enter") then
    self <- _evaluate self ;;
    Ret (self, true)
  else if PyStr.eqb k (utf8 "BackSpace") then
    Ret (_refresh_display (_backspace self), true)
  else if PyStr.eqb k (utf8 "Escape") then
    Ret (_refresh_display (_clear self), true)
  else if PyStr.eqb char (utf8 "^")
          || negb (Z.land (e_state e) 1 =? 0)%Z && PyStr.eqb char (utf8 "6")
  then Ret (_refresh_display (_append self (utf8 "^")), true)
  else Ret (self, false).

(** ** The evaluator as the specification words it (spec, sections 3
       and 4.2), to be compared with [eval_node] *)

Module Spec.





Section Evaluate.

Local Open Scope float_scope.

(** The double-precision power, which the specification leaves to the
    host. *)
Variable pow : float -> float -> float.


End Evaluate.


End Spec.



(** ** A host for examples

    It answers the listed sources as CPython's parser does (a tree or an
    exception) and reports a syntax error for any other; its [pow]
    reports a range error and its complex numbers support no
    operation. *)
Definition example_host (parses : list (str * (exn + expr))) : Host :=
  {| libm_pow := fun _ _ => None;
     complex_arith := fun _ _ _ =>
       inl (Exn TypeError (utf8 "unsupported operand type(s)"));
     complex_format := fun _ _ => [];
     ast_parse := fun source =>
       match find (fun p => PyStr.eqb (fst p) source) parses with
       | Some p => snd p
       | None => inl (Exn SyntaxError (utf8 "invalid syntax"))
       end |}.

(** A construct [eval_node] does not evaluate: a constant that does not
    pass [isinstance(node.value, (int, float))], an operator outside the
    two lists, any other node.  [True] and [False] pass the test: [bool]
    is a subclass of [int]. *)
Fixpoint unsupported (e : expr) : bool :=
  match e with
  | Constant c =>
      match c with
      | CInt _ | CFloat _ | CBool _ => false
      | _ => true
      end
  | UnaryOp op x =>
      negb (existsb (unaryop_eqb op) ALLOWED_UNARY) || unsupported x
  | BinOp a op b =>
      negb (existsb (operator_eqb op) ALLOWED_BINOPS)
      || unsupported a || unsupported b
  | Other _ => true
  end.

(** ** Vocabulary of the statements *)

(** The characters of the calculator's keys:
    [0-9 . + - × ÷ ^ ( )]. *)
Definition display_char (c : char) : bool :=
  contains c (utf8 "0123456789.+-×÷^()").

Definition display_string (s : str) : bool := forallb display_char s.

(** No [×] stands directly before a [×] or a [^]. *)
Fixpoint unambiguous (s : str) : bool :=
  match s with
  | [] => true
  | c :: t =>
      (negb (c =? 215)%N
       || match t with
          | [] => true
          | d :: _ => negb ((d =? 215) || (d =? 94))%N
          end)
      && unambiguous t
  end.

(** The sign bit of a double, on its specification. *)
Definition sign_bit (x : spec_float) : bool :=
  match x with
  | S754_zero s | S754_infinity s | S754_finite s _ _ => s
  | S754_nan => false
  end.

(** [float_mod] on the specification of doubles. *)
Definition float_mod_spec (x y : spec_float) : spec_float :=
  let md := PyFloat.fmod_spec x y in
  if negb (SFeqb md (S754_zero false)) then
    if negb (Bool.eqb (SFltb y (S754_zero false)) (SFltb md (S754_zero false)))
    then SFadd prec emax md y
    else md
  else S754_zero (sign_bit y).

(** The internal power operator, [**]. *)
Definition power : str := [42; 42]%N.

(** One of the display glyphs [×], [÷], [^]. *)
Definition glyph (c : char) : bool :=
  ((c =? 215) || (c =? 247) || (c =? 94))%N.

(** The characters of a formatted double. *)
Definition numeric_chars : str := utf8 "0123456789-+.e".

(** The state [__init__] and [_build_ui] set up (main.py, lines 139-142,
    156-158, 168-170 and 193-203): the labels are created with their
    texts, then [_update_history_display] fills the history panel. *)
Definition initial : CalculatorApp :=
  _update_history_display
    {| expression := [];
       last_ans := None;
       history_list := [];
       sub_display_text := [];
       main_display := utf8 "0";
       sub_display := [];
       history_label := [] |}.

(** The keypad buttons pressed one after the other. *)
Fixpoint press (lib : Library) (keys : list str) (self : CalculatorApp)
  : M CalculatorApp :=
  match keys with
  | [] => Ret self
  | key :: rest => self' <- _on_button lib key self ;; press lib rest self'
  end.

(** One button for each character of a text. *)
Definition keys_of (s : str) : list str := map (fun c => [c]) s.

(** The line of the history panel for one entry. *)
Definition history_line (entry : str * str) : str :=
  fst entry ++ utf8 " = " ++ snd entry.

(** What the history panel shows for a history: the entries, one per
    line, or a dash if there is none. *)
Definition history_text (history : list (str * str)) : str :=
  match history with
  | [] => utf8 "—"
  | _ :: _ => join [10%N] (map history_line history)
  end.

(** The history holds at most six entries, and the panel shows them. *)
Definition history_ok (self : CalculatorApp) : Prop :=
  List.length (history_list self) <= 6
  /\ history_label self = history_text (history_list self).

(** [self'] differs from [self] at most in the expression, the status
    line and the two display labels. *)
Definition edits (self self' : CalculatorApp) : Prop :=
  last_ans self' = last_ans self
  /\ history_list self' = history_list self
  /\ history_label self' = history_label self.

(** None of the glyphs [×], [÷], [^] occurs. *)
Definition glyph_free (s : str) : bool := forallb (fun c => negb (glyph c)) s.

(** What a pattern matches: [Matches r i s j s' g g'] when [r] matches
    the text between the positions [i] and [j], [s] being the text from
    [i] on and [s'] the text from [j] on, and takes the span of the
    group from [g] to [g']. *)
Inductive Matches :
  PyRe.regex -> nat -> str -> nat -> str -> nat * nat -> nat * nat -> Prop :=
| M_Bol s g : Matches PyRe.Bol 0 s 0 s g g
| M_Eol_end i g : Matches PyRe.Eol i [] i [] g g
| M_Eol_newline i g : Matches PyRe.Eol i [10%N] i [10%N] g g
| M_In cls c t i g :
    cls c = true -> Matches (PyRe.In cls) i (c :: t) (S i) t g g
| M_Opt_one cls c t i g :
    cls c = true -> Matches (PyRe.Opt cls) i (c :: t) (S i) t g g
| M_Opt_none cls i s g : Matches (PyRe.Opt cls) i s i s g g
| M_Star_none cls i s g : Matches (PyRe.Star cls) i s i s g g
| M_Star_more cls c t i j s' g :
    cls c = true ->
    Matches (PyRe.Star cls) (S i) t j s' g g ->
    Matches (PyRe.Star cls) i (c :: t) j s' g g
| M_Plus cls c t i j s' g :
    cls c = true ->
    Matches (PyRe.Star cls) (S i) t j s' g g ->
    Matches (PyRe.Plus cls) i (c :: t) j s' g g
| M_Alt_left a b i s j s' g g' :
    Matches a i s j s' g g' -> Matches (PyRe.Alt a b) i s j s' g g'
| M_Alt_right a b i s j s' g g' :
    Matches b i s j s' g g' -> Matches (PyRe.Alt a b) i s j s' g g'
| M_Seq a b i s j s' k s'' g g' g'' :
    Matches a i s j s' g g' -> Matches b j s' k s'' g' g'' ->
    Matches (PyRe.Seq a b) i s k s'' g g''
| M_Group r i s j s' g g' :
    Matches r i s j s' g g' -> Matches (PyRe.Group r) i s j s' g (i, j).

(** The digits of the library are no white space and none of the
    characters [+ - * / % ( .] (as in every Unicode database). *)
Definition plain_digits (lib : Library) : Prop :=
  forall c, is_decimal lib c = true ->
    is_space c = false /\ contains c (utf8 "+-*/%(.") = false.

(** The parts of a number as the group of the patterns takes it: a
    sign, digits, a point, digits. *)
Definition numeral (lib : Library) (sg d1 dt d2 : str) : Prop :=
  (sg = [] \/ sg = [45%N])
  /\ d1 <> [] /\ forallb (is_decimal lib) d1 = true
  /\ (dt = [] \/ dt = [46%N])
  /\ forallb (is_decimal lib) d2 = true.

(** What follows the alternative at the head of [LAST_NUMBER]: white
    space, the group, white space, the end. *)
Definition REST (lib : Library) : PyRe.regex :=
  PyRe.Seq (PyRe.Star is_space)
    (PyRe.Seq (NUMBER lib) (PyRe.Seq (PyRe.Star is_space) PyRe.Eol)).

(** A character that is no white space. *)
Definition solid (c : char) : bool := negb (is_space c).

(** A character of a number after its first: a digit or the point. *)
Definition inner (lib : Library) (c : char) : bool :=
  is_decimal lib c || (c =? 46)%N.

(** A match [m] of [LAST_NUMBER] at position [q], the text from [q] on
    being [o], white space [w], the number, white space [w2] and the
    last newline [s'], if any; [o] is one of [+ - * / % (], or empty at
    the start of the text. *)
Definition last_number_at (lib : Library) (q : nat) (m : PyRe.found)
  (o w sg d1 dt d2 w2 s' : str) : Prop :=
  ((o = [] /\ q = 0)
   \/ (exists c, o = [c] /\ contains c (utf8 "+-*/%(") = true))
  /\ forallb is_space w = true
  /\ numeral lib sg d1 dt d2
  /\ forallb is_space w2 = true
  /\ (s' = [] \/ s' = [10%N])
  /\ m = ((q, q + List.length o + List.length w
               + List.length (sg ++ d1 ++ dt ++ d2) + List.length w2),
          (q + List.length o + List.length w,
           q + List.length o + List.length w
           + List.length (sg ++ d1 ++ dt ++ d2))).

(** ** A library for examples: the ASCII digits, and [float] of a
       decimal numeral, rounded to the nearest double *)

Module Example.

Definition is_digit (c : char) : bool := ((48 <=? c) && (c <=? 57))%N.

(** The value of the leading digits after [acc], how many they are, and
    the rest of the text. *)
Fixpoint leading_digits (acc : Z) (count : nat) (s : str) : Z * nat * str :=
  match s with
  | c :: t =>
      if is_digit c
      then leading_digits (10 * acc + Z.of_N (c - 48)) (S count) t
      else (acc, count, s)
  | [] => (acc, count, s)
  end.

(** [num / den], rounded to nearest, ties to even. *)
Definition of_ratio (sign : bool) (num den : Z) : float :=
  if (num =? 0)%Z then (if sign then neg_zero else zero)
  else
    let '(q, e, l) := SFdiv_core_binary prec emax num 0 den 0 in
    SF2Prim (binary_round_aux prec emax sign q e l).

(** [float(s)] for a numeral: a sign, digits, and digits after a point. *)
Definition float_of_numeral (s : str) : exn + float :=
  let bad := inl (Exn ValueError
                    (utf8 "could not convert string to float")) in
  let '(sign, s) := match s with
                    | 45%N :: t => (true, t)
                    | _ => (false, s)
                    end in
  let '(n, count, rest) := leading_digits 0 0 s in
  match count, rest with
  | O, _ => bad
  | _, [] => inr (of_ratio sign n 1)
  | _, 46%N :: frac =>
      let '(n', count', rest') := leading_digits n 0 frac in
      match rest' with
      | [] => inr (of_ratio sign n' (10 ^ Z.of_nat count'))
      | _ :: _ => bad
      end
  | _, _ :: _ => bad
  end.

Definition library : Library :=
  {| is_decimal := is_digit; float_of_str := float_of_numeral |}.

End Example.

(** * Properties *)

(** ** Strings *)

Section Replace.

Lemma replace_single_cons (c : char) (new : str) (x : char) (s : str) :
  replace [c] new (x :: s)
  = (if (x =? c)%N then new else [x]) ++ replace [c] new s.
Proof.
  unfold replace; simpl.
  rewrite N.eqb_sym, andb_true_r.
  destruct (x =? c)%N; reflexivity.
Qed.

Lemma contains_app (c : char) (a b : str) :
  contains c (a ++ b) = contains c a || contains c b.
Proof. unfold contains. apply existsb_app. Qed.

Lemma replace_power_other (c : char) (s : str) :
  c <> 42%N -> replace power [94%N] (c :: s) = c :: replace power [94%N] s.
Proof.
  intros H. unfold replace, power. cbn [replace_from starts_with].
  apply N.eqb_neq in H. rewrite N.eqb_sym in H. now rewrite H.
Qed.

Lemma replace_power_pair (s : str) :
  replace power [94%N] (42 :: 42 :: s)%N = 94%N :: replace power [94%N] s.
Proof. reflexivity. Qed.

Lemma replace_power_single (s : str) :
  starts_with [42%N] s = false ->
  replace power [94%N] (42%N :: s) = 42%N :: replace power [94%N] s.
Proof.
  intros H. unfold replace, power. destruct s as [|d s]; [reflexivity|].
  cbn [replace_from starts_with] in *. rewrite N.eqb_refl.
  rewrite andb_true_r in *. cbn [andb]. now rewrite H.
Qed.

End Replace.

Section Translator.

Lemma display_expr_eq (x : str) :
  display_expr x
  = replace [47%N] [247%N] (replace [42%N] [215%N] (replace power [94%N] x)).
Proof. reflexivity. Qed.

Lemma internal_expr_eq (x : str) :
  internal_expr x
  = replace [94%N] power (replace [247%N] [47%N] (replace [215%N] [42%N] x)).
Proof. reflexivity. Qed.

Lemma internal_expr_cons (c : char) (s : str) :
  internal_expr (c :: s)
  = (if (c =? 215)%N then [42%N]
     else if (c =? 247)%N then [47%N]
     else if (c =? 94)%N then power else [c]) ++ internal_expr s.
Proof.
  rewrite !internal_expr_eq, replace_single_cons.
  destruct (N.eqb_spec c 215) as [->|H1]; simpl app.
  - now rewrite !replace_single_cons.
  - rewrite replace_single_cons.
    destruct (N.eqb_spec c 247) as [->|H2]; simpl app.
    + now rewrite replace_single_cons.
    + now rewrite replace_single_cons.
Qed.

Lemma internal_expr_no_glyph (s : str) :
  forallb (fun c => negb (glyph c)) (internal_expr s) = true.
Proof.
  induction s as [|c s IH]; [reflexivity|].
  rewrite internal_expr_cons, forallb_app.
  apply andb_true_intro; split; [|exact IH].
  unfold glyph.
  destruct (N.eqb_spec c 215); [reflexivity|].
  destruct (N.eqb_spec c 247); [reflexivity|].
  destruct (N.eqb_spec c 94); [reflexivity|].
  simpl. rewrite andb_true_r.
  repeat match goal with
         | H : c <> _ |- _ => apply N.eqb_neq in H; rewrite H; clear H
         end.
  reflexivity.
Qed.

Lemma internal_expr_fixed (s : str) :
  forallb (fun c => negb (glyph c)) s = true -> internal_expr s = s.
Proof.
  induction s as [|c s IH]; [reflexivity|].
  simpl. intros H. apply andb_prop in H as [Hc Hs].
  rewrite internal_expr_cons, IH by assumption.
  unfold glyph in Hc. apply negb_true_iff in Hc.
  apply orb_false_elim in Hc as [Hc H94].
  apply orb_false_elim in Hc as [H215 H247].
  now rewrite H215, H247, H94.
Qed.

(** The translated tail starts with a star only when the tail starts
    with [×], [^] or a raw star. *)
Lemma internal_expr_head (s : str) :
  match s with
  | [] => true
  | d :: _ => negb ((d =? 215) || (d =? 94) || (d =? 42))%N
  end = true ->
  starts_with [42%N] (internal_expr s) = false.
Proof.
  destruct s as [|d s]; [reflexivity|].
  intros H. apply negb_true_iff in H.
  apply orb_false_elim in H as [H H42].
  apply orb_false_elim in H as [H215 H94].
  rewrite internal_expr_cons, H215, H94.
  destruct (d =? 247)%N; cbn [app starts_with]; [reflexivity|].
  rewrite N.eqb_sym, H42. reflexivity.
Qed.

(** The round trip on a string with no raw [*] or [/] in which no [×]
    meets a following [×] or [^]. *)
Lemma round_trip_no_raw (s : str) :
  forallb (fun c => negb ((c =? 42) || (c =? 47))%N) s = true ->
  unambiguous s = true ->
  display_expr (internal_expr s) = s.
Proof.
  induction s as [|c s IH]; [reflexivity|].
  intros Hraw Hun. simpl in Hraw, Hun.
  apply andb_prop in Hraw as [Hc Hraw].
  apply andb_prop in Hun as [Hnext Hun].
  specialize (IH Hraw Hun).
  apply negb_true_iff in Hc. apply orb_false_elim in Hc as [H42 H47].
  rewrite internal_expr_cons.
  rewrite display_expr_eq in *.
  destruct (N.eqb_spec c 215) as [->|H215].
  - simpl app. rewrite replace_power_single.
    + repeat (rewrite replace_single_cons; cbn [N.eqb Pos.eqb app]). now rewrite IH.
    + apply internal_expr_head. destruct s as [|d s]; [reflexivity|].
      simpl in Hnext, Hraw. apply andb_prop in Hraw as [Hd _].
      apply negb_true_iff in Hd. apply orb_false_elim in Hd as [Hd _].
      apply negb_true_iff in Hnext. rewrite Hnext, Hd. reflexivity.
  - destruct (N.eqb_spec c 247) as [->|H247].
    + simpl app. rewrite replace_power_other by discriminate.
      repeat (rewrite replace_single_cons; cbn [N.eqb Pos.eqb app]). now rewrite IH.
    + destruct (N.eqb_spec c 94) as [->|H94].
      * unfold power at 1. simpl app. rewrite replace_power_pair.
        repeat (rewrite replace_single_cons; cbn [N.eqb Pos.eqb app]). now rewrite IH.
      * simpl app. apply N.eqb_neq in H42.
        rewrite replace_power_other by assumption.
        apply N.eqb_neq in H42.
        rewrite replace_single_cons, H42. cbn [app].
        rewrite replace_single_cons, H47. cbn [app]. now rewrite IH.
Qed.

Lemma display_char_not_raw (c : char) :
  display_char c = true -> negb ((c =? 42) || (c =? 47))%N = true.
Proof.
  unfold display_char, contains. cbn -[N.eqb].
  intros H.
  destruct (N.eqb_spec c 42) as [->|_]; [discriminate H|].
  destruct (N.eqb_spec c 47) as [->|_]; [discriminate H|].
  reflexivity.
Qed.

End Translator.

(** C8 (as stated, refuted): the string [××] is built only from the
    listed characters, and its round trip is [^]. *)
Lemma C8_round_trip_counterexample :
  display_string (utf8 "××") = true
  /\ display_expr (internal_expr (utf8 "××")) = utf8 "^".
Proof. split; reflexivity. Qed.

(** C8 (amended): for every string built only from the characters
    [0-9 . + - × ÷ ^ ( )] in which no [×] stands directly before a [×] or
    a [^], going to the internal form and back is the identity. *)
Theorem C8_round_trip (s : str) :
  display_string s = true ->
  unambiguous s = true ->
  display_expr (internal_expr s) = s.
Proof.
  intros Hs Hun. apply round_trip_no_raw; [|exact Hun].
  unfold display_string in Hs.
  rewrite forallb_forall in *. intros c Hc.
  now apply display_char_not_raw, Hs.
Qed.

Lemma C8_round_trip_witness :
  display_expr (internal_expr (utf8 "2×3^2÷(1+2)^×-.5")) = utf8 "2×3^2÷(1+2)^×-.5".
Proof. apply C8_round_trip; reflexivity. Defined.

(** C10: [internal_expr] is idempotent, because its output holds none of
    the display glyphs [×], [÷], [^] that it substitutes. *)
Theorem C10_internal_expr_idempotent (s : str) :
  internal_expr (internal_expr s) = internal_expr s
  /\ forallb (fun c => negb (glyph c)) (internal_expr s) = true.
Proof.
  split.
  - apply internal_expr_fixed, internal_expr_no_glyph.
  - apply internal_expr_no_glyph.
Qed.


(** ** Computations *)

Section Computations.

Context {A B : Type}.

Lemma run_bind (h : Host) (m : M A) (f : A -> M B) :
  run h (bind m f)
  = match run h m with
    | Returns a => run h (f a)
    | Raises e => Raises e
    end.
Proof.
  induction m as [a|e|x y k IH|op l r k IH|re im k IH|src k IH];
    simpl; auto.
Qed.

Lemma run_try_except (h : Host) (m : M A) (classes : list exn_class)
  (handler : exn -> M A) :
  run h (try_except m classes handler)
  = match run h m with
    | Returns a => Returns a
    | Raises e =>
        if existsb (exn_class_eqb (exn_cls e)) classes
        then run h (handler e) else Raises e
    end.
Proof.
  induction m as [a|e|x y k IH|op l r k IH|re im k IH|src k IH];
    simpl; auto.
  destruct (existsb _ classes); reflexivity.
Qed.

End Computations.

(** What [safe_eval_tree] makes of the outcome of [eval_node]. *)
Lemma run_safe_eval_tree (h : Host) (body : expr) :
  run h (safe_eval_tree body)
  = match run h (eval_node body) with
    | Returns (Some v) => Returns (Some v, None)
    | Returns None => Returns (None, Some (utf8 "Invalid expression"))
    | Raises e =>
        match exn_cls e with
        | ZeroDivisionError | ValueError | TypeError =>
            Returns (None, Some (exn_msg e))
        | _ => Raises e
        end
    end.
Proof.
  unfold safe_eval_tree.
  rewrite !run_try_except, run_bind.
  destruct (run h (eval_node body)) as [[v|]|[c msg]]; try reflexivity.
  destruct c; reflexivity.
Qed.

(** What [safe_eval] makes of a source the host parses. *)
Lemma run_safe_eval_parsed (h : Host) (src : str) (body : expr) :
  is_empty (preprocess src) = false ->
  ast_parse h (preprocess src) = inr body ->
  run h (safe_eval src) = run h (safe_eval_tree body).
Proof.
  unfold safe_eval. cbv zeta.
  intros Hne Hp. rewrite Hne. simpl. now rewrite Hp.
Qed.

(** ** The evaluator against the specification's *)

Section Refinement.

Variable h : Host.
Variable pow : float -> float -> float.


End Refinement.






(** ** Exceptions that [safe_eval] does not catch *)

(** C4 (the code breaks it): the literal [10^400] is an [int] too large
    for [float(node.value)]; the [OverflowError] is none of the caught
    classes and leaves [safe_eval], for the tree and for its source
    text. *)
Theorem C4_overflow_escapes :
  let tree := Constant (CInt (10 ^ 400)) in
  let src := PyFormat.digits (10 ^ 400) in
  safe_eval_tree tree
  = Raise (Exn OverflowError (utf8 "int too large to convert to float"))
  /\ run (example_host [(src, inr tree)]) (safe_eval src)
     = Raises (Exn OverflowError (utf8 "int too large to convert to float")).
Proof. split; vm_compute; reflexivity. Qed.

(** ** Constructs outside the whitelist *)

(** C5 (the code breaks it): the named constant [True] passes
    [isinstance(node.value, (int, float))] and evaluates to [1.0]. *)
Theorem C5_true_is_accepted :
  let tree := Constant (CBool true) in
  safe_eval_tree tree = Ret (Some (VFloat 1), None)
  /\ run (example_host [(utf8 "True", inr tree)]) (safe_eval (utf8 "True"))
     = Returns (Some (VFloat 1), None).
Proof. split; reflexivity. Qed.

(** Every other construct outside the whitelist makes [eval_node] return
    [None] or raise. *)
Lemma eval_node_unsupported (h : Host) (e : expr) :
  unsupported e = true ->
  forall v, run h (eval_node e) <> Returns (Some v).
Proof.
  induction e as [c|op x IH|a IHa op b IHb|k]; intros Hu v.
  - destruct c; try discriminate Hu; simpl; discriminate.
  - cbn [unsupported] in Hu. cbn [eval_node].
    destruct (negb (existsb (unaryop_eqb op) ALLOWED_UNARY));
      [discriminate|].
    rewrite run_bind. simpl in Hu.
    destruct (run h (eval_node x)) as [[w|]|ex]; try discriminate.
    exfalso. exact (IH Hu w eq_refl).
  - cbn [unsupported] in Hu. cbn [eval_node].
    destruct (negb (existsb (operator_eqb op) ALLOWED_BINOPS));
      [discriminate|].
    rewrite run_bind. simpl in Hu.
    destruct (run h (eval_node a)) as [[l|]|ea]; try discriminate.
    + rewrite run_bind.
      destruct (run h (eval_node b)) as [[r|]|eb]; try discriminate.
      exfalso. apply orb_prop in Hu as [Hu|Hu].
      * exact (IHa Hu l eq_refl).
      * exact (IHb Hu r eq_refl).
    + rewrite run_bind.
      destruct (run h (eval_node b)) as [[r|]|eb]; discriminate.
  - discriminate.
Qed.

(** Hence [safe_eval] gives no value for a source whose tree holds such a
    construct. *)
Lemma safe_eval_unsupported (h : Host) (src : str) (body : expr) :
  is_empty (preprocess src) = false ->
  ast_parse h (preprocess src) = inr body ->
  unsupported body = true ->
  forall v err, run h (safe_eval src) <> Returns (Some v, err).
Proof.
  intros Hne Hp Hu v err.
  rewrite (run_safe_eval_parsed h src body Hne Hp), run_safe_eval_tree.
  pose proof (eval_node_unsupported h body Hu) as H.
  destruct (run h (eval_node body)) as [[w|]|[c msg]].
  - now destruct (H w).
  - discriminate.
  - destruct c; discriminate.
Qed.

(** ** The evaluate handler *)

(** C9: when [safe_eval] returns an error for the current input, the
    evaluate handler returns with the expression, the last answer and
    the history (and its panel) unchanged; if the input is not blank the
    main label shows ["Error"] and the small label the error message. *)
Theorem C9_evaluate_failure_frame (h : Host) (self : CalculatorApp)
  (res : option value) (err : str) :
  run h (safe_eval (internal_expr (expression self)))
  = Returns (res, Some err) ->
  exists self',
    run h (_evaluate self) = Returns self'
    /\ expression self' = expression self
    /\ last_ans self' = last_ans self
    /\ history_list self' = history_list self
    /\ history_label self' = history_label self
    /\ (is_empty (strip (expression self)) = false ->
        main_display self' = utf8 "Error"
        /\ sub_display self' = utf8 "Error: " ++ err
        /\ sub_display_text self' = utf8 "Error: " ++ err).
Proof.
  intros H. unfold _evaluate.
  destruct (is_empty (strip (expression self))).
  - eexists; split; [reflexivity|]. simpl.
    repeat split; discriminate.
  - rewrite run_bind, H. eexists; split; [reflexivity|].
    simpl. repeat split.
Qed.

Lemma C9_evaluate_failure_frame_witness :
  let h := example_host
             [(utf8 "5/0",
               inr (BinOp (Constant (CInt 5)) Div (Constant (CInt 0))))] in
  let self := {| expression := utf8 "5÷0";
                 last_ans := Some (VFloat 4);
                 history_list := [(utf8 "2+2", utf8 "4")];
                 sub_display_text := [];
                 main_display := utf8 "5÷0";
                 sub_display := [];
                 history_label := utf8 "2+2 = 4" |} in
  exists self',
    run h (_evaluate self) = Returns self'
    /\ expression self' = expression self
    /\ last_ans self' = last_ans self
    /\ history_list self' = history_list self
    /\ history_label self' = history_label self
    /\ (is_empty (strip (expression self)) = false ->
        main_display self' = utf8 "Error"
        /\ sub_display self' = utf8 "Error: " ++ utf8 "Division by zero"
        /\ sub_display_text self' = utf8 "Error: " ++ utf8 "Division by zero").
Proof.
  intros h self.
  apply (C9_evaluate_failure_frame h self None (utf8 "Division by zero")).
  reflexivity.
Defined.

(** ** Doubles *)

Section Doubles.

Local Open Scope float_scope.

Lemma Prim2SF_zero : Prim2SF 0 = S754_zero false.
Proof. reflexivity. Qed.

Lemma Prim2SF_one : Prim2SF 1 = S754_finite false 4503599627370496 (-52).
Proof. reflexivity. Qed.

Lemma Prim2SF_infinity : Prim2SF infinity = S754_infinity false.
Proof. reflexivity. Qed.

Lemma Prim2SF_neg_infinity : Prim2SF neg_infinity = S754_infinity true.
Proof. reflexivity. Qed.

End Doubles.

(** Comparisons of doubles, read on their specification. *)
Ltac to_spec :=
  unfold is_nan, is_infinity, PrimFloat.is_zero, PrimFloat.zero,
    PrimFloat.one in *;
  rewrite ?eqb_spec, ?ltb_spec, ?abs_spec, ?opp_spec in *;
  rewrite ?Prim2SF_zero, ?Prim2SF_one, ?Prim2SF_infinity,
    ?Prim2SF_neg_infinity in *.

Ltac by_cases x :=
  to_spec; destruct (Prim2SF x) as [[|]|[|]| |[|] ? ?];
  cbn in *; rewrite ?Z.compare_refl, ?Pos.compare_cont_refl in *;
  cbn in *; try discriminate; try reflexivity; auto.

Section DoubleFacts.

Local Open Scope float_scope.

Lemma pos_not_zero (r : float) :
  (0 <? r) = true -> (r =? 0) = false /\ is_nan r = false.
Proof. intros H. split; by_cases r. Qed.



Lemma infinite_facts (l : float) :
  is_infinity l = true ->
  is_nan l = false /\ (abs l =? 1) = false /\ (1 <? abs l) = true
  /\ is_infinity (abs l) = true
  /\ ((l =? infinity) || (l =? neg_infinity)) = true.
Proof.
  intros H. to_spec.
  destruct (Prim2SF l) as [s|s| |s m e]; try discriminate H.
  destruct s; repeat split; reflexivity.
Qed.

Lemma finite_cases (v : float) :
  is_nan v || is_infinity v = false ->
  (exists s, Prim2SF v = S754_zero s)
  \/ (exists s m e, Prim2SF v = S754_finite s m e).
Proof.
  intros H. apply orb_false_elim in H as [Hn Hi].
  to_spec. destruct (Prim2SF v) as [s|s| |s m e]; cbn in *;
    try discriminate; eauto.
Qed.

End DoubleFacts.

(** ** The characters of a formatted number *)

Section Characters.

Import PyFormat.

Variable c : N.

Lemma contains_rev (s : str) : contains c (rev s) = contains c s.
Proof.
  induction s as [|x s IH]; [reflexivity|].
  simpl. rewrite contains_app, IH. simpl.
  rewrite orb_false_r. apply orb_comm.
Qed.

Lemma contains_drop_while (p : N -> bool) (s : str) :
  contains c s = false -> contains c (drop_while p s) = false.
Proof.
  induction s as [|x s IH]; [reflexivity|].
  intros H. simpl. destruct (p x); [|exact H].
  simpl in H. apply orb_false_elim in H as [_ H]. now apply IH.
Qed.

Lemma contains_rstrip_chars (chars s : str) :
  contains c s = false -> contains c (rstrip_chars chars s) = false.
Proof.
  intros H. unfold rstrip_chars.
  rewrite contains_rev. apply contains_drop_while.
  now rewrite contains_rev.
Qed.

Lemma contains_firstn (n : nat) (s : str) :
  contains c s = false -> contains c (firstn n s) = false.
Proof.
  revert s. induction n as [|n IH]; intros [|x s] H; try reflexivity.
  simpl in *. apply orb_false_elim in H as [Hx H].
  now rewrite Hx, IH.
Qed.

Lemma contains_skipn (n : nat) (s : str) :
  contains c s = false -> contains c (skipn n s) = false.
Proof.
  revert s. induction n as [|n IH]; intros [|x s] H; try reflexivity;
    try exact H.
  simpl in *. apply orb_false_elim in H as [Hx H]. now apply IH.
Qed.

Lemma contains_repeat (x : N) (n : nat) :
  (c =? x)%N = false -> contains c (repeat x n) = false.
Proof.
  intros H. induction n as [|n IH]; [reflexivity|].
  simpl. now rewrite H, IH.
Qed.

(** From here on [c] is no digit, sign, point or exponent marker. *)
Hypothesis not_numeric :
  forallb (fun x => negb (c =? x)%N) (utf8 "0123456789-+.e") = true.

Lemma not_numeric_char (x : N) :
  contains x (utf8 "0123456789-+.e") = true -> (c =? x)%N = false.
Proof.
  intros H. unfold contains in H. apply existsb_exists in H as [y [Hy E]].
  apply N.eqb_eq in E. subst y.
  rewrite forallb_forall in not_numeric.
  apply negb_true_iff. now apply not_numeric.
Qed.

Lemma contains_uint_chars (u : Decimal.uint) :
  contains c (uint_chars u) = false.
Proof.
  induction u; simpl; rewrite ?IHu; try reflexivity;
    rewrite not_numeric_char by reflexivity; reflexivity.
Qed.

Lemma contains_digits (n : Z) : contains c (digits n) = false.
Proof. apply contains_uint_chars. Qed.

Lemma contains_str_of_int (n : Z) : contains c (str_of_int n) = false.
Proof.
  unfold str_of_int. destruct (n <? 0)%Z; [|apply contains_digits].
  rewrite contains_app, contains_digits, orb_false_r.
  cbn. now rewrite (not_numeric_char 45).
Qed.

Lemma contains_with_point (a b : str) :
  contains c a = false -> contains c b = false ->
  contains c (with_point a b) = false.
Proof.
  intros Ha Hb. unfold with_point.
  pose proof (contains_rstrip_chars (utf8 "0") b Hb) as Hs.
  fold (strip_zeros b) in Hs.
  destruct (strip_zeros b) as [|x f]; [exact Ha|].
  rewrite !contains_app, Ha, Hs, orb_false_r.
  cbn. now rewrite (not_numeric_char 46).
Qed.

Lemma contains_exponent_chars (X : Z) :
  contains c (exponent_chars X) = false.
Proof.
  unfold exponent_chars.
  rewrite !contains_app, contains_digits, orb_false_r.
  apply orb_false_intro.
  - destruct (X <? 0)%Z; cbn;
      [rewrite (not_numeric_char 45) | rewrite (not_numeric_char 43)];
      reflexivity.
  - destruct (Z.abs X <? 10)%Z; cbn; [|reflexivity].
    now rewrite (not_numeric_char 48).
Qed.

Lemma contains_general (D X : Z) : contains c (general D X) = false.
Proof.
  unfold general.
  destruct ((-4 <=? X)%Z && (X <? 10)%Z).
  - destruct (0 <=? X)%Z; apply contains_with_point.
    + apply contains_firstn, contains_digits.
    + apply contains_skipn, contains_digits.
    + cbn. now rewrite (not_numeric_char 48).
    + rewrite contains_app, contains_digits, orb_false_r.
      apply contains_repeat. now apply not_numeric_char.
  - rewrite !contains_app, contains_exponent_chars, orb_false_r.
    apply orb_false_intro.
    + apply contains_with_point.
      * apply contains_firstn, contains_digits.
      * apply contains_skipn, contains_digits.
    + cbn. now rewrite (not_numeric_char 101).
Qed.

End Characters.

(** ** The result formatter *)

Section FormatResult.

Import PyFloat PyFormat.
Local Open Scope float_scope.

Lemma format_result_not_finite (v : float) :
  is_nan v || is_infinity v = true ->
  format_result (VFloat v) = Ret (utf8 "Error").
Proof.
  intros H. unfold format_result, ne_self, eq_float.
  fold (is_nan v). destruct (is_nan v); [reflexivity|].
  simpl in H. destruct (infinite_facts v H) as (_ & _ & _ & _ & Hinf).
  now rewrite Hinf.
Qed.

Lemma format_result_finite (v : float) :
  is_nan v || is_infinity v = false ->
  exists n, trunc v = Some n
    /\ format_result (VFloat v)
       = Ret (if eq_int v n then str_of_int n else trim (format_10g v)).
Proof.
  intros H.
  assert (Hinf : (v =? infinity) || (v =? neg_infinity) = false).
  { apply orb_false_elim in H as [_ H]. apply orb_false_intro; by_cases v. }
  assert (Ht : exists n, trunc v = Some n).
  { unfold trunc. destruct (finite_cases v H) as [[s E]|(s & m & e & E)];
      rewrite E; eauto. }
  destruct Ht as [n Ht]. exists n. split; [exact Ht|].
  apply orb_false_elim in H as [Hnan _].
  unfold format_result, ne_self, eq_float, float_to_int.
  fold (is_nan v). rewrite Hnan, Hinf, Ht. cbn [bind].
  destruct (eq_int v n); reflexivity.
Qed.



End FormatResult.


(** ** Powers *)




(** ** The remainder *)

Section Mantissas.

Local Open Scope Z_scope.

Lemma digits2_size (p : positive) : digits2_pos p = Pos.size p.
Proof. induction p; simpl; congruence. Qed.

Lemma digits2_le (p q : positive) :
  (p <= q)%positive -> Z.pos (digits2_pos p) <= Z.pos (digits2_pos q).
Proof.
  intros H. rewrite (digits2_size p), (digits2_size q).
  pose proof (Pos.size_le p) as Hp. pose proof (Pos.size_gt q) as Hq.
  assert (Hlt : (2 ^ Pos.size p < 2 ^ Pos.succ (Pos.size q))%positive).
  { rewrite Pos.pow_succ_r. lia. }
  assert (Hz : Z.pos (2 ^ Pos.size p) < Z.pos (2 ^ Pos.succ (Pos.size q)))
    by lia.
  rewrite !Pos2Z.inj_pow in Hz.
  apply Z.pow_lt_mono_r_iff in Hz; lia.
Qed.

Lemma iter_xO_value (m d : positive) :
  Z.pos (Pos.iter xO m d) = Z.pos m * 2 ^ Z.pos d.
Proof.
  revert m. induction d using Pos.peano_ind; intros m.
  - simpl. lia.
  - rewrite Pos.iter_succ, Pos2Z.inj_xO, IHd, Pos2Z.inj_succ,
      Z.pow_succ_r by lia. lia.
Qed.

Lemma iter_xO_digits (m d : positive) :
  digits2_pos (Pos.iter xO m d) = (digits2_pos m + d)%positive.
Proof.
  revert m. induction d using Pos.peano_ind; intros m.
  - simpl. lia.
  - rewrite Pos.iter_succ. simpl. rewrite IHd. lia.
Qed.

Lemma shl_align_value (m : positive) (e e' : Z) :
  e' <= e -> Z.pos (fst (shl_align m e e')) = Z.pos m * 2 ^ (e - e').
Proof.
  intros H. unfold shl_align.
  destruct (e' - e) as [|d|d] eqn:E; try lia.
  - replace (e - e') with 0 by lia. cbn [fst]. lia.
  - cbn [fst]. rewrite iter_xO_value.
    replace (e - e') with (Z.pos d) by lia. reflexivity.
Qed.

Lemma shl_align_digits (m : positive) (e e' : Z) :
  e' <= e ->
  Z.pos (digits2_pos (fst (shl_align m e e')))
  = Z.pos (digits2_pos m) + (e - e').
Proof.
  intros H. unfold shl_align.
  destruct (e' - e) as [|d|d] eqn:E; try lia.
  - cbn [fst]. lia.
  - cbn [fst]. rewrite iter_xO_digits. lia.
Qed.

Lemma scaled_value (m : positive) (e e0 : Z) :
  e0 <= e -> PyFloat.scaled m e e0 = Z.pos m * 2 ^ (e - e0).
Proof.
  intros H. unfold PyFloat.scaled. apply Z.shiftl_mul_pow2. lia.
Qed.

Lemma bounded_facts (m : positive) (e : Z) :
  bounded prec emax m e = true ->
  -1074 <= e <= 971 /\ Z.pos (digits2_pos m) <= 53
  /\ Z.pos (digits2_pos m) + e <= 1024.
Proof.
  unfold bounded, canonical_mantissa, fexp, SpecFloat.emin, prec, emax.
  intros H. apply andb_prop in H as [Hc Hb].
  apply Z.eqb_eq in Hc. apply Z.leb_le in Hb. lia.
Qed.

(** The mantissa built for a remainder is that of a double. *)
Lemma remainder_bounded (r : positive) (e : Z) :
  -1074 <= e -> Z.pos (digits2_pos r) <= 53 ->
  Z.pos (digits2_pos r) + e <= 1024 ->
  let e' := fexp prec emax (Z.pos (digits2_pos r) + e) in
  e' <= e /\ bounded prec emax (fst (shl_align r e e')) e' = true.
Proof.
  intros He Hd Hmax e'.
  assert (Hle : e' <= e).
  { unfold e', fexp, SpecFloat.emin, prec, emax. lia. }
  split; [exact Hle|].
  unfold bounded, canonical_mantissa.
  rewrite shl_align_digits by exact Hle.
  replace (Z.pos (digits2_pos r) + (e - e') + e')
    with (Z.pos (digits2_pos r) + e) by lia.
  fold e'. rewrite Z.eqb_refl. simpl.
  apply Z.leb_le. unfold e', fexp, SpecFloat.emin, prec, emax. lia.
Qed.

End Mantissas.

Section Rounding.

Local Open Scope Z_scope.

Lemma iter_pos_invariant {A : Type} (P : A -> Prop) (f : A -> A) :
  (forall x, P x -> P (f x)) ->
  forall p x, P x -> P (iter_pos f p x).
Proof.
  intros Hf. induction p as [p IH|p IH|]; intros x Hx; simpl; auto.
Qed.

Lemma shr_1_nonneg (mrs : shr_record) :
  0 <= shr_m mrs -> 0 <= shr_m (shr_1 mrs).
Proof.
  destruct mrs as [m r s]. simpl.
  destruct m as [|[p|p|]|[p|p|]]; simpl; lia.
Qed.

Lemma shr_fexp_nonneg (m e : Z) (l : location) :
  0 <= m -> 0 <= shr_m (fst (shr_fexp prec emax m e l)).
Proof.
  intros Hm. unfold shr_fexp, shr.
  assert (H0 : 0 <= shr_m (shr_record_of_loc m l)).
  { destruct l as [|[| |]]; exact Hm. }
  destruct (fexp prec emax (Zdigits2 m + e) - e); try exact H0.
  cbn [fst]. now apply iter_pos_invariant; [apply shr_1_nonneg|].
Qed.

Lemma round_nearest_even_nonneg (m : Z) (l : location) :
  0 <= m -> 0 <= round_nearest_even m l.
Proof.
  intros Hm. destruct l as [|[| |]]; simpl; try lia.
  destruct (Z.even m); lia.
Qed.

(** Rounding keeps the sign and yields no NaN. *)
Lemma binary_round_aux_sign (sx : bool) (mx ex : Z) (lx : location) :
  0 <= mx ->
  binary_round_aux prec emax sx mx ex lx <> S754_nan
  /\ sign_bit (binary_round_aux prec emax sx mx ex lx) = sx.
Proof.
  intros Hm. unfold binary_round_aux.
  pose proof (shr_fexp_nonneg mx ex lx Hm) as H1.
  destruct (shr_fexp prec emax mx ex lx) as [mrs' e'].
  cbn [fst] in H1.
  pose proof (shr_fexp_nonneg _ e' loc_Exact
                (round_nearest_even_nonneg _ (loc_of_shr_record mrs') H1))
    as H2.
  destruct (shr_fexp prec emax _ e' loc_Exact) as [mrs'' e''].
  cbn [fst] in H2.
  destruct (shr_m mrs'') as [|m|m]; try lia.
  - split; [discriminate|reflexivity].
  - destruct (e'' <=? emax - prec); split; try discriminate; reflexivity.
Qed.

Lemma binary_normalize_sign (z e : Z) (s : bool) :
  z <> 0 ->
  binary_normalize prec emax z e s <> S754_nan
  /\ sign_bit (binary_normalize prec emax z e s) = (z <? 0).
Proof.
  intros Hz. destruct z as [|p|p]; [congruence| |];
    unfold binary_normalize, binary_round;
    destruct (shl_align p e _) as [mz ez];
    apply binary_round_aux_sign; lia.
Qed.

End Rounding.

Section Remainder.

Local Open Scope Z_scope.

(** What the finite case of [fmod_spec] knows about its remainder. *)
Lemma remainder_facts (mx my r : positive) (ex ey : Z) :
  bounded prec emax mx ex = true ->
  bounded prec emax my ey = true ->
  let e := Z.min ex ey in
  Z.rem (PyFloat.scaled mx ex e) (PyFloat.scaled my ey e) = Z.pos r ->
  -1074 <= e /\ Z.pos (digits2_pos r) <= 53
  /\ Z.pos (digits2_pos r) + e <= 1024
  /\ Z.pos r < Z.pos my * 2 ^ (ey - e).
Proof.
  intros Hx Hy e Hr.
  destruct (bounded_facts mx ex Hx) as (Hex & Hdx & Hmx).
  destruct (bounded_facts my ey Hy) as (Hey & Hdy & Hmy).
  assert (Ha : PyFloat.scaled mx ex e = Z.pos mx * 2 ^ (ex - e))
    by (apply scaled_value; unfold e; lia).
  assert (Hb : PyFloat.scaled my ey e = Z.pos my * 2 ^ (ey - e))
    by (apply scaled_value; unfold e; lia).
  assert (Hpa : 0 < 2 ^ (ex - e)) by (apply Z.pow_pos_nonneg; unfold e; lia).
  assert (Hpb : 0 < 2 ^ (ey - e)) by (apply Z.pow_pos_nonneg; unfold e; lia).
  pose proof (Z.rem_bound_pos (PyFloat.scaled mx ex e)
                (PyFloat.scaled my ey e)) as Hlt.
  pose proof (Z.rem_le (PyFloat.scaled mx ex e)
                (PyFloat.scaled my ey e)) as Hle.
  rewrite Hr, Ha, Hb in *.
  specialize (Hlt ltac:(nia) ltac:(nia)).
  specialize (Hle ltac:(nia) ltac:(nia)).
  split; [unfold e; lia|].
  assert (Hd : Z.pos (digits2_pos r) + e <= 1024
               /\ Z.pos (digits2_pos r) <= 53).
  { destruct (Z.le_ge_cases ex ey) as [Hc|Hc].
    - assert (He : e = ex) by (unfold e; lia).
      rewrite He in *. replace (ex - ex) with 0 in Hle by lia.
      assert (Hrm : (r <= mx)%positive) by lia.
      apply digits2_le in Hrm. lia.
    - assert (He : e = ey) by (unfold e; lia).
      rewrite He in *. replace (ey - ey) with 0 in Hlt by lia.
      assert (Hrm : (r <= my)%positive) by lia.
      apply digits2_le in Hrm. lia. }
  lia.
Qed.

Lemma fmod_spec_valid (x y : spec_float) :
  valid_binary x = true -> valid_binary y = true ->
  valid_binary (PyFloat.fmod_spec x y) = true.
Proof.
  intros Hx Hy.
  destruct x as [sx|sx| |sx mx ex], y as [sy|sy| |sy my ey];
    try reflexivity; try exact Hx.
  cbn [PyFloat.fmod_spec].
  destruct (Z.rem _ _) as [|r|r] eqn:E; try reflexivity.
  destruct (remainder_facts mx my r ex ey Hx Hy E) as (He & Hd & Hm & _).
  exact (proj2 (remainder_bounded r (Z.min ex ey) He Hd Hm)).
Qed.

Lemma fmod_prim (x y : float) :
  Prim2SF (PyFloat.fmod x y) = PyFloat.fmod_spec (Prim2SF x) (Prim2SF y).
Proof.
  apply Prim2SF_SF2Prim, fmod_spec_valid; apply Prim2SF_valid.
Qed.

Lemma get_sign_spec (x : float) : get_sign x = sign_bit (Prim2SF x).
Proof.
  unfold get_sign, PrimFloat.is_zero, PrimFloat.zero, PrimFloat.one.
  rewrite eqb_spec, Prim2SF_zero.
  destruct (Prim2SF x) as [s|s| |s m e] eqn:E; cbn.
  - rewrite ltb_spec, div_spec, Prim2SF_one, Prim2SF_zero, E.
    destruct s; reflexivity.
  - destruct s; cbn; rewrite ltb_spec, Prim2SF_zero, E; reflexivity.
  - rewrite ltb_spec, Prim2SF_zero, E. reflexivity.
  - destruct s; cbn; rewrite ltb_spec, Prim2SF_zero, E; reflexivity.
Qed.

Lemma is_nan_spec (x : float) :
  is_nan x = match Prim2SF x with S754_nan => true | _ => false end.
Proof.
  unfold is_nan. rewrite eqb_spec.
  destruct (Prim2SF x) as [s|[|]| |[|] m e]; cbn;
    rewrite ?Z.compare_refl, ?Pos.compare_cont_refl; reflexivity.
Qed.

Lemma copysign_zero_prim (y : float) :
  Prim2SF (PyFloat.copysign_zero y) = S754_zero (sign_bit (Prim2SF y)).
Proof.
  unfold PyFloat.copysign_zero. rewrite get_sign_spec.
  destruct (sign_bit (Prim2SF y)); reflexivity.
Qed.

Lemma float_mod_prim (x y : float) :
  Prim2SF (float_mod x y) = float_mod_spec (Prim2SF x) (Prim2SF y).
Proof.
  unfold float_mod, float_mod_spec.
  rewrite !eqb_spec, !ltb_spec, Prim2SF_zero, fmod_prim.
  destruct (negb (SFeqb _ _)); [|apply copysign_zero_prim].
  destruct (negb (Bool.eqb _ _)); [|apply fmod_prim].
  now rewrite add_spec, fmod_prim.
Qed.

End Remainder.

Section RemainderSign.

Local Open Scope Z_scope.

(** The sum of a remainder and a divisor of the other sign. *)
Lemma remainder_plus_divisor (sx sy : bool) (mx my r : positive)
  (ex ey : Z) :
  bounded prec emax mx ex = true ->
  bounded prec emax my ey = true ->
  let e := Z.min ex ey in
  Z.rem (PyFloat.scaled mx ex e) (PyFloat.scaled my ey e) = Z.pos r ->
  Bool.eqb sy sx = false ->
  let e' := fexp prec emax (Z.pos (digits2_pos r) + e) in
  let s := SFadd prec emax (S754_finite sx (fst (shl_align r e e')) e')
             (S754_finite sy my ey) in
  s <> S754_nan /\ sign_bit s = sy.
Proof.
  intros Hx Hy e Hr Hs e' s.
  destruct (remainder_facts mx my r ex ey Hx Hy Hr) as (He & Hd & Hm & Hlt).
  fold e in He, Hm, Hlt.
  destruct (remainder_bounded r e He Hd Hm) as [Hle _]. fold e' in Hle.
  assert (Hey : e <= ey) by (unfold e; lia).
  unfold s, SFadd.
  replace (Z.min e' ey) with e' by lia.
  set (A := Z.pos (fst (shl_align (fst (shl_align r e e')) e' e'))).
  set (B := Z.pos (fst (shl_align my ey e'))).
  assert (HA : A = Z.pos r * 2 ^ (e - e')).
  { unfold A. rewrite shl_align_value by lia.
    replace (e' - e') with 0 by lia.
    rewrite shl_align_value by lia. simpl (2 ^ 0). lia. }
  assert (HB : B = Z.pos my * 2 ^ (ey - e) * 2 ^ (e - e')).
  { unfold B. rewrite shl_align_value by lia.
    replace (ey - e') with ((ey - e) + (e - e')) by lia.
    rewrite Z.pow_add_r by lia. lia. }
  assert (Hp : 0 < 2 ^ (e - e')) by (apply Z.pow_pos_nonneg; lia).
  assert (HAB : A < B) by (rewrite HA, HB; nia).
  assert (H0 : 0 < A) by (unfold A; lia).
  assert (Hz : cond_Zopp sx A + cond_Zopp sy B <> 0
               /\ (cond_Zopp sx A + cond_Zopp sy B <? 0) = sy).
  { clearbody A B.
    destruct sx, sy; try discriminate Hs; unfold cond_Zopp; split; lia. }
  destruct Hz as [Hz Hsign].
  destruct (binary_normalize_sign _ e' false Hz) as [Hn Hsb].
  split; [exact Hn|]. now rewrite Hsb.
Qed.

Lemma float_mod_spec_sign (x y : spec_float) :
  valid_binary x = true -> valid_binary y = true ->
  SFeqb y (S754_zero false) = false ->
  (float_mod_spec x y <> S754_nan ->
   sign_bit (float_mod_spec x y) = sign_bit y)
  /\ (match x with S754_zero _ | S754_finite _ _ _ => True | _ => False end ->
      y <> S754_nan -> float_mod_spec x y <> S754_nan).
Proof.
  intros Hx Hy Hy0.
  destruct x as [sx|sx| |sx mx ex], y as [sy|sy| |sy my ey];
    try discriminate Hy0;
    try (split;
         [intros H;
          repeat match goal with s : bool |- _ => destruct s end;
          first [reflexivity | exfalso; apply H; reflexivity]
         |intros H H';
          first [now destruct H | now destruct H'
                | repeat match goal with s : bool |- _ => destruct s end;
                  discriminate]]).
  unfold float_mod_spec. cbn [PyFloat.fmod_spec].
  destruct (Z.rem _ _) as [|r|r] eqn:E.
  - split; [reflexivity|discriminate].
  - cbn [SFeqb SFcompare negb SFltb].
    replace (match (if sx then Lt else Gt) with Eq => true | _ => false end)
      with false by (now destruct sx).
    replace (match (if sy then Lt else Gt) with Lt => true | _ => false end)
      with sy by (now destruct sy).
    replace (match (if sx then Lt else Gt) with Lt => true | _ => false end)
      with sx by (now destruct sx).
    cbn [negb]. destruct (Bool.eqb sy sx) eqn:Es; cbn [negb].
    + apply Bool.eqb_prop in Es. subst sy.
      split; [reflexivity|discriminate].
    + destruct (remainder_plus_divisor sx sy mx my r ex ey Hx Hy E Es)
        as [Hn Hsb].
      split; [intros _; exact Hsb|intros _ _; exact Hn].
  - split; [reflexivity|discriminate].
Qed.

End RemainderSign.

(** C6 (as stated, refuted): ["-7%3"], parsed as [(-7) % 3], evaluates
    to [2.0], which is not zero and has the sign of the divisor, not of
    the dividend. *)
Lemma C6_sign_of_dividend_counterexample :
  let tree := BinOp (UnaryOp USub (Constant (CInt 7))) Mod
                (Constant (CInt 3)) in
  eval_node (UnaryOp USub (Constant (CInt 7))) = Ret (Some (VFloat (-7)))
  /\ eval_node tree = Ret (Some (VFloat 2))
  /\ run (example_host [(utf8 "-7%3", inr tree)]) (safe_eval (utf8 "-7%3"))
     = Returns (Some (VFloat 2), None)
  /\ get_sign (-7) = true
  /\ get_sign 2 = false
  /\ (2 =? 0)%float = false.
Proof. repeat split; reflexivity. Qed.

(** C6 (amended): when the operands of a [Mod] node evaluate to the
    doubles [l] and [r] and [r] is not zero, the node evaluates to
    Python's float remainder, whose sign bit is that of the divisor [r]
    (also when the remainder is zero) unless it is NaN; it is not NaN when
    [l] is finite and [r] is a number. *)
Theorem C6_modulo_sign (h : Host) (a b : expr) (l r : float) :
  run h (eval_node a) = Returns (Some (VFloat l)) ->
  run h (eval_node b) = Returns (Some (VFloat r)) ->
  (r =? 0)%float = false ->
  run h (eval_node (BinOp a Mod b)) = Returns (Some (VFloat (float_mod l r)))
  /\ (is_nan (float_mod l r) = false ->
      get_sign (float_mod l r) = get_sign r)
  /\ (is_nan l || is_infinity l = false -> is_nan r = false ->
      is_nan (float_mod l r) = false).
Proof.
  intros Ha Hb Hr.
  split.
  { cbn [eval_node existsb ALLOWED_BINOPS operator_eqb orb negb].
    rewrite run_bind, Ha, run_bind, Hb.
    cbn [is_zero py_mod]. unfold float_rem. now rewrite Hr. }
  assert (Hr0 : SFeqb (Prim2SF r) (S754_zero false) = false)
    by now rewrite <- Prim2SF_zero, <- eqb_spec.
  destruct (float_mod_spec_sign (Prim2SF l) (Prim2SF r)
              (Prim2SF_valid l) (Prim2SF_valid r) Hr0) as [Hsign Hnan].
  rewrite <- float_mod_prim in Hsign, Hnan.
  split.
  - rewrite !get_sign_spec, is_nan_spec.
    intros H. apply Hsign. intros E. rewrite E in H. discriminate.
  - intros Hl Hrn. rewrite is_nan_spec in Hrn. rewrite is_nan_spec.
    assert (Hm : Prim2SF (float_mod l r) <> S754_nan).
    { apply Hnan.
      - destruct (finite_cases l Hl) as [[s E]|(s & m & e & E)];
          rewrite E; exact I.
      - intros E. rewrite E in Hrn. discriminate. }
    destruct (Prim2SF (float_mod l r)); congruence.
Qed.

Lemma C6_modulo_sign_witness :
  let h := example_host [] in
  let a := BinOp (Constant (CInt 1)) Sub (Constant (CFloat 8.5)) in
  let b := Constant (CInt 2) in
  run h (eval_node (BinOp a Mod b))
  = Returns (Some (VFloat (float_mod (-7.5) 2)))
  /\ (is_nan (float_mod (-7.5) 2) = false ->
      get_sign (float_mod (-7.5) 2) = get_sign 2)
  /\ (is_nan (-7.5) || is_infinity (-7.5) = false -> is_nan 2 = false ->
      is_nan (float_mod (-7.5) 2) = false).
Proof.
  intros h a b.
  apply (C6_modulo_sign h a b (-7.5) 2); reflexivity.
Defined.

(** ** The concrete cases of the specification (section 8) *)

Section Cases.

Local Open Scope float_scope.

Let two_plus_two := BinOp (Constant (CInt 2)) Add (Constant (CInt 2)).
Let ten_by_four := BinOp (Constant (CInt 10)) Div (Constant (CInt 4)).
Let five_mod_zero := BinOp (Constant (CInt 5)) Mod (Constant (CInt 0)).

Example case_two_plus_two :
  run (example_host [(utf8 "2+2", inr two_plus_two)]) (safe_eval (utf8 "2+2"))
  = Returns (Some (VFloat 4), None)
  /\ format_result (VFloat 4) = Ret (utf8 "4").
Proof. split; vm_compute; reflexivity. Qed.

Example case_ten_by_four :
  run (example_host [(utf8 "10/4", inr ten_by_four)]) (safe_eval (utf8 "10/4"))
  = Returns (Some (VFloat 2.5), None)
  /\ format_result (VFloat 2.5) = Ret (utf8 "2.5").
Proof. split; vm_compute; reflexivity. Qed.

Example case_five_mod_zero :
  run (example_host [(utf8 "5%0", inr five_mod_zero)]) (safe_eval (utf8 "5%0"))
  = Returns (None, Some (utf8 "Modulo by zero")).
Proof. vm_compute. reflexivity. Qed.

(** A source the parser rejects. *)
Example case_unbalanced :
  run (example_host
         [(utf8 "(2+3", inl (Exn SyntaxError (utf8 "'(' was never closed")))])
    (safe_eval (utf8 "(2+3"))
  = Returns (None, Some (utf8 "Invalid expression: '(' was never closed")).
Proof. vm_compute. reflexivity. Qed.

(** A blank source is answered before the parser is called. *)
Example case_empty :
  safe_eval (utf8 "  ") = Ret (None, Some (utf8 "Empty expression")).
Proof. vm_compute. reflexivity. Qed.

(** The square root of seven, shown with ten significant digits. *)
Example case_root_of_seven :
  format_result (VFloat (sqrt 7)) = Ret (utf8 "2.645751311").
Proof. vm_compute. reflexivity. Qed.

(** A double that is no whole number and whose ten digits are: the
    zeros of the integer part are stripped with the others. *)
Example case_trailing_zeros :
  format_result (VFloat 1234567890.5) = Ret (utf8 "123456789").
Proof. vm_compute. reflexivity. Qed.

End Cases.

(** * Further properties *)

(** ** White space and the empty expression *)

Section Blank.

Lemma drop_while_nil (p : N -> bool) (s : str) :
  is_empty (drop_while p s) = forallb p s.
Proof.
  induction s as [|c t IH]; simpl; [reflexivity|].
  destruct (p c); [exact IH | reflexivity].
Qed.

Lemma drop_while_app_all (p : N -> bool) (a s : str) :
  forallb p a = true -> drop_while p (a ++ s) = drop_while p s.
Proof.
  induction a as [|c t IH]; simpl; [reflexivity|].
  intros H. apply andb_prop in H as [Hc Ht]. rewrite Hc. auto.
Qed.

Lemma drop_while_app_keep (p : N -> bool) (s s' : str) :
  forallb p s = false -> drop_while p (s ++ s') = drop_while p s ++ s'.
Proof.
  induction s as [|c t IH]; simpl; [discriminate|].
  destruct (p c); simpl; auto.
Qed.

Lemma forallb_rev (p : N -> bool) (s : str) :
  forallb p (rev s) = forallb p s.
Proof.
  induction s as [|c t IH]; simpl; [reflexivity|].
  rewrite forallb_app, IH. simpl. rewrite andb_true_r. apply andb_comm.
Qed.

Lemma drop_while_keeps (p : N -> bool) (s : str) :
  forallb p s = false -> forallb p (drop_while p s) = false.
Proof.
  induction s as [|c t IH]; simpl; [discriminate|].
  destruct (p c) eqn:Hc; simpl; [exact IH|].
  now rewrite Hc.
Qed.

(** [s.strip()] is empty exactly when [s] is white space. *)
Lemma strip_nil (s : str) : is_empty (strip s) = forallb is_space s.
Proof.
  unfold strip.
  destruct (forallb is_space s) eqn:H.
  - pose proof (drop_while_nil is_space s) as E. rewrite H in E.
    destruct (drop_while is_space s); [reflexivity | discriminate E].
  - apply drop_while_keeps in H.
    rewrite <- forallb_rev in H.
    pose proof (drop_while_nil is_space (rev (drop_while is_space s))) as E.
    rewrite H in E.
    destruct (drop_while is_space (rev (drop_while is_space s)));
      [discriminate E|].
    simpl. now destruct (rev l ++ [n]) eqn:E'; [destruct (rev l)|].
Qed.

(** White space around a text is stripped with it. *)
Lemma strip_app (a s b : str) :
  forallb is_space a = true -> forallb is_space b = true ->
  strip (a ++ s ++ b) = strip s.
Proof.
  intros Ha Hb. unfold strip.
  rewrite (drop_while_app_all _ _ _ Ha).
  destruct (forallb is_space s) eqn:Hs.
  - rewrite (drop_while_app_all _ _ _ Hs).
    pose proof (drop_while_nil is_space b) as Eb. rewrite Hb in Eb.
    pose proof (drop_while_nil is_space s) as Es. rewrite Hs in Es.
    destruct (drop_while is_space b); [|discriminate Eb].
    destruct (drop_while is_space s); [reflexivity | discriminate Es].
  - rewrite (drop_while_app_keep _ _ _ Hs).
    rewrite rev_app_distr.
    rewrite drop_while_app_all; [reflexivity|].
    now rewrite forallb_rev.
Qed.

Lemma replace_single_nil (c : char) (new s : str) :
  new <> [] -> is_empty (replace [c] new s) = is_empty s.
Proof.
  intros Hn. destruct s as [|x t]; [reflexivity|].
  rewrite replace_single_cons.
  destruct (x =? c)%N; [|reflexivity].
  destruct new; [contradiction | reflexivity].
Qed.

Lemma preprocess_nil (s : str) :
  is_empty (preprocess s) = forallb is_space s.
Proof.
  unfold preprocess.
  change (utf8 "^") with [94%N].
  rewrite replace_single_nil; [apply strip_nil | discriminate].
Qed.

End Blank.

(** X1: [safe_eval] answers "Empty expression" without calling the
    parser exactly when its argument is empty or white space only. *)
Theorem safe_eval_blank (s : str) :
  safe_eval s = Ret (None, Some (utf8 "Empty expression"))
  <-> forallb is_space s = true.
Proof.
  unfold safe_eval. cbv zeta. rewrite <- preprocess_nil.
  destruct (is_empty (preprocess s)); split; intros H;
    try reflexivity; discriminate H.
Qed.

(** X2: white space before and after an expression does not change what
    [safe_eval] does with it. *)
Theorem safe_eval_strips (a s b : str) :
  forallb is_space a = true -> forallb is_space b = true ->
  safe_eval (a ++ s ++ b) = safe_eval s.
Proof.
  intros Ha Hb. unfold safe_eval, preprocess.
  now rewrite (strip_app a s b Ha Hb).
Qed.

Lemma safe_eval_strips_witness :
  forallb is_space (utf8 "  ") = true
  /\ forallb is_space [9%N; 10%N] = true
  /\ safe_eval (utf8 "  " ++ utf8 "2 ^ 3" ++ [9%N; 10%N])
     = safe_eval (utf8 "2 ^ 3").
Proof.
  split; [reflexivity|]. split; [reflexivity|].
  apply (safe_eval_strips (utf8 "  ") (utf8 "2 ^ 3") [9%N; 10%N]);
    reflexivity.
Defined.

(** ** What [safe_eval] returns and what it lets out *)

Lemma run_safe_eval (h : Host) (s : str) :
  run h (safe_eval s)
  = if is_empty (preprocess s)
    then Returns (None, Some (utf8 "Empty expression"))
    else
      match ast_parse h (preprocess s) with
      | inl e =>
          if exn_class_eqb (exn_cls e) SyntaxError
          then Returns (None, Some (utf8 "Invalid expression: " ++ exn_msg e))
          else Raises e
      | inr body => run h (safe_eval_tree body)
      end.
Proof.
  unfold safe_eval. cbv zeta.
  destruct (is_empty (preprocess s)); [reflexivity|].
  simpl. destruct (ast_parse h (preprocess s)) as [e|body]; [|reflexivity].
  destruct (exn_class_eqb (exn_cls e) SyntaxError); reflexivity.
Qed.

(** X3: of the pair [(result, error)] that [safe_eval] returns, exactly
    one component is not [None]. *)
Theorem safe_eval_result_or_error (h : Host) (s : str)
  (res : option value) (err : option str) :
  run h (safe_eval s) = Returns (res, err) ->
  (exists v, res = Some v /\ err = None)
  \/ (exists msg, res = None /\ err = Some msg).
Proof.
  rewrite run_safe_eval.
  destruct (is_empty (preprocess s)).
  { intros H. injection H as <- <-. right. eauto. }
  destruct (ast_parse h (preprocess s)) as [e|body].
  { destruct (exn_class_eqb (exn_cls e) SyntaxError); [|discriminate].
    intros H. injection H as <- <-. right. eauto. }
  rewrite run_safe_eval_tree.
  destruct (run h (eval_node body)) as [[v|]|e].
  - intros H. injection H as <- <-. left. eauto.
  - intros H. injection H as <- <-. right. eauto.
  - destruct (exn_cls e); try discriminate;
      intros H; injection H as <- <-; right; eauto.
Qed.

Lemma safe_eval_result_or_error_witness :
  let tree := BinOp (Constant (CInt 2)) Add (Constant (CInt 2)) in
  let h := example_host [(utf8 "2+2", inr tree)] in
  run h (safe_eval (utf8 "2+2")) = Returns (Some (VFloat 4), None)
  /\ ((exists v, Some (VFloat 4) = Some v /\ @None str = None)
      \/ (exists msg, Some (VFloat 4) = None /\ @None str = Some msg)).
Proof.
  cbv zeta. split; [reflexivity|].
  apply (safe_eval_result_or_error
           (example_host
              [(utf8 "2+2",
                inr (BinOp (Constant (CInt 2)) Add (Constant (CInt 2))))])
           (utf8 "2+2")).
  reflexivity.
Defined.

(** X4: the exceptions that leave [safe_eval] are the parser's that are
    no [SyntaxError], and the evaluation's that are none of
    [ZeroDivisionError], [ValueError], [TypeError]. *)
Theorem safe_eval_escapes (h : Host) (s : str) (e : exn) :
  run h (safe_eval s) = Raises e
  <-> is_empty (preprocess s) = false
      /\ ((ast_parse h (preprocess s) = inl e
           /\ exn_class_eqb (exn_cls e) SyntaxError = false)
          \/ (exists body,
                ast_parse h (preprocess s) = inr body
                /\ run h (eval_node body) = Raises e
                /\ existsb (exn_class_eqb (exn_cls e))
                     [ZeroDivisionError; ValueError; TypeError] = false)).
Proof.
  rewrite run_safe_eval.
  destruct (is_empty (preprocess s)).
  { split; [discriminate | intros [H _]; discriminate H]. }
  destruct (ast_parse h (preprocess s)) as [e'|body].
  - destruct (exn_class_eqb (exn_cls e') SyntaxError) eqn:Hc; split.
    + discriminate.
    + intros [_ [[H1 H2]|[body [H1 _]]]]; [|discriminate H1].
      injection H1 as ->. rewrite Hc in H2. discriminate H2.
    + intros H. injection H as ->. split; [reflexivity|]. left. auto.
    + intros [_ [[H1 H2]|[body [H1 _]]]]; [|discriminate H1].
      now injection H1 as ->.
  - rewrite run_safe_eval_tree. split.
    + intros H. split; [reflexivity|]. right. exists body.
      split; [reflexivity|].
      destruct (run h (eval_node body)) as [[v|]|e']; try discriminate H.
      destruct e' as [c msg]; destruct c; simpl in *;
        try discriminate H; injection H as <-; auto.
    + intros [_ [[H1 _]|[body' [H1 [H2 H3]]]]]; [discriminate H1|].
      injection H1 as <-. rewrite H2.
      destruct e as [c msg]; destruct c; simpl in *;
        try discriminate H3; reflexivity.
Qed.

(** X5: a source whose tree holds a construct that [eval_node] does not
    evaluate yields an error message or an exception, never a value. *)
Theorem safe_eval_rejects_unsupported (h : Host) (src : str) (body : expr) :
  is_empty (preprocess src) = false ->
  ast_parse h (preprocess src) = inr body ->
  unsupported body = true ->
  (exists msg, run h (safe_eval src) = Returns (None, Some msg))
  \/ (exists e, run h (safe_eval src) = Raises e).
Proof.
  intros Hne Hp Hu.
  rewrite (run_safe_eval_parsed h src body Hne Hp), run_safe_eval_tree.
  pose proof (eval_node_unsupported h body Hu) as H.
  destruct (run h (eval_node body)) as [[w|]|[c msg]].
  - now destruct (H w).
  - left. eauto.
  - destruct c; simpl; eauto.
Qed.

Lemma safe_eval_rejects_unsupported_witness :
  let tree := BinOp (Constant (CInt 7)) FloorDiv (Constant (CInt 2)) in
  let h := example_host [(utf8 "7//2", inr tree)] in
  unsupported tree = true
  /\ ((exists msg, run h (safe_eval (utf8 "7//2")) = Returns (None, Some msg))
      \/ (exists e, run h (safe_eval (utf8 "7//2")) = Raises e)).
Proof.
  cbv zeta. split; [reflexivity|].
  apply (safe_eval_rejects_unsupported
           (example_host
              [(utf8 "7//2",
                inr (BinOp (Constant (CInt 7)) FloorDiv (Constant (CInt 2))))])
           (utf8 "7//2")
           (BinOp (Constant (CInt 7)) FloorDiv (Constant (CInt 2))));
    reflexivity.
Defined.

(** ** Signs *)

Section Signs.

Local Open Scope float_scope.



End Signs.


(** ** Powers computed by the C library *)

Section LibmPower.

Local Open Scope float_scope.

Lemma pos_not_neg (r : float) : (0 <? r) = true -> (r <? 0) = false.
Proof. intros H. by_cases r. Qed.

End LibmPower.

(** X7: a power of a finite base above zero other than one, to a finite
    exponent other than zero, is what the C library's [pow] answers; when
    that reports a range error, the [OverflowError] leaves [safe_eval]'s
    [try] uncaught. *)
Theorem power_by_libm (h : Host) (a b : expr) (l r : float) :
  run h (eval_node a) = Returns (Some (VFloat l)) ->
  run h (eval_node b) = Returns (Some (VFloat r)) ->
  (0 <? l)%float = true -> (l =? 1)%float = false ->
  is_infinity l = false ->
  (r =? 0)%float = false -> is_nan r || is_infinity r = false ->
  run h (safe_eval_tree (BinOp a Pow b))
  = match libm_pow h l r with
    | Some x => Returns (Some (VFloat x), None)
    | None =>
        Raises (Exn OverflowError
                  (utf8 "(34, 'Numerical result out of range')"))
    end.
Proof.
  intros Ha Hb Hl Hl1 Hli Hr0 Hr.
  apply orb_false_elim in Hr as [Hrn Hri].
  destruct (pos_not_zero l Hl) as [Hl0 Hln].
  pose proof (pos_not_neg l Hl) as Hlneg.
  rewrite run_safe_eval_tree.
  cbn [eval_node existsb ALLOWED_BINOPS operator_eqb orb negb].
  rewrite run_bind, Ha, run_bind, Hb. cbn [py_pow].
  rewrite run_bind. unfold float_pow.
  rewrite Hr0, Hln, Hrn, Hri, Hli, Hl0, Hlneg. cbn [andb].
  rewrite Hl1. cbn [run].
  destruct (libm_pow h l r); reflexivity.
Qed.

Lemma power_by_libm_witness :
  let h := example_host [] in
  run h (safe_eval_tree (BinOp (Constant (CInt 10)) Pow (Constant (CInt 400))))
  = Raises (Exn OverflowError (utf8 "(34, 'Numerical result out of range')")).
Proof.
  cbv zeta.
  apply (power_by_libm (example_host []) (Constant (CInt 10))
           (Constant (CInt 400)) 10%float 400%float); reflexivity.
Defined.

(** ** The text of a formatted number *)

Section FormattedText.

Import PyFloat PyFormat.
Local Open Scope float_scope.

Lemma outside_numeric (c : N) :
  contains c numeric_chars = false ->
  forallb (fun x => negb (c =? x)%N) (utf8 "0123456789-+.e") = true.
Proof.
  unfold numeric_chars, contains.
  induction (utf8 "0123456789-+.e") as [|x t IH]; [reflexivity|].
  simpl. intros H. apply orb_false_elim in H as [Hx Ht].
  now rewrite Hx, IH.
Qed.

Lemma made_of (set s : str) :
  (forall c, contains c set = false -> contains c s = false) ->
  forallb (fun x => contains x set) s = true.
Proof.
  induction s as [|x t IH]; [reflexivity|].
  intros H. simpl. apply andb_true_intro. split.
  - destruct (contains x set) eqn:E; [reflexivity|].
    specialize (H x E). simpl in H. now rewrite N.eqb_refl in H.
  - apply IH. intros c Hc. specialize (H c Hc). simpl in H.
    now apply orb_false_elim in H as [_ H].
Qed.

Lemma format_10g_chars (c : N) (v : float) :
  contains c numeric_chars = false ->
  is_nan v || is_infinity v = false ->
  contains c (format_10g v) = false.
Proof.
  intros Hc Hv. pose proof (outside_numeric c Hc) as Hn.
  unfold format_10g.
  destruct (finite_cases v Hv) as [[s E]|(s & m & e & E)]; rewrite E.
  - destruct s; cbn;
      rewrite ?(not_numeric_char c Hn 45), ?(not_numeric_char c Hn 48);
      reflexivity.
  - destruct (if (0 <=? e)%Z then ten_digits (Z.pos m * 2 ^ e) 1
              else ten_digits (Z.pos m) (2 ^ (- e))) as [D X].
    rewrite contains_app, (contains_general c Hn).
    destruct s; cbn; rewrite ?(not_numeric_char c Hn 45); reflexivity.
Qed.

Lemma trim_chars (c : N) (s : str) :
  contains c numeric_chars = false ->
  contains c s = false -> contains c (trim s) = false.
Proof.
  intros Hc H. pose proof (outside_numeric c Hc) as Hn.
  unfold trim. destruct (contains 101 (lower s)); [exact H|].
  pose proof (contains_rstrip_chars c (utf8 ".") _
                (contains_rstrip_chars c (utf8 "0") s H)) as Hs.
  destruct (rstrip_chars (utf8 ".") (rstrip_chars (utf8 "0") s));
    [|exact Hs].
  cbn. now rewrite (not_numeric_char c Hn 48).
Qed.

Lemma uint_chars_nil (u : Decimal.uint) :
  uint_chars u = [] -> u = Decimal.Nil.
Proof. destruct u; simpl; intros H; [reflexivity | discriminate H ..]. Qed.

Lemma digits_not_empty (n : Z) : is_empty (digits n) = false.
Proof.
  unfold digits.
  destruct (uint_chars (N.to_uint (Z.to_N n))) eqn:E; [|reflexivity].
  apply uint_chars_nil in E.
  destruct (Z.to_N n) as [|p]; [discriminate E|].
  now destruct (Unsigned.to_uint_nonnil p).
Qed.

Lemma str_of_int_not_empty (n : Z) : is_empty (str_of_int n) = false.
Proof.
  unfold str_of_int. destruct (n <? 0)%Z; [reflexivity|].
  apply digits_not_empty.
Qed.

Lemma trim_not_empty (s : str) : is_empty (trim s) = false.
Proof.
  unfold trim. destruct (contains 101 (lower s)) eqn:E.
  - destruct s; [discriminate E | reflexivity].
  - now destruct (rstrip_chars (utf8 ".") (rstrip_chars (utf8 "0") s)).
Qed.

End FormattedText.

(** X8: [format_result] returns for every double, never an empty text:
    it is ["Error"] or made of the characters [0123456789-+.e] only. *)
Theorem format_result_text (v : float) :
  exists s,
    format_result (VFloat v) = Ret s
    /\ is_empty s = false
    /\ (s = utf8 "Error"
        \/ forallb (fun x => contains x numeric_chars) s = true).
Proof.
  destruct (is_nan v || is_infinity v) eqn:E.
  - exists (utf8 "Error"). rewrite (format_result_not_finite v E). auto.
  - destruct (format_result_finite v E) as (n & _ & Hf).
    rewrite Hf. eexists. split; [reflexivity|]. split.
    + destruct (PyFloat.eq_int v n);
        [apply str_of_int_not_empty | apply trim_not_empty].
    + right. apply made_of. intros c Hc.
      destruct (PyFloat.eq_int v n).
      * apply contains_str_of_int. now apply outside_numeric.
      * apply trim_chars; [exact Hc|]. now apply format_10g_chars.
Qed.

(** ** The display notation *)

Section Display.

Lemma display_expr_other (c : char) (s : str) :
  c <> 42%N ->
  display_expr (c :: s)
  = (if (c =? 47)%N then [247%N] else [c]) ++ display_expr s.
Proof.
  intros Hc. rewrite !display_expr_eq.
  rewrite (replace_power_other c s Hc), replace_single_cons.
  apply N.eqb_neq in Hc. rewrite Hc. cbn [app].
  now rewrite replace_single_cons.
Qed.

Lemma display_expr_pair (s : str) :
  display_expr (42 :: 42 :: s)%N = 94%N :: display_expr s.
Proof.
  rewrite !display_expr_eq, replace_power_pair.
  rewrite replace_single_cons. cbn [N.eqb Pos.eqb app].
  now rewrite replace_single_cons.
Qed.

Lemma display_expr_single (s : str) :
  starts_with [42%N] s = false ->
  display_expr (42%N :: s) = 215%N :: display_expr s.
Proof.
  intros Hs. rewrite !display_expr_eq, (replace_power_single s Hs).
  rewrite replace_single_cons. cbn [N.eqb Pos.eqb app].
  now rewrite replace_single_cons.
Qed.

(** The three ways a text can begin, for [display_expr]. *)
Lemma display_expr_cases (P : str -> Prop) :
  P [] ->
  (forall c s, c <> 42%N -> P s -> P (c :: s)) ->
  (forall s, P s -> P (42 :: 42 :: s)%N) ->
  (forall s, starts_with [42%N] s = false -> P s -> P (42%N :: s)) ->
  forall s, P s.
Proof.
  intros Hnil Hother Hpair Hsingle s.
  assert (H : forall n s, List.length s <= n -> P s).
  { clear s. induction n as [|n IH]; intros [|c s] Hlen;
      try exact Hnil; simpl in Hlen; [lia|].
    destruct (N.eq_dec c 42) as [->|Hc].
    - destruct s as [|d s].
      + apply Hsingle; [reflexivity | exact Hnil].
      + destruct (N.eq_dec d 42) as [->|Hd].
        * apply Hpair, IH. simpl in Hlen. lia.
        * apply Hsingle; [|apply IH; lia].
          cbn [starts_with]. apply N.eqb_neq in Hd.
          rewrite N.eqb_sym in Hd. now rewrite Hd.
    - apply Hother; [exact Hc | apply IH; lia]. }
  apply (H (List.length s)). lia.
Qed.

Lemma single_no_char (c : char) (new s : str) :
  contains c s = false -> replace [c] new s = s.
Proof.
  induction s as [|x t IH]; [reflexivity|].
  intros H. simpl in H. apply orb_false_elim in H as [Hx Ht].
  rewrite replace_single_cons, N.eqb_sym, Hx. cbn [app].
  now rewrite IH.
Qed.

Lemma power_no_star (s : str) :
  contains 42 s = false -> replace power [94%N] s = s.
Proof.
  induction s as [|x t IH]; [reflexivity|].
  intros H. simpl in H. apply orb_false_elim in H as [Hx Ht].
  rewrite replace_power_other; [now rewrite IH|].
  intros ->. discriminate Hx.
Qed.

End Display.

(** X9: [internal_expr] undoes [display_expr] on every text without
    the glyphs [×], [÷] and [^]: what the display shows determines the
    expression it was made from. *)
Theorem internal_of_display (s : str) :
  forallb (fun c => negb (glyph c)) s = true ->
  internal_expr (display_expr s) = s.
Proof.
  pattern s. apply display_expr_cases; clear s.
  - reflexivity.
  - intros c s Hc IH H. simpl in H. apply andb_prop in H as [Hg H].
    rewrite (display_expr_other c s Hc).
    unfold glyph in Hg. apply negb_true_iff in Hg.
    apply orb_false_elim in Hg as [Hg H94].
    apply orb_false_elim in Hg as [H215 H247].
    destruct (c =? 47)%N eqn:E.
    + apply N.eqb_eq in E. subst c. cbn [app].
      rewrite internal_expr_cons. cbn [N.eqb Pos.eqb app].
      now rewrite IH.
    + cbn [app]. rewrite internal_expr_cons, H215, H247, H94. cbn [app].
      now rewrite IH.
  - intros s IH H. simpl in H.
    rewrite display_expr_pair, internal_expr_cons.
    cbn [N.eqb Pos.eqb app power]. now rewrite IH.
  - intros s Hs IH H. simpl in H.
    rewrite (display_expr_single s Hs), internal_expr_cons.
    cbn [N.eqb Pos.eqb app]. now rewrite IH.
Qed.

Lemma internal_of_display_witness :
  internal_expr (display_expr (utf8 "2**3*4/(5***6)")) = utf8 "2**3*4/(5***6)".
Proof.
  apply (internal_of_display (utf8 "2**3*4/(5***6)")). reflexivity.
Defined.

(** X10: [display_expr] leaves no [*] and no [/] in a text, so applying
    it again changes nothing. *)
Theorem display_expr_idempotent (s : str) :
  forallb (fun c => negb ((c =? 42) || (c =? 47))%N) (display_expr s) = true
  /\ display_expr (display_expr s) = display_expr s.
Proof.
  assert (H : forallb (fun c => negb ((c =? 42) || (c =? 47))%N)
                (display_expr s) = true).
  { pattern s. apply display_expr_cases; clear s.
    - reflexivity.
    - intros c s Hc IH. rewrite (display_expr_other c s Hc).
      destruct (c =? 47)%N eqn:E; cbn [app forallb]; rewrite IH.
      + reflexivity.
      + apply N.eqb_neq in Hc. now rewrite Hc, E.
    - intros s IH. rewrite display_expr_pair. cbn [forallb].
      now rewrite IH.
    - intros s Hs IH. rewrite (display_expr_single s Hs). cbn [forallb].
      now rewrite IH. }
  split; [exact H|].
  assert (H42 : contains 42 (display_expr s) = false
                /\ contains 47 (display_expr s) = false).
  { induction (display_expr s) as [|x t IH]; [split; reflexivity|].
    simpl in H. apply andb_prop in H as [Hx Ht].
    destruct (IH Ht) as [IH1 IH2].
    apply negb_true_iff, orb_false_elim in Hx as [H1 H2].
    rewrite N.eqb_sym in H1. rewrite N.eqb_sym in H2.
    split.
    - change (((42 =? x)%N || contains 42 t) = false). now rewrite H1, IH1.
    - change (((47 =? x)%N || contains 47 t) = false). now rewrite H2, IH2. }
  destruct H42 as [H42 H47].
  rewrite (display_expr_eq (display_expr s)).
  rewrite (power_no_star _ H42), (single_no_char _ _ _ H42).
  apply (single_no_char _ _ _ H47).
Qed.

(** ** The keypad and the keyboard *)

Section Keys.

Lemma eqb_eq (a b : str) : PyStr.eqb a b = true -> a = b.
Proof.
  revert b. induction a as [|x a IH]; intros [|y b] H;
    try reflexivity; try discriminate H.
  simpl in H. apply andb_prop in H as [Hx H].
  apply N.eqb_eq in Hx. subst y. now rewrite (IH b H).
Qed.

Lemma display_char_cases (c : char) :
  display_char c = true ->
  In c [48; 49; 50; 51; 52; 53; 54; 55; 56; 57; 46; 43; 45; 215; 247; 94;
        40; 41]%N.
Proof.
  unfold display_char, contains. rewrite existsb_exists.
  intros [x [Hin Hx]]. apply N.eqb_eq in Hx. subst x. exact Hin.
Qed.

Lemma internal_expr_app (a b : str) :
  internal_expr (a ++ b) = internal_expr a ++ internal_expr b.
Proof.
  induction a as [|c a IH]; [reflexivity|].
  cbn [app]. rewrite !internal_expr_cons, IH. apply app_assoc.
Qed.

(** A keypad button that stands for a character appends it. *)
Lemma on_button_char (lib : Library) (c : char) (self : CalculatorApp) :
  display_char c = true ->
  _on_button lib [c] self = Ret (_refresh_display (_append self [c])).
Proof.
  intros H. apply display_char_cases in H.
  repeat (destruct H as [<-|H]; [reflexivity|]).
  destruct H.
Qed.

Lemma append_append (self : CalculatorApp) (a b : str) :
  _refresh_display (_append (_refresh_display (_append self a)) b)
  = _refresh_display (_append self (a ++ b)).
Proof.
  unfold _refresh_display, _append, set_sub_display_text, set_expression.
  cbn [expression last_ans history_list sub_display_text main_display
       sub_display history_label].
  now rewrite internal_expr_app, app_assoc.
Qed.

End Keys.

(** X11: pressing the buttons of a text of keypad characters one after
    the other does what appending the whole text at once does: the
    expression grows by the translation of the text, the status line is
    cleared and the display shows the new expression. *)
Theorem press_keys (lib : Library) (s : str) (self : CalculatorApp) :
  display_string s = true ->
  press lib (keys_of s) self
  = Ret match s with
        | [] => self
        | _ :: _ => _refresh_display (_append self s)
        end.
Proof.
  revert self. induction s as [|c t IH]; intros self H; [reflexivity|].
  cbn [display_string forallb] in H. apply andb_prop in H as [Hc Ht].
  cbn [keys_of map press].
  rewrite (on_button_char lib c self Hc). cbn [bind].
  fold (keys_of t). rewrite (IH _ Ht).
  destruct t as [|d t]; [reflexivity|].
  now rewrite (append_append self [c] (d :: t)).
Qed.

Lemma press_keys_witness :
  press Example.library (keys_of (utf8 "2×3^2")) initial
  = Ret (_refresh_display (_append initial (utf8 "2×3^2"))).
Proof.
  apply (press_keys Example.library (utf8 "2×3^2") initial). reflexivity.
Defined.

(** X12: a backspace after a key takes the key back, except after [^],
    whose [**] it cuts to a single [*]. *)
Theorem backspace_after_key (self : CalculatorApp) (c : char) :
  expression (_backspace (_append self [c]))
  = expression self ++ (if (c =? 94)%N then [42%N] else []).
Proof.
  unfold _backspace, _append, set_sub_display_text, set_expression.
  cbn [expression]. rewrite internal_expr_cons.
  change (internal_expr []) with (@nil N). rewrite app_nil_r.
  destruct (c =? 215)%N eqn:E1.
  { apply N.eqb_eq in E1. subst c. cbn [N.eqb Pos.eqb].
    now rewrite removelast_last, app_nil_r. }
  destruct (c =? 247)%N eqn:E2.
  { apply N.eqb_eq in E2. subst c. cbn [N.eqb Pos.eqb].
    now rewrite removelast_last, app_nil_r. }
  destruct (c =? 94)%N.
  - change power with ([42%N] ++ [42%N]).
    now rewrite app_assoc, removelast_last.
  - now rewrite removelast_last, app_nil_r.
Qed.

(** X13: a key event without a character (a modifier, an arrow, a
    function key) is handled as typing nothing, whatever its key name:
    the expression stays, the status line is cleared, the display is
    refreshed, and nothing is evaluated. *)
Theorem on_key_no_char (e : KeyEvent) (self : CalculatorApp) :
  e_char e = [] ->
  on_key e self
  = Ret (_refresh_display (set_sub_display_text self []), true).
Proof.
  intros H. unfold on_key. cbv zeta. rewrite H.
  cbn [str_in starts_with orb].
  unfold _append. change (internal_expr (internal_expr [])) with (@nil N).
  rewrite app_nil_r.
  now destruct self.
Qed.

Lemma on_key_no_char_witness :
  let e := {| e_keysym := utf8 "Return"; e_char := []; e_state := 0 |} in
  let self := set_sub_display_text (set_expression initial (utf8 "2+2"))
                (utf8 "Error: x") in
  on_key e self
  = Ret (_refresh_display (set_sub_display_text self []), true).
Proof.
  cbv zeta.
  apply (on_key_no_char
           {| e_keysym := utf8 "Return"; e_char := []; e_state := 0 |}).
  reflexivity.
Defined.

(** X14: the modifier state of a key event changes nothing: the digit
    [6] is typed as a digit also with Shift held, since the test for a
    character of the keypad comes first. *)
Theorem on_key_ignores_state (k c : str) (st st' : Z)
  (self : CalculatorApp) :
  on_key {| e_keysym := k; e_char := c; e_state := st |} self
  = on_key {| e_keysym := k; e_char := c; e_state := st' |} self.
Proof.
  unfold on_key. cbv zeta. cbn [e_keysym e_char e_state].
  destruct (str_in c (utf8 "0123456789.+-*/()")) eqn:Hin; [reflexivity|].
  destruct (PyStr.eqb c (utf8 "6")) eqn:H6.
  - apply eqb_eq in H6. subst c. discriminate Hin.
  - now rewrite !andb_false_r.
Qed.

(** ** The evaluate handler, by outcome *)

Section Evaluate.

Variable h : Host.
Variable self : CalculatorApp.

Hypothesis not_blank : is_empty (strip (expression self)) = false.

Lemma run_evaluate_error (res : option value) (err : str) :
  run h (safe_eval (internal_expr (expression self)))
  = Returns (res, Some err) ->
  run h (_evaluate self)
  = Returns {| expression := expression self;
               last_ans := last_ans self;
               history_list := history_list self;
               sub_display_text := utf8 "Error: " ++ err;
               main_display := utf8 "Error";
               sub_display := utf8 "Error: " ++ err;
               history_label := history_label self |}.
Proof.
  intros H. unfold _evaluate. rewrite not_blank. cbv zeta.
  rewrite run_bind, H. reflexivity.
Qed.

Lemma run_evaluate_success (v : value) (s : str) :
  run h (safe_eval (internal_expr (expression self)))
  = Returns (Some v, None) ->
  run h (format_result v) = Returns s ->
  let history := firstn 6 ((display_expr (expression self), s)
                             :: history_list self) in
  let text := display_expr (internal_expr (expression self)) ++ utf8 " =" in
  run h (_evaluate self)
  = Returns {| expression := s;
               last_ans := Some v;
               history_list := history;
               sub_display_text := text;
               main_display := s;
               sub_display := text;
               history_label := join [10%N] (map history_line history) |}.
Proof.
  intros H Hf. unfold _evaluate. rewrite not_blank. cbv zeta.
  rewrite run_bind, H. cbv iota beta. rewrite run_bind, Hf.
  unfold _update_history_display.
  cbn [run expression last_ans history_list sub_display_text main_display
       sub_display history_label].
  rewrite (map_ext (fun '(expr, res) => expr ++ utf8 " = " ++ res)
             history_line) by (intros [a b]; reflexivity).
  reflexivity.
Qed.

End Evaluate.

(** What [_evaluate] can have done when it returns: nothing to the
    expression and the history, or a successful evaluation. *)
Lemma evaluate_cases (h : Host) (self self' : CalculatorApp) :
  run h (_evaluate self) = Returns self' ->
  (expression self' = expression self
   /\ last_ans self' = last_ans self
   /\ history_list self' = history_list self
   /\ history_label self' = history_label self)
  \/ (exists v s,
        run h (format_result v) = Returns s
        /\ expression self' = s
        /\ last_ans self' = Some v
        /\ history_list self'
           = firstn 6 ((display_expr (expression self), s)
                         :: history_list self)
        /\ history_label self' = history_text (history_list self')).
Proof.
  destruct (is_empty (strip (expression self))) eqn:Hb.
  { unfold _evaluate. rewrite Hb. cbn [run].
    intros H. injection H as <-. left. auto. }
  destruct (run h (safe_eval (internal_expr (expression self))))
    as [[res [err|]]|e] eqn:Hs.
  - rewrite (run_evaluate_error h self Hb res err Hs).
    intros H. injection H as <-. left. auto.
  - destruct res as [v|].
    + destruct (run h (format_result v)) as [s|e] eqn:Hf.
      * rewrite (run_evaluate_success h self Hb v s Hs Hf).
        intros H. injection H as <-. right. exists v, s.
        cbn [expression last_ans history_list history_label]. auto.
      * unfold _evaluate. rewrite Hb. cbv zeta.
        rewrite run_bind, Hs. cbv iota beta. rewrite run_bind, Hf.
        discriminate.
    + unfold _evaluate. rewrite Hb. cbv zeta.
      rewrite run_bind, Hs. cbv iota beta. rewrite run_bind.
      discriminate.
  - unfold _evaluate. rewrite Hb. cbv zeta.
    rewrite run_bind, Hs. discriminate.
Qed.

(** X15: when the expression cannot be evaluated, the [=] button and the
    Return key leave different displays: both put the message in the
    small label, but the key leaves ["Error"] in the main label while
    the button's refresh shows the expression again. *)
Theorem error_by_button_and_by_key (h : Host) (lib : Library)
  (self : CalculatorApp) (e : KeyEvent) (res : option value) (err : str) :
  is_empty (strip (expression self)) = false ->
  run h (safe_eval (internal_expr (expression self)))
  = Returns (res, Some err) ->
  e_keysym e = utf8 "Return" ->
  str_in (e_char e) (utf8 "0123456789.+-*/()") = false ->
  exists by_key by_button,
    run h (on_key e self) = Returns (by_key, true)
    /\ run h (_on_button lib (utf8 "=") self) = Returns by_button
    /\ main_display by_key = utf8 "Error"
    /\ main_display by_button = display_expr (expression self)
    /\ sub_display by_key = utf8 "Error: " ++ err
    /\ sub_display by_button = utf8 "Error: " ++ err
    /\ expression by_key = expression self
    /\ expression by_button = expression self.
Proof.
  intros Hb Hs Hk Hc.
  pose proof (run_evaluate_error h self Hb res err Hs) as He.
  eexists. eexists. split; [|split].
  - unfold on_key. cbv zeta. rewrite Hc, Hk.
    change (PyStr.eqb (utf8 "Return") (utf8 "Return")) with true.
    cbn [orb]. rewrite run_bind, He. reflexivity.
  - unfold _on_button.
    change (PyStr.eqb (utf8 "=") (utf8 "C")) with false.
    change (PyStr.eqb (utf8 "=") (utf8 "⌫")) with false.
    change (PyStr.eqb (utf8 "=") (utf8 "=")) with true.
    cbv iota. rewrite run_bind, He. reflexivity.
  - cbn [main_display sub_display expression _refresh_display].
    assert (Hne : is_empty (expression self) = false).
    { destruct (expression self); [discriminate Hb | reflexivity]. }
    rewrite Hne. auto 10.
Qed.

Lemma error_by_button_and_by_key_witness :
  let tree := BinOp (Constant (CInt 5)) Div (Constant (CInt 0)) in
  let h := example_host [(utf8 "5/0", inr tree)] in
  let self := set_expression initial (utf8 "5/0") in
  let e := {| e_keysym := utf8 "Return"; e_char := [13%N]; e_state := 0 |} in
  exists by_key by_button,
    run h (on_key e self) = Returns (by_key, true)
    /\ run h (_on_button Example.library (utf8 "=") self) = Returns by_button
    /\ main_display by_key = utf8 "Error"
    /\ main_display by_button = display_expr (expression self)
    /\ sub_display by_key = utf8 "Error: " ++ utf8 "Division by zero"
    /\ sub_display by_button = utf8 "Error: " ++ utf8 "Division by zero"
    /\ expression by_key = expression self
    /\ expression by_button = expression self.
Proof.
  cbv zeta.
  apply (error_by_button_and_by_key
           (example_host
              [(utf8 "5/0",
                inr (BinOp (Constant (CInt 5)) Div (Constant (CInt 0))))])
           Example.library
           (set_expression initial (utf8 "5/0"))
           {| e_keysym := utf8 "Return"; e_char := [13%N]; e_state := 0 |}
           None (utf8 "Division by zero")); reflexivity.
Defined.

(** ** What a button can do *)

Section Buttons.

Variable h : Host.
Variable lib : Library.

Lemma format_result_returns (v : value) :
  exists s, run h (format_result v) = Returns s /\ is_empty s = false.
Proof.
  destruct v as [x|re im].
  - destruct (is_nan x || is_infinity x) eqn:E.
    + rewrite (format_result_not_finite x E). eexists. split; reflexivity.
    + destruct (format_result_finite x E) as (n & _ & Hf). rewrite Hf.
      eexists. split; [reflexivity|].
      destruct (PyFloat.eq_int x n);
        [apply str_of_int_not_empty | apply trim_not_empty].
  - unfold format_result.
    destruct (ne_self (VComplex re im)); [eexists; split; reflexivity|].
    destruct (eq_float (VComplex re im) infinity
              || eq_float (VComplex re im) neg_infinity);
      [eexists; split; reflexivity|].
    cbn [run]. eexists. split; [reflexivity | apply trim_not_empty].
Qed.

Lemma existsb_Exception (e : exn) :
  existsb (exn_class_eqb (exn_cls e)) Exception = true.
Proof. destruct e as [c msg]. now destruct c. Qed.

(** The body of the [try] of [_percent], and the [try] itself. *)
Lemma run_percent_try (self : CalculatorApp) (g : str) (f : str -> str) :
  run h (try_except
           (x <- float_ lib g ;;
            s <- format_result (VFloat (x / 100)) ;;
            Ret (set_expression self (f s)))
           Exception (fun _ => Ret self))
  = Returns match float_of_str lib g with
            | inl _ => self
            | inr x =>
                match run h (format_result (VFloat (x / 100))) with
                | Returns s => set_expression self (f s)
                | Raises _ => self
                end
            end.
Proof.
  rewrite run_try_except, run_bind. unfold float_.
  destruct (float_of_str lib g) as [e|x]; cbn [run].
  - now rewrite existsb_Exception.
  - rewrite run_bind.
    destruct (run h (format_result (VFloat (x / 100)))) as [s|e];
      cbn [run]; [reflexivity|].
    now rewrite existsb_Exception.
Qed.

Lemma edits_refl (self : CalculatorApp) : edits self self.
Proof. repeat split. Qed.

Lemma run_percent (self : CalculatorApp) :
  exists self',
    run h (_percent lib self) = Returns self'
    /\ edits self self'
    /\ (expression self' = expression self
        \/ exists x s a b,
             run h (format_result (VFloat x)) = Returns s
             /\ (expression self' = s
                 \/ expression self'
                    = firstn a (expression self) ++ s
                      ++ skipn b (expression self))).
Proof.
  unfold _percent. cbv zeta.
  destruct (is_empty (expression self)).
  { exists self. repeat split. now left. }
  destruct (PyRe.finditer (LAST_NUMBER lib) (expression self)) as [|m0 ms].
  - destruct (PyRe.re_match (WHOLE_NUMBER lib) (expression self)) as [m2|].
    + rewrite (run_percent_try self _ (fun s => s)).
      eexists. split; [reflexivity|].
      destruct (float_of_str lib _) as [e|x];
        [repeat split; now left|].
      destruct (run h (format_result (VFloat (x / 100)))) as [s|e] eqn:Hf;
        [|repeat split; now left].
      repeat split. right. exists (x / 100)%float, s, 0, 0. auto.
    + exists self. repeat split. now left.
  - rewrite run_bind.
    rewrite (run_percent_try self _
               (fun s => firstn (fst (snd (last (m0 :: ms) m0)))
                           (expression self) ++ s
                         ++ skipn (snd (snd (last (m0 :: ms) m0)))
                              (expression self))).
    cbn [run]. eexists. split; [reflexivity|].
    destruct (float_of_str lib _) as [e|x];
      [repeat split; now left|].
    destruct (run h (format_result (VFloat (x / 100)))) as [s|e] eqn:Hf;
      [|repeat split; now left].
    repeat split. right.
    exists (x / 100)%float, s, (fst (snd (last (m0 :: ms) m0))),
      (snd (snd (last (m0 :: ms) m0))). auto.
Qed.

Lemma toggle_sign_edits (self : CalculatorApp) :
  edits self (_toggle_sign lib self).
Proof.
  unfold _toggle_sign. cbv zeta.
  destruct (is_empty (expression self)); [apply edits_refl|].
  destruct (PyRe.finditer (LAST_NUMBER lib) (expression self)) as [|m0 ms].
  - destruct (PyRe.re_match (WHOLE_NUMBER lib) (expression self));
      [|apply edits_refl].
    repeat split.
  - repeat split.
Qed.

Lemma run_insert_ans (self : CalculatorApp) :
  exists s,
    run h (_insert_ans self)
    = Returns (set_sub_display_text
                 (set_expression self (expression self ++ s)) [])
    /\ match last_ans self with
       | Some v => run h (format_result v) = Returns s
       | None => s = []
       end.
Proof.
  unfold _insert_ans. rewrite run_bind.
  destruct (last_ans self) as [v|] eqn:Hv.
  - destruct (format_result_returns v) as (s & Hs & _).
    exists s. split; [|exact Hs].
    rewrite run_bind, Hs. reflexivity.
  - exists []. cbn [run]. split; [|reflexivity].
    rewrite app_nil_r. now destruct self.
Qed.

(** A button either edits, or is [=] and evaluates. *)
Lemma on_button_cases (key : str) (self self' : CalculatorApp) :
  run h (_on_button lib key self) = Returns self' ->
  exists mid,
    self' = _refresh_display mid
    /\ (mid = _clear self \/ mid = _backspace self
        \/ run h (_evaluate self) = Returns mid
        \/ run h (_insert_ans self) = Returns mid
        \/ mid = _toggle_sign lib self
        \/ run h (_percent lib self) = Returns mid
        \/ mid = _append self key
        \/ mid = self).
Proof.
  unfold _on_button. rewrite run_bind.
  destruct (PyStr.eqb key (utf8 "C")).
  { cbn [run]. intros H. injection H as <-. eexists. split; eauto. }
  destruct (PyStr.eqb key (utf8 "⌫")).
  { cbn [run]. intros H. injection H as <-. eexists. split; eauto. }
  destruct (PyStr.eqb key (utf8 "=")).
  { destruct (run h (_evaluate self)) as [mid|e]; [|discriminate].
    cbn [run]. intros H. injection H as <-. eexists. split; eauto. }
  destruct (PyStr.eqb key (utf8 "ANS")).
  { destruct (run h (_insert_ans self)) as [mid|e]; [|discriminate].
    cbn [run]. intros H. injection H as <-. eexists. split; eauto 6. }
  destruct (PyStr.eqb key (utf8 "+/-")).
  { cbn [run]. intros H. injection H as <-. eexists. split; eauto 7. }
  destruct (PyStr.eqb key (utf8 "%")).
  { destruct (run h (_percent lib self)) as [mid|e]; [|discriminate].
    cbn [run]. intros H. injection H as <-. eexists. split; eauto 8. }
  destruct (str_in key (utf8 "0123456789.+-×÷^()")).
  { cbn [run]. intros H. injection H as <-. eexists. split; eauto 9. }
  cbn [run]. intros H. injection H as <-. eexists. split; eauto 10.
Qed.

End Buttons.

(** X16: the percent handler never raises, whatever [float] and the
    formatter do, and it touches neither the last answer nor the
    history. *)
Theorem percent_never_raises (h : Host) (lib : Library)
  (self : CalculatorApp) :
  exists self', run h (_percent lib self) = Returns self' /\ edits self self'.
Proof.
  destruct (run_percent h lib self) as (self' & H & He & _). eauto.
Qed.

(** X17: only the [=] button changes the last answer or the history:
    every other button, whatever its label, leaves them and the history
    panel as they are. *)
Theorem only_equals_evaluates (h : Host) (lib : Library) (key : str)
  (self self' : CalculatorApp) :
  PyStr.eqb key (utf8 "=") = false ->
  run h (_on_button lib key self) = Returns self' ->
  edits self self'.
Proof.
  intros Hk. unfold _on_button. rewrite run_bind, Hk.
  destruct (PyStr.eqb key (utf8 "C")).
  { cbn [run]. intros H. injection H as <-. repeat split. }
  destruct (PyStr.eqb key (utf8 "⌫")).
  { cbn [run]. intros H. injection H as <-. repeat split. }
  destruct (PyStr.eqb key (utf8 "ANS")).
  { destruct (run_insert_ans h self) as (s & Hs & _). rewrite Hs.
    cbn [run]. intros H. injection H as <-. repeat split. }
  destruct (PyStr.eqb key (utf8 "+/-")).
  { cbn [run]. intros H. injection H as <-.
    exact (toggle_sign_edits lib self). }
  destruct (PyStr.eqb key (utf8 "%")).
  { destruct (run_percent h lib self) as (mid & Hm & He & _). rewrite Hm.
    cbn [run]. intros H. injection H as <-. exact He. }
  destruct (str_in key (utf8 "0123456789.+-×÷^()"));
    cbn [run]; intros H; injection H as <-; repeat split.
Qed.

Lemma only_equals_evaluates_witness :
  let self := {| expression := utf8 "2+3";
                 last_ans := Some (VFloat 4);
                 history_list := [(utf8 "2+2", utf8 "4")];
                 sub_display_text := [];
                 main_display := utf8 "2+3";
                 sub_display := [];
                 history_label := utf8 "2+2 = 4" |} in
  edits self
    (_refresh_display
       (set_sub_display_text (set_expression self (utf8 "2+-3")) [])).
Proof.
  cbv zeta.
  apply (only_equals_evaluates (example_host []) Example.library
           (utf8 "+/-")); reflexivity.
Defined.

(** ** Invariants of the application state *)

Section Invariants.

Variable h : Host.
Variable lib : Library.

Lemma edits_history (self self' : CalculatorApp) :
  edits self self' -> history_ok self -> history_ok self'.
Proof.
  intros (_ & Hl & Hp) [H6 Hj]. unfold history_ok.
  now rewrite Hl, Hp.
Qed.

Lemma evaluate_history (self self' : CalculatorApp) :
  run h (_evaluate self) = Returns self' ->
  history_ok self -> history_ok self'.
Proof.
  intros H Hok.
  destruct (evaluate_cases h self self' H)
    as [(_ & Ha & Hl & Hp)|(v & s & _ & _ & _ & Hl & Hp)].
  - apply (edits_history self); [repeat split; assumption | exact Hok].
  - split; [|exact Hp]. rewrite Hl. apply firstn_le_length.
Qed.

Lemma refresh_history (self : CalculatorApp) :
  history_ok self -> history_ok (_refresh_display self).
Proof. intros H. exact H. Qed.

End Invariants.

(** X18: the history never holds more than six entries and the history
    panel always shows them, one per line, or a dash while there is
    none: this holds at the start and is kept by every button and every
    key. *)
Theorem history_invariant (h : Host) (lib : Library) :
  history_ok initial
  /\ (forall key self self',
        history_ok self ->
        run h (_on_button lib key self) = Returns self' ->
        history_ok self')
  /\ (forall e self self' b,
        history_ok self ->
        run h (on_key e self) = Returns (self', b) ->
        history_ok self').
Proof.
  split; [|split].
  - split; [simpl; lia | reflexivity].
  - intros key self self' Hok H.
    destruct (on_button_cases h lib key self self' H) as (mid & -> & Hc).
    apply refresh_history.
    destruct Hc as [->|[->|[He|[Hi|[->|[Hp|[->| ->]]]]]]]; try exact Hok.
    + exact (evaluate_history h self mid He Hok).
    + destruct (run_insert_ans h self) as (s & Hs & _).
      rewrite Hs in Hi. injection Hi as <-. exact Hok.
    + exact (edits_history self _ (toggle_sign_edits lib self) Hok).
    + destruct (run_percent h lib self) as (mid' & Hm & He & _).
      rewrite Hm in Hp. injection Hp as <-.
      exact (edits_history self _ He Hok).
  - intros e self self' b Hok. unfold on_key. cbv zeta.
    destruct (str_in (e_char e) (utf8 "0123456789.+-*/()")).
    { cbn [run]. intros H. injection H as <- _. exact Hok. }
    destruct (PyStr.eqb (e_keysym e) (utf8 "Return")
              || PyStr.eqb (e_keysym e) (utf8 "KP_Enter")).
    { rewrite run_bind.
      destruct (run h (_evaluate self)) as [mid|ex] eqn:He; [|discriminate].
      cbn [run]. intros H. injection H as <- _.
      exact (evaluate_history h self mid He Hok). }
    destruct (PyStr.eqb (e_keysym e) (utf8 "BackSpace")).
    { cbn [run]. intros H. injection H as <- _. exact Hok. }
    destruct (PyStr.eqb (e_keysym e) (utf8 "Escape")).
    { cbn [run]. intros H. injection H as <- _. exact Hok. }
    destruct (PyStr.eqb (e_char e) (utf8 "^")
              || negb (Z.land (e_state e) 1 =? 0)%Z
                 && PyStr.eqb (e_char e) (utf8 "6"));
      cbn [run]; intros H; injection H as <- _; exact Hok.
Qed.

(** ** The expression holds no glyph *)

Section GlyphFree.

Variable h : Host.
Variable lib : Library.

Hypothesis complex_format_plain :
  forall re im, glyph_free (complex_format h re im) = true.

Lemma glyph_free_app (a b : str) :
  glyph_free (a ++ b) = glyph_free a && glyph_free b.
Proof. apply forallb_app. Qed.

Lemma forallb_firstn (p : N -> bool) (n : nat) (s : str) :
  forallb p s = true -> forallb p (firstn n s) = true.
Proof.
  revert s. induction n as [|n IH]; intros [|x s] H; try reflexivity.
  simpl in *. apply andb_prop in H as [Hx H]. now rewrite Hx, IH.
Qed.

Lemma forallb_skipn (p : N -> bool) (n : nat) (s : str) :
  forallb p s = true -> forallb p (skipn n s) = true.
Proof.
  revert s. induction n as [|n IH]; intros [|x s] H; try reflexivity;
    try exact H.
  simpl in *. apply andb_prop in H as [_ H]. now apply IH.
Qed.

Lemma forallb_drop_while (p q : N -> bool) (s : str) :
  forallb p s = true -> forallb p (drop_while q s) = true.
Proof.
  induction s as [|x s IH]; [reflexivity|].
  intros H. simpl. destruct (q x); [|exact H].
  simpl in H. apply andb_prop in H as [_ H]. now apply IH.
Qed.

Lemma forallb_removelast (p : N -> bool) (s : str) :
  forallb p s = true -> forallb p (removelast s) = true.
Proof.
  induction s as [|x s IH]; [reflexivity|].
  intros H. simpl in H. apply andb_prop in H as [Hx H].
  destruct s as [|y s]; [reflexivity|].
  change (removelast (x :: y :: s)) with (x :: removelast (y :: s)).
  cbn [forallb]. now rewrite Hx, IH.
Qed.

Lemma glyph_free_trim (s : str) :
  glyph_free s = true -> glyph_free (trim s) = true.
Proof.
  intros H. unfold trim. destruct (contains 101 (lower s)); [exact H|].
  assert (Hs : glyph_free (rstrip_chars (utf8 ".")
                             (rstrip_chars (utf8 "0") s)) = true).
  { unfold rstrip_chars, glyph_free.
    rewrite forallb_rev. apply forallb_drop_while.
    rewrite rev_involutive. apply forallb_drop_while.
    now rewrite forallb_rev. }
  destruct (rstrip_chars (utf8 ".") (rstrip_chars (utf8 "0") s));
    [reflexivity | exact Hs].
Qed.

Lemma glyph_free_numeric (s : str) :
  forallb (fun x => contains x numeric_chars) s = true ->
  glyph_free s = true.
Proof.
  induction s as [|x s IH]; [reflexivity|].
  intros H. cbn [forallb] in H. apply andb_prop in H as [Hx H].
  unfold glyph_free. cbn [forallb]. fold (glyph_free s).
  rewrite (IH H), andb_true_r.
  unfold contains in Hx. rewrite existsb_exists in Hx.
  destruct Hx as [y [Hin Hy]]. apply N.eqb_eq in Hy. subst y.
  repeat (destruct Hin as [<-|Hin]; [reflexivity|]).
  destruct Hin.
Qed.

Lemma glyph_free_format_result (v : value) (s : str) :
  run h (format_result v) = Returns s -> glyph_free s = true.
Proof.
  destruct v as [x|re im].
  - destruct (is_nan x || is_infinity x) eqn:E.
    + rewrite (format_result_not_finite x E).
      intros H. injection H as <-. reflexivity.
    + destruct (format_result_finite x E) as (n & _ & Hf). rewrite Hf.
      intros H. injection H as <-.
      apply glyph_free_numeric, made_of. intros c Hc.
      destruct (PyFloat.eq_int x n).
      * apply contains_str_of_int. now apply outside_numeric.
      * apply trim_chars; [exact Hc|]. now apply format_10g_chars.
  - unfold format_result.
    destruct (ne_self (VComplex re im));
      [intros H; injection H as <-; reflexivity|].
    destruct (eq_float (VComplex re im) infinity
              || eq_float (VComplex re im) neg_infinity);
      [intros H; injection H as <-; reflexivity|].
    cbn [run]. intros H. injection H as <-.
    apply glyph_free_trim, complex_format_plain.
Qed.

Lemma glyph_free_splice (e s : str) (a b : nat) :
  glyph_free e = true -> glyph_free s = true ->
  glyph_free (firstn a e ++ s ++ skipn b e) = true.
Proof.
  intros He Hs. rewrite !glyph_free_app, Hs.
  unfold glyph_free. now rewrite forallb_firstn, forallb_skipn.
Qed.

Lemma glyph_free_group1 (m : PyRe.found) (e : str) :
  glyph_free e = true -> glyph_free (PyRe.group1 m e) = true.
Proof.
  intros He. unfold PyRe.group1. destruct (snd m) as [a b].
  apply forallb_firstn, forallb_skipn, He.
Qed.

Lemma glyph_free_toggle_sign (self : CalculatorApp) :
  glyph_free (expression self) = true ->
  glyph_free (expression (_toggle_sign lib self)) = true.
Proof.
  intros He. unfold _toggle_sign. cbv zeta.
  destruct (is_empty (expression self)); [exact He|].
  destruct (PyRe.finditer (LAST_NUMBER lib) (expression self)) as [|m0 ms].
  - destruct (PyRe.re_match (WHOLE_NUMBER lib) (expression self)) as [m2|];
      [|exact He].
    cbn [expression set_expression]. rewrite glyph_free_app.
    apply andb_true_intro. split.
    + now destruct (is_empty _).
    + apply forallb_drop_while, glyph_free_group1, He.
  - cbn [expression set_expression set_sub_display_text].
    apply glyph_free_splice; [exact He|].
    destruct (starts_with (utf8 "-") _).
    + apply forallb_skipn, glyph_free_group1, He.
    + change (utf8 "-") with [45%N]. cbn [app].
      unfold glyph_free. cbn [forallb].
      now rewrite (glyph_free_group1 _ _ He).
Qed.

Lemma glyph_free_on_button (key : str) (self self' : CalculatorApp) :
  glyph_free (expression self) = true ->
  run h (_on_button lib key self) = Returns self' ->
  glyph_free (expression self') = true.
Proof.
  intros He H.
  destruct (on_button_cases h lib key self self' H) as (mid & -> & Hc).
  cbn [expression _refresh_display].
  destruct Hc as [->|[->|[Hv|[Hi|[->|[Hp|[->| ->]]]]]]]; try exact He.
  - reflexivity.
  - now apply forallb_removelast.
  - destruct (evaluate_cases h self mid Hv)
      as [(Hx & _)|(v & s & Hf & Hx & _)]; rewrite Hx; [exact He|].
    exact (glyph_free_format_result v s Hf).
  - destruct (run_insert_ans h self) as (s & Hs & Hl).
    rewrite Hs in Hi. injection Hi as <-.
    cbn [expression set_expression set_sub_display_text].
    rewrite glyph_free_app, He.
    destruct (last_ans self) as [v|];
      [exact (glyph_free_format_result v s Hl) | now subst s].
  - now apply glyph_free_toggle_sign.
  - destruct (run_percent h lib self) as (mid' & Hm & _ & Hx).
    rewrite Hm in Hp. injection Hp as <-.
    destruct Hx as [Hx|(x & s & a & b & Hf & [Hx|Hx])]; rewrite Hx.
    + exact He.
    + exact (glyph_free_format_result _ s Hf).
    + apply glyph_free_splice;
        [exact He | exact (glyph_free_format_result _ s Hf)].
  - cbn [expression _append set_expression set_sub_display_text].
    rewrite glyph_free_app, He. apply internal_expr_no_glyph.
Qed.

End GlyphFree.

(** X19: every button keeps the expression free of the glyphs [×], [÷]
    and [^] (provided the host's text of a complex number holds none);
    [internal_expr] is then the identity on it, so that [_evaluate] hands
    the expression itself to [safe_eval]. *)
Theorem expression_glyph_free (h : Host) (lib : Library) (key : str)
  (self self' : CalculatorApp) :
  (forall re im, glyph_free (complex_format h re im) = true) ->
  glyph_free (expression self) = true ->
  run h (_on_button lib key self) = Returns self' ->
  glyph_free (expression self') = true
  /\ internal_expr (expression self') = expression self'.
Proof.
  intros Hh He H.
  pose proof (glyph_free_on_button h lib Hh key self self' He H) as G.
  split; [exact G | exact (internal_expr_fixed _ G)].
Qed.

Lemma expression_glyph_free_witness :
  let self := set_expression initial (utf8 "2*3") in
  let self' := _refresh_display (_append self (utf8 "^")) in
  glyph_free (expression self') = true
  /\ internal_expr (expression self') = expression self'.
Proof.
  cbv zeta.
  apply (expression_glyph_free (example_host []) Example.library (utf8 "^")
           (set_expression initial (utf8 "2*3"))); reflexivity.
Defined.

(** ** After a successful evaluation *)

(** X20: after [=] has evaluated the expression to a value, the [ANS]
    button appends the text the expression was replaced by: the
    expression then holds that text twice. *)
Theorem answer_after_equals (h : Host) (lib : Library)
  (self : CalculatorApp) (v : value) :
  is_empty (strip (expression self)) = false ->
  run h (safe_eval (internal_expr (expression self)))
  = Returns (Some v, None) ->
  exists s self',
    run h (format_result v) = Returns s
    /\ run h (press lib [utf8 "="; utf8 "ANS"] self) = Returns self'
    /\ expression self' = s ++ s
    /\ last_ans self' = Some v
    /\ main_display self' = display_expr (s ++ s)
    /\ sub_display self' = [].
Proof.
  intros Hb Hs.
  destruct (format_result_returns h v) as (s & Hf & Hne).
  pose proof (run_evaluate_success h self Hb v s Hs Hf) as He.
  cbv zeta in He.
  exists s. eexists. split; [exact Hf|]. split.
  - cbn [press]. rewrite run_bind. unfold _on_button at 1.
    change (PyStr.eqb (utf8 "=") (utf8 "C")) with false.
    change (PyStr.eqb (utf8 "=") (utf8 "⌫")) with false.
    change (PyStr.eqb (utf8 "=") (utf8 "=")) with true.
    cbv iota. rewrite run_bind, He. cbn [run].
    rewrite run_bind. unfold _on_button.
    change (PyStr.eqb (utf8 "ANS") (utf8 "C")) with false.
    change (PyStr.eqb (utf8 "ANS") (utf8 "⌫")) with false.
    change (PyStr.eqb (utf8 "ANS") (utf8 "=")) with false.
    change (PyStr.eqb (utf8 "ANS") (utf8 "ANS")) with true.
    cbv iota. rewrite run_bind. unfold _insert_ans.
    cbn [last_ans _refresh_display]. rewrite !run_bind, Hf.
    cbn [run]. reflexivity.
  - cbn [expression last_ans main_display sub_display sub_display_text
         _refresh_display set_expression set_sub_display_text].
    destruct s as [|c s]; [discriminate Hne|]. auto.
Qed.

Lemma answer_after_equals_witness :
  let tree := BinOp (Constant (CInt 2)) Add (Constant (CInt 2)) in
  let h := example_host [(utf8 "2+2", inr tree)] in
  let self := set_expression initial (utf8 "2+2") in
  exists s self',
    run h (format_result (VFloat 4)) = Returns s
    /\ run h (press Example.library [utf8 "="; utf8 "ANS"] self)
       = Returns self'
    /\ expression self' = s ++ s
    /\ last_ans self' = Some (VFloat 4)
    /\ main_display self' = display_expr (s ++ s)
    /\ sub_display self' = [].
Proof.
  cbv zeta.
  apply (answer_after_equals
           (example_host
              [(utf8 "2+2",
                inr (BinOp (Constant (CInt 2)) Add (Constant (CInt 2))))])
           Example.library (set_expression initial (utf8 "2+2")));
    reflexivity.
Defined.

(** X21: a result that is an infinity or NaN counts as a success of the
    evaluate handler: it becomes the last answer, ["Error"] becomes the
    expression and the newest history entry, and the status line shows
    the evaluated expression, not a message. *)
Theorem non_finite_result (h : Host) (self : CalculatorApp) (x : float) :
  is_empty (strip (expression self)) = false ->
  run h (safe_eval (internal_expr (expression self)))
  = Returns (Some (VFloat x), None) ->
  is_nan x || is_infinity x = true ->
  exists self',
    run h (_evaluate self) = Returns self'
    /\ expression self' = utf8 "Error"
    /\ last_ans self' = Some (VFloat x)
    /\ hd_error (history_list self')
       = Some (display_expr (expression self), utf8 "Error")
    /\ main_display self' = utf8 "Error"
    /\ sub_display self'
       = display_expr (internal_expr (expression self)) ++ utf8 " =".
Proof.
  intros Hb Hs Hx.
  assert (Hf : run h (format_result (VFloat x)) = Returns (utf8 "Error")).
  { now rewrite (format_result_not_finite x Hx). }
  pose proof (run_evaluate_success h self Hb (VFloat x) _ Hs Hf) as He.
  cbv zeta in He. eexists. split; [exact He|].
  cbn [expression last_ans history_list main_display sub_display firstn
       hd_error].
  auto 10.
Qed.

Lemma non_finite_result_witness :
  let tree := BinOp (Constant (CFloat 0x1.1ccf385ebc8ap+1023)) Mult (Constant (CInt 10)) in
  let h := example_host [(utf8 "1e308*10", inr tree)] in
  let self := set_expression initial (utf8 "1e308*10") in
  exists self',
    run h (_evaluate self) = Returns self'
    /\ expression self' = utf8 "Error"
    /\ last_ans self' = Some (VFloat infinity)
    /\ hd_error (history_list self')
       = Some (display_expr (expression self), utf8 "Error")
    /\ main_display self' = utf8 "Error"
    /\ sub_display self'
       = display_expr (internal_expr (expression self)) ++ utf8 " =".
Proof.
  cbv zeta.
  apply (non_finite_result
           (example_host
              [(utf8 "1e308*10",
                inr (BinOp (Constant (CFloat 0x1.1ccf385ebc8ap+1023)) Mult
                       (Constant (CInt 10))))])
           (set_expression initial (utf8 "1e308*10")) infinity);
    reflexivity.
Defined.

(** ** The matcher against what a pattern matches *)

Section Matcher.

Import PyRe.

Lemma star_sound {T : Type} (cls : N -> bool) (k : cont T) (s : str) :
  forall i g res,
    star cls k i s g = Some res ->
    exists j s', Matches (Star cls) i s j s' g g /\ k j s' g = Some res.
Proof.
  induction s as [|c t IH]; intros i g res H; cbn [star] in H.
  - exists i, []. split; [constructor | exact H].
  - destruct (cls c) eqn:Hc.
    + destruct (star cls k (S i) t g) as [r|] eqn:Hs.
      * injection H as <-. destruct (IH _ _ _ Hs) as (j & s' & Hm & Hk).
        exists j, s'. split; [now apply M_Star_more | exact Hk].
      * exists i, (c :: t). split; [constructor | exact H].
    + exists i, (c :: t). split; [constructor | exact H].
Qed.

(** Whatever the matcher finds is a match. *)
Lemma go_sound (r : regex) :
  forall (T : Type) (k : cont T) i s g res,
    go r k i s g = Some res ->
    exists j s' g', Matches r i s j s' g g' /\ k j s' g' = Some res.
Proof.
  induction r as [| |cls|cls|cls|cls|a IHa b IHb|a IHa b IHb|r IH];
    intros T k i s g res H; cbn [go] in H.
  - destruct i; [|discriminate H].
    exists 0, s, g. split; [constructor | exact H].
  - destruct s as [|c [|d t]]; try discriminate H.
    + exists i, [], g. split; [constructor | exact H].
    + destruct (c =? 10)%N eqn:Hc; [|discriminate H].
      apply N.eqb_eq in Hc. subst c.
      exists i, [10%N], g. split; [constructor | exact H].
  - destruct s as [|c t]; [discriminate H|].
    destruct (cls c) eqn:Hc; [|discriminate H].
    exists (S i), t, g. split; [now constructor | exact H].
  - destruct s as [|c t].
    + exists i, [], g. split; [apply M_Opt_none | exact H].
    + destruct (cls c) eqn:Hc.
      * destruct (k (S i) t g) as [r|] eqn:Hk.
        -- injection H as <-. exists (S i), t, g.
           split; [now apply M_Opt_one | exact Hk].
        -- exists i, (c :: t), g. split; [apply M_Opt_none | exact H].
      * exists i, (c :: t), g. split; [apply M_Opt_none | exact H].
  - destruct (star_sound cls k s i g res H) as (j & s' & Hm & Hk).
    exists j, s', g. auto.
  - destruct s as [|c t]; [discriminate H|].
    destruct (cls c) eqn:Hc; [|discriminate H].
    destruct (star_sound cls k t (S i) g res H) as (j & s' & Hm & Hk).
    exists j, s', g. split; [now apply M_Plus | exact Hk].
  - destruct (go a k i s g) as [r|] eqn:Ha.
    + injection H as <-.
      destruct (IHa _ _ _ _ _ _ Ha) as (j & s' & g' & Hm & Hk).
      exists j, s', g'. split; [now apply M_Alt_left | exact Hk].
    + destruct (IHb _ _ _ _ _ _ H) as (j & s' & g' & Hm & Hk).
      exists j, s', g'. split; [now apply M_Alt_right | exact Hk].
  - destruct (IHa _ _ _ _ _ _ H) as (j & s' & g' & Hm & Hk).
    destruct (IHb _ _ _ _ _ _ Hk) as (j2 & s2 & g2 & Hm2 & Hk2).
    exists j2, s2, g2. split; [exact (M_Seq _ _ _ _ _ _ _ _ _ _ _ Hm Hm2)|].
    exact Hk2.
  - destruct (IH _ _ _ _ _ _ H) as (j & s' & g' & Hm & Hk).
    exists j, s', (i, j). split; [exact (M_Group _ _ _ _ _ _ _ Hm) | exact Hk].
Qed.

Lemma star_skip {T : Type} (cls : N -> bool) (k : cont T) (i : nat)
  (s : str) (g : nat * nat) (res : T) :
  k i s g = Some res -> exists res', star cls k i s g = Some res'.
Proof.
  intros H. destruct s as [|c t]; cbn [star]; [eauto|].
  destruct (cls c); [|eauto].
  destruct (star cls k (S i) t g); eauto.
Qed.

(** The matcher finds a match wherever there is one (maybe another
    one, that it tries first). *)
Lemma go_complete (r : regex) (i : nat) (s : str) (j : nat) (s' : str)
  (g g' : nat * nat) :
  Matches r i s j s' g g' ->
  forall (T : Type) (k : cont T) res,
    k j s' g' = Some res -> exists res', go r k i s g = Some res'.
Proof.
  induction 1 as [s g|i g|i g|cls c t i g Hc|cls c t i g Hc|cls i s g
                  |cls i s g|cls c t i j s' g Hc Hm IH
                  |cls c t i j s' g Hc Hm IH
                  |a b i s j s' g g' Hm IH|a b i s j s' g g' Hm IH
                  |a b i s j s' k0 s'' g g' g'' Hm1 IH1 Hm2 IH2
                  |r i s j s' g g' Hm IH];
    intros T k res Hk; cbn [go].
  - eauto.
  - eauto.
  - eauto.
  - rewrite Hc. eauto.
  - rewrite Hc, Hk. eauto.
  - destruct s as [|c t]; [eauto|].
    destruct (cls c); [|eauto]. destruct (k (S i) t g); eauto.
  - exact (star_skip cls k i s g res Hk).
  - cbn [go] in IH. cbn [star]. rewrite Hc.
    destruct (IH T k res Hk) as [r Hr]. rewrite Hr. eauto.
  - cbn [go] in IH. rewrite Hc. exact (IH T k res Hk).
  - destruct (IH T k res Hk) as [r Hr]. rewrite Hr. eauto.
  - destruct (go a k i s g); [eauto|]. exact (IH T k res Hk).
  - destruct (IH2 T k res Hk) as [r Hr].
    exact (IH1 T (go b k) r Hr).
  - exact (IH T (fun j s' _ => k j s' (i, j)) res Hk).
Qed.

End Matcher.

(** ** What the two patterns match *)

Section Patterns.

Import PyRe.

Variable lib : Library.

Lemma star_inv (cls : N -> bool) (i : nat) (s : str) (j : nat) (s' : str)
  (g g' : nat * nat) :
  Matches (Star cls) i s j s' g g' ->
  g' = g /\ exists w, s = w ++ s' /\ forallb cls w = true
                      /\ j = i + List.length w.
Proof.
  intros H. remember (Star cls) as r eqn:Hr.
  induction H as [ | | | | | |cls0 i s g|cls0 c t i j s' g Hc Hm IH
                  | | | | | ]; try discriminate Hr.
  - split; [reflexivity|]. exists []. repeat split. simpl. lia.
  - injection Hr as ->. destruct (IH eq_refl) as (_ & w & -> & Hw & ->).
    split; [reflexivity|]. exists (c :: w). cbn [app forallb List.length].
    rewrite Hc, Hw. repeat split. lia.
Qed.

Lemma star_intro (cls : N -> bool) (w s' : str) (g : nat * nat) :
  forallb cls w = true ->
  forall i, Matches (Star cls) i (w ++ s') (i + List.length w) s' g g.
Proof.
  induction w as [|c w IH]; intros H i; cbn [app List.length].
  - rewrite Nat.add_0_r. constructor.
  - cbn [forallb] in H. apply andb_prop in H as [Hc Hw].
    apply M_Star_more; [exact Hc|].
    replace (i + S (List.length w)) with (S i + List.length w) by lia.
    now apply IH.
Qed.

Lemma opt_inv (c0 : N) (i : nat) (s : str) (j : nat) (s' : str)
  (g g' : nat * nat) :
  Matches (Opt (N.eqb c0)) i s j s' g g' ->
  g' = g /\ exists x, s = x ++ s' /\ (x = [] \/ x = [c0])
                      /\ j = i + List.length x.
Proof.
  intros H. inversion H; subst.
  - split; [reflexivity|]. exists [c]. repeat split; [|simpl; lia].
    right. match goal with E : (c0 =? c)%N = true |- _ =>
      apply N.eqb_eq in E; now subst end.
  - split; [reflexivity|]. exists []. repeat split; [now left | simpl; lia].
Qed.

Lemma opt_intro (c0 : N) (x s' : str) (g : nat * nat) (i : nat) :
  x = [] \/ x = [c0] ->
  Matches (Opt (N.eqb c0)) i (x ++ s') (i + List.length x) s' g g.
Proof.
  intros [->| ->]; cbn [app List.length].
  - rewrite Nat.add_0_r. apply M_Opt_none.
  - replace (i + 1) with (S i) by lia. apply M_Opt_one. apply N.eqb_refl.
Qed.

Lemma plus_inv (cls : N -> bool) (i : nat) (s : str) (j : nat) (s' : str)
  (g g' : nat * nat) :
  Matches (Plus cls) i s j s' g g' ->
  g' = g /\ exists w, s = w ++ s' /\ w <> [] /\ forallb cls w = true
                      /\ j = i + List.length w.
Proof.
  intros H. inversion H; subst.
  match goal with Hm : Matches (Star cls) _ _ _ _ _ _ |- _ =>
    destruct (star_inv _ _ _ _ _ _ _ Hm) as (_ & w & -> & Hw & ->) end.
  split; [reflexivity|]. exists (c :: w). cbn [app forallb List.length].
  repeat split; [discriminate| |lia].
  match goal with E : cls c = true |- _ => now rewrite E, Hw end.
Qed.

Lemma plus_intro (cls : N -> bool) (w s' : str) (g : nat * nat) (i : nat) :
  w <> [] -> forallb cls w = true ->
  Matches (Plus cls) i (w ++ s') (i + List.length w) s' g g.
Proof.
  intros Hne H. destruct w as [|c w]; [contradiction|].
  cbn [forallb] in H. apply andb_prop in H as [Hc Hw].
  cbn [app List.length]. apply M_Plus; [exact Hc|].
  replace (i + S (List.length w)) with (S i + List.length w) by lia.
  now apply star_intro.
Qed.

Lemma seq_inv (a b : regex) (i : nat) (s : str) (k : nat) (s'' : str)
  (g g'' : nat * nat) :
  Matches (Seq a b) i s k s'' g g'' ->
  exists j s' g', Matches a i s j s' g g' /\ Matches b j s' k s'' g' g''.
Proof. intros H. inversion H; subst. eauto. Qed.

Lemma group_inv (r : regex) (i : nat) (s : str) (j : nat) (s' : str)
  (g g' : nat * nat) :
  Matches (Group r) i s j s' g g' ->
  g' = (i, j) /\ exists g1, Matches r i s j s' g g1.
Proof. intros H. inversion H; subst. eauto. Qed.

(** The group. *)
Lemma number_inv (a : nat) (t : str) (b : nat) (t3 : str)
  (g g' : nat * nat) :
  Matches (NUMBER lib) a t b t3 g g' ->
  g' = (a, b)
  /\ exists sg d1 dt d2,
       numeral lib sg d1 dt d2
       /\ t = (sg ++ d1 ++ dt ++ d2) ++ t3
       /\ b = a + List.length (sg ++ d1 ++ dt ++ d2).
Proof.
  unfold NUMBER. intros H.
  apply group_inv in H as (-> & g1 & H). split; [reflexivity|].
  apply seq_inv in H as (j1 & s1 & g2 & H1 & H).
  destruct (opt_inv _ _ _ _ _ _ _ H1) as (_ & sg & -> & Hsg & ->).
  apply seq_inv in H as (j2 & s2 & g3 & H2 & H).
  destruct (plus_inv _ _ _ _ _ _ _ H2) as (_ & d1 & -> & Hne & Hd1 & ->).
  apply seq_inv in H as (j3 & s3 & g4 & H3 & H).
  destruct (opt_inv _ _ _ _ _ _ _ H3) as (_ & dt & -> & Hdt & ->).
  destruct (star_inv _ _ _ _ _ _ _ H) as (_ & d2 & -> & Hd2 & ->).
  exists sg, d1, dt, d2. split; [repeat split; assumption|].
  rewrite !length_app, <- !app_assoc. split; [reflexivity | lia].
Qed.

Lemma number_intro (sg d1 dt d2 t3 : str) (g : nat * nat) (a : nat) :
  numeral lib sg d1 dt d2 ->
  Matches (NUMBER lib) a ((sg ++ d1 ++ dt ++ d2) ++ t3)
    (a + List.length (sg ++ d1 ++ dt ++ d2)) t3 g
    (a, a + List.length (sg ++ d1 ++ dt ++ d2)).
Proof.
  intros (Hsg & Hne & Hd1 & Hdt & Hd2). unfold NUMBER.
  apply M_Group with (g' := g).
  rewrite <- !app_assoc, !length_app, !Nat.add_assoc.
  eapply M_Seq; [exact (opt_intro 45 sg _ g a Hsg)|].
  eapply M_Seq; [exact (plus_intro _ d1 _ g _ Hne Hd1)|].
  eapply M_Seq; [exact (opt_intro 46 dt _ g _ Hdt)|].
  exact (star_intro _ d2 t3 g Hd2 _).
Qed.

(** The white space up to the end of the text. *)
Lemma tail_inv (b : nat) (t3 : str) (j : nat) (s' : str)
  (g g' : nat * nat) :
  Matches (Seq (Star is_space) Eol) b t3 j s' g g' ->
  g' = g
  /\ exists w2, t3 = w2 ++ s' /\ forallb is_space w2 = true
                /\ (s' = [] \/ s' = [10%N]) /\ j = b + List.length w2.
Proof.
  intros H. apply seq_inv in H as (j1 & s1 & g1 & H1 & H2).
  destruct (star_inv _ _ _ _ _ _ _ H1) as (-> & w2 & -> & Hw & ->).
  inversion H2; subst; (split; [reflexivity|]); exists w2; auto.
Qed.

Lemma tail_intro (w2 s' : str) (g : nat * nat) (b : nat) :
  forallb is_space w2 = true -> s' = [] \/ s' = [10%N] ->
  Matches (Seq (Star is_space) Eol) b (w2 ++ s') (b + List.length w2) s' g g.
Proof.
  intros Hw Hs. eapply M_Seq; [exact (star_intro _ w2 s' g Hw b)|].
  destruct Hs as [->| ->]; constructor.
Qed.

(** White space, the group, white space, the end. *)
Lemma rest_inv (i : nat) (t : str) (j : nat) (s' : str) (g g' : nat * nat) :
  Matches (REST lib) i t j s' g g' ->
  exists w sg d1 dt d2 w2,
    t = w ++ (sg ++ d1 ++ dt ++ d2) ++ w2 ++ s'
    /\ forallb is_space w = true
    /\ numeral lib sg d1 dt d2
    /\ forallb is_space w2 = true
    /\ (s' = [] \/ s' = [10%N])
    /\ g' = (i + List.length w,
             i + List.length w + List.length (sg ++ d1 ++ dt ++ d2))
    /\ j = i + List.length w + List.length (sg ++ d1 ++ dt ++ d2)
           + List.length w2.
Proof.
  unfold REST. intros H.
  apply seq_inv in H as (j1 & s1 & g1 & H1 & H).
  destruct (star_inv _ _ _ _ _ _ _ H1) as (-> & w & -> & Hw & ->).
  apply seq_inv in H as (j2 & s2 & g2 & H2 & H3).
  destruct (number_inv _ _ _ _ _ _ H2)
    as (-> & sg & d1 & dt & d2 & Hn & -> & ->).
  destruct (tail_inv _ _ _ _ _ _ H3) as (-> & w2 & -> & Hw2 & Hs & ->).
  exists w, sg, d1, dt, d2, w2. auto 10.
Qed.

Lemma rest_intro (w sg d1 dt d2 w2 s' : str) (g : nat * nat) (i : nat) :
  forallb is_space w = true ->
  numeral lib sg d1 dt d2 ->
  forallb is_space w2 = true ->
  s' = [] \/ s' = [10%N] ->
  Matches (REST lib) i (w ++ (sg ++ d1 ++ dt ++ d2) ++ w2 ++ s')
    (i + List.length w + List.length (sg ++ d1 ++ dt ++ d2)
     + List.length w2) s' g
    (i + List.length w,
     i + List.length w + List.length (sg ++ d1 ++ dt ++ d2)).
Proof.
  intros Hw Hn Hw2 Hs. unfold REST.
  eapply M_Seq; [exact (star_intro _ w _ g Hw i)|].
  eapply M_Seq; [exact (number_intro sg d1 dt d2 _ g _ Hn)|].
  exact (tail_intro w2 s' _ _ Hw2 Hs).
Qed.

End Patterns.

(** ** Searching for the last number *)

Section Search.

Import PyRe.

Variable lib : Library.

(** At the start of the text the pattern first tries to go on without a
    character before the number. *)
Lemma match_at_last (q : nat) (t : str) :
  match_at (LAST_NUMBER lib) q t
  = match (if Nat.eqb q 0
           then go (REST lib) (fun j _ g => Some ((q, j), g)) q t (0, 0)
           else None) with
    | Some r => Some r
    | None =>
        match t with
        | c :: t' =>
            if contains c (utf8 "+-*/%(")
            then go (REST lib) (fun j _ g => Some ((q, j), g)) (S q) t' (0, 0)
            else None
        | [] => None
        end
    end.
Proof. reflexivity. Qed.

Lemma rest_sound (q i : nat) (t : str) (m : found) :
  go (REST lib) (fun j _ g => Some ((q, j), g)) i t (0, 0) = Some m ->
  exists w sg d1 dt d2 w2 s',
    t = w ++ (sg ++ d1 ++ dt ++ d2) ++ w2 ++ s'
    /\ forallb is_space w = true
    /\ numeral lib sg d1 dt d2
    /\ forallb is_space w2 = true
    /\ (s' = [] \/ s' = [10%N])
    /\ m = ((q, i + List.length w + List.length (sg ++ d1 ++ dt ++ d2)
                + List.length w2),
            (i + List.length w,
             i + List.length w + List.length (sg ++ d1 ++ dt ++ d2))).
Proof.
  intros H. apply go_sound in H as (j & s' & g' & Hm & Hk).
  injection Hk as <-.
  destruct (rest_inv lib _ _ _ _ _ _ Hm)
    as (w & sg & d1 & dt & d2 & w2 & -> & Hw & Hn & Hw2 & Hs & -> & ->).
  exists w, sg, d1, dt, d2, w2, s'. auto 10.
Qed.

Lemma rest_complete (q i : nat) (w sg d1 dt d2 w2 s' : str) :
  forallb is_space w = true ->
  numeral lib sg d1 dt d2 ->
  forallb is_space w2 = true ->
  s' = [] \/ s' = [10%N] ->
  exists m,
    go (REST lib) (fun j _ g => Some ((q, j), g)) i
      (w ++ (sg ++ d1 ++ dt ++ d2) ++ w2 ++ s') (0, 0) = Some m.
Proof.
  intros Hw Hn Hw2 Hs.
  exact (go_complete _ _ _ _ _ _ _
           (rest_intro lib w sg d1 dt d2 w2 s' (0, 0) i Hw Hn Hw2 Hs)
           _ _ _ eq_refl).
Qed.

(** A match of [LAST_NUMBER] reaches the end of the text and has these
    parts. *)
Lemma last_sound (q : nat) (t : str) (m : found) :
  match_at (LAST_NUMBER lib) q t = Some m ->
  exists o w sg d1 dt d2 w2 s',
    t = o ++ w ++ (sg ++ d1 ++ dt ++ d2) ++ w2 ++ s'
    /\ last_number_at lib q m o w sg d1 dt d2 w2 s'.
Proof.
  rewrite match_at_last.
  destruct (if Nat.eqb q 0
            then go (REST lib) (fun j _ g => Some ((q, j), g)) q t (0, 0)
            else None) as [r|] eqn:Hb.
  - intros H. injection H as <-.
    destruct (Nat.eqb q 0) eqn:Hq; [|discriminate Hb].
    apply Nat.eqb_eq in Hq. subst q.
    destruct (rest_sound _ _ _ _ Hb)
      as (w & sg & d1 & dt & d2 & w2 & s' & -> & Hw & Hn & Hw2 & Hs & ->).
    exists [], w, sg, d1, dt, d2, w2, s'. split; [reflexivity|].
    unfold last_number_at. cbn [List.length]. rewrite !Nat.add_0_r.
    auto 10.
  - destruct t as [|c t']; [discriminate|].
    destruct (contains c (utf8 "+-*/%(")) eqn:Hc; [|discriminate].
    intros H.
    destruct (rest_sound _ _ _ _ H)
      as (w & sg & d1 & dt & d2 & w2 & s' & -> & Hw & Hn & Hw2 & Hs & ->).
    exists [c], w, sg, d1, dt, d2, w2, s'. split; [reflexivity|].
    unfold last_number_at. cbn [List.length].
    replace (q + 1) with (S q) by lia. split; [right; eauto|]. auto 10.
Qed.

(** At the start of a text that begins with the number, the match has
    no character before the number. *)
Lemma last_sound_start (w sg d1 dt d2 w2 s' : str) (m : found) :
  forallb is_space w = true ->
  numeral lib sg d1 dt d2 ->
  forallb is_space w2 = true ->
  s' = [] \/ s' = [10%N] ->
  match_at (LAST_NUMBER lib) 0 (w ++ (sg ++ d1 ++ dt ++ d2) ++ w2 ++ s')
  = Some m ->
  exists w' sg' d1' dt' d2' w2' s'',
    w ++ (sg ++ d1 ++ dt ++ d2) ++ w2 ++ s'
    = w' ++ (sg' ++ d1' ++ dt' ++ d2') ++ w2' ++ s''
    /\ last_number_at lib 0 m [] w' sg' d1' dt' d2' w2' s''.
Proof.
  intros Hw Hn Hw2 Hs. rewrite match_at_last. cbn [Nat.eqb].
  destruct (rest_complete 0 0 w sg d1 dt d2 w2 s' Hw Hn Hw2 Hs) as [r Hr].
  rewrite Hr. intros H. injection H as <-.
  destruct (rest_sound _ _ _ _ Hr)
    as (w' & sg' & d1' & dt' & d2' & w2' & s'' & E & Hw' & Hn' & Hw2' & Hs'
        & ->).
  exists w', sg', d1', dt', d2', w2', s''. split; [exact E|].
  unfold last_number_at. cbn [List.length]. auto 10.
Qed.

(** Where the text has these parts, the pattern matches. *)
Lemma last_complete (q : nat) (m0 : found) (o w sg d1 dt d2 w2 s' : str) :
  last_number_at lib q m0 o w sg d1 dt d2 w2 s' ->
  exists m,
    match_at (LAST_NUMBER lib) q
      (o ++ w ++ (sg ++ d1 ++ dt ++ d2) ++ w2 ++ s') = Some m.
Proof.
  intros (Ho & Hw & Hn & Hw2 & Hs & _). rewrite match_at_last.
  destruct Ho as [[-> ->]|(c & -> & Hc)].
  - cbn [Nat.eqb app].
    destruct (rest_complete 0 0 w sg d1 dt d2 w2 s' Hw Hn Hw2 Hs) as [r Hr].
    rewrite Hr. eauto.
  - destruct (if Nat.eqb q 0 then _ else None); [eauto|].
    cbn [app]. rewrite Hc.
    exact (rest_complete q (S q) w sg d1 dt d2 w2 s' Hw Hn Hw2 Hs).
Qed.

(** [search] returns the first position with a match. *)
Lemma search_sound (r : regex) (s : str) :
  forall i m,
    search r i s = Some m ->
    exists d, d <= List.length s
              /\ match_at r (i + d) (skipn d s) = Some m.
Proof.
  induction s as [|c t IH]; intros i m H; cbn [search] in H.
  - destruct (match_at r i []) eqn:E; [|discriminate H].
    injection H as <-. exists 0. rewrite Nat.add_0_r. auto.
  - destruct (match_at r i (c :: t)) eqn:E.
    + injection H as <-. exists 0. rewrite Nat.add_0_r.
      split; [lia | exact E].
    + destruct (IH _ _ H) as (d & Hd & Hm). exists (S d).
      cbn [List.length skipn].
      replace (i + S d) with (S i + d) by lia. split; [lia | exact Hm].
Qed.

Lemma search_first (r : regex) (d : nat) :
  forall s i m,
    d <= List.length s ->
    match_at r (i + d) (skipn d s) = Some m ->
    exists d' m', d' <= d
                  /\ match_at r (i + d') (skipn d' s) = Some m'
                  /\ search r i s = Some m'.
Proof.
  induction d as [|d IH]; intros s i m Hd H.
  - exists 0, m. rewrite Nat.add_0_r in *. cbn [skipn] in *.
    split; [lia|]. split; [exact H|].
    destruct s; cbn [search]; now rewrite H.
  - destruct s as [|c t]; [simpl in Hd; lia|].
    destruct (match_at r i (c :: t)) as [m0|] eqn:E.
    + exists 0, m0. rewrite Nat.add_0_r. cbn [skipn search].
      rewrite E. split; [lia | auto].
    + cbn [skipn] in H. replace (i + S d) with (S i + d) in H by lia.
      cbn [List.length] in Hd.
      destruct (IH t (S i) m ltac:(lia) H) as (d' & m' & Hd' & Hm' & Hs).
      exists (S d'), m'. cbn [skipn search]. rewrite E.
      replace (i + S d') with (S i + d') by lia.
      split; [lia | auto].
Qed.

Lemma search_after_end (j : nat) (s' : str) :
  j <> 0 -> s' = [] \/ s' = [10%N] ->
  search (LAST_NUMBER lib) j s' = None.
Proof.
  intros Hj Hs. destruct j as [|j]; [contradiction|].
  destruct Hs as [->| ->]; reflexivity.
Qed.

Lemma skipn_app_length (a b : str) : skipn (List.length a) (a ++ b) = b.
Proof. induction a; simpl; auto. Qed.

Lemma firstn_app_length (a b : str) : firstn (List.length a) (a ++ b) = a.
Proof. induction a; simpl; [reflexivity | now f_equal]. Qed.

Lemma numeral_length (sg d1 dt d2 : str) :
  numeral lib sg d1 dt d2 -> 0 < List.length (sg ++ d1 ++ dt ++ d2).
Proof.
  intros (_ & Hne & _). rewrite !length_app.
  destruct d1; [contradiction | simpl; lia].
Qed.

(** [finditer] finds at most one match of [LAST_NUMBER]: it reaches the
    end of the text. *)
Lemma finditer_last (e : str) :
  finditer (LAST_NUMBER lib) e
  = match search (LAST_NUMBER lib) 0 e with
    | None => []
    | Some m => [m]
    end.
Proof.
  unfold finditer. cbn [finditer_from].
  destruct (search (LAST_NUMBER lib) 0 e) as [[[b j] g]|] eqn:Hs;
    [|reflexivity].
  f_equal.
  destruct (search_sound _ _ _ _ Hs) as (d & Hd & Hm). cbn [Nat.add] in Hm.
  destruct (last_sound _ _ _ Hm)
    as (o & w & sg & d1 & dt & d2 & w2 & s' & E & _ & _ & Hn & _ & Hs' & Hg).
  injection Hg as -> -> _.
  pose proof (numeral_length _ _ _ _ Hn) as Hlen.
  replace (Nat.eqb d _) with false by (symmetry; apply Nat.eqb_neq; lia).
  rewrite Nat.sub_0_r.
  assert (Hk : skipn (d + List.length o + List.length w
                      + List.length (sg ++ d1 ++ dt ++ d2)
                      + List.length w2) e = s').
  { replace (d + List.length o + List.length w
             + List.length (sg ++ d1 ++ dt ++ d2) + List.length w2)
      with (List.length (o ++ w ++ (sg ++ d1 ++ dt ++ d2) ++ w2) + d)
      by (rewrite !length_app; lia).
    rewrite <- skipn_skipn, E.
    replace (o ++ w ++ (sg ++ d1 ++ dt ++ d2) ++ w2 ++ s')
      with ((o ++ w ++ (sg ++ d1 ++ dt ++ d2) ++ w2) ++ s')
      by (now rewrite <- !app_assoc).
    apply skipn_app_length. }
  rewrite Hk. destruct (List.length e); [reflexivity|].
  cbn [finditer_from]. rewrite search_after_end; [reflexivity|lia|exact Hs'].
Qed.

End Search.

(** ** The sign and percent handlers *)

Section TrailingNumber.

Import PyRe.

Variable lib : Library.

(** The second pattern of the two handlers matches only what the first
    matches. *)
Lemma whole_number_is_last (e : str) (m : found) :
  re_match (WHOLE_NUMBER lib) e = Some m ->
  exists m', search (LAST_NUMBER lib) 0 e = Some m'.
Proof.
  unfold re_match.
  replace (match_at (WHOLE_NUMBER lib) 0 e)
    with (go (Seq (NUMBER lib) (Seq (Star is_space) Eol))
            (fun j _ g0 => Some ((0, j), g0)) 0 e (0, 0))
    by reflexivity.
  intros H. apply go_sound in H as (j & s' & g' & Hm & _).
  assert (Hr : Matches (REST lib) 0 e j s' (0, 0) g').
  { unfold REST. eapply M_Seq; [apply M_Star_none | exact Hm]. }
  destruct (go_complete _ _ _ _ _ _ _ Hr _
              (fun j _ g => Some ((0, j), g)) _ eq_refl) as [r Hgo].
  assert (Hat : match_at (LAST_NUMBER lib) 0 e = Some r).
  { rewrite match_at_last. cbn [Nat.eqb]. now rewrite Hgo. }
  exists r. destruct e; cbn [search]; now rewrite Hat.
Qed.

Lemma whole_number_needs_last (e : str) :
  finditer (LAST_NUMBER lib) e = [] ->
  re_match (WHOLE_NUMBER lib) e = None.
Proof.
  intros H.
  destruct (re_match (WHOLE_NUMBER lib) e) as [m|] eqn:E; [|reflexivity].
  destruct (whole_number_is_last _ _ E) as [m' Hs].
  rewrite finditer_last, Hs in H. discriminate H.
Qed.

Lemma search_nonempty (e : str) (m : found) :
  search (LAST_NUMBER lib) 0 e = Some m -> is_empty e = false.
Proof. destruct e; [discriminate | reflexivity]. Qed.

(** What [_toggle_sign] does with the match it finds. *)
Lemma toggle_sign_found (self : CalculatorApp) (m : found) :
  search (LAST_NUMBER lib) 0 (expression self) = Some m ->
  expression (_toggle_sign lib self)
  = firstn (fst (snd m)) (expression self)
    ++ (if starts_with (utf8 "-") (group1 m (expression self))
        then skipn 1 (group1 m (expression self))
        else utf8 "-" ++ group1 m (expression self))
    ++ skipn (snd (snd m)) (expression self).
Proof.
  intros H. unfold _toggle_sign. cbv zeta.
  rewrite (search_nonempty _ _ H), finditer_last, H.
  reflexivity.
Qed.

End TrailingNumber.

(** X22: when the first pattern finds no number at the end of the
    expression, neither the sign handler nor the percent handler changes
    anything: the second pattern, tried in that case, matches only
    texts that the first one matches. *)
Theorem no_trailing_number (lib : Library) (self : CalculatorApp) :
  PyRe.finditer (LAST_NUMBER lib) (expression self) = [] ->
  _toggle_sign lib self = self /\ _percent lib self = Ret self.
Proof.
  intros H.
  pose proof (whole_number_needs_last lib _ H) as Hw.
  unfold _toggle_sign, _percent. cbv zeta. rewrite H, Hw.
  now destruct (is_empty (expression self)).
Qed.

Lemma no_trailing_number_witness :
  let self := set_expression initial (utf8 "2+(") in
  _toggle_sign Example.library self = self
  /\ _percent Example.library self = Ret self.
Proof.
  cbv zeta.
  apply (no_trailing_number Example.library
           (set_expression initial (utf8 "2+("))).
  reflexivity.
Defined.

(** ** Changing the sign twice *)

Section ToggleTwice.

Import PyRe.

Variable lib : Library.

Hypothesis plain : plain_digits lib.

Lemma digit_facts (c : N) :
  is_decimal lib c = true ->
  is_space c = false /\ (c =? 45)%N = false /\ (c =? 46)%N = false
  /\ contains c (utf8 "+-*/%(") = false.
Proof.
  intros H. destruct (plain c H) as [Hs Hc]. split; [exact Hs|].
  unfold contains in *.
  change (utf8 "+-*/%(.") with [43; 45; 42; 47; 37; 40; 46]%N in Hc.
  change (utf8 "+-*/%(") with [43; 45; 42; 47; 37; 40]%N.
  cbn [existsb] in *.
  repeat match type of Hc with
         | (_ || _)%bool = false =>
             let H1 := fresh "H" in
             apply orb_false_elim in Hc as [H1 Hc]
         end.
  repeat split; try assumption.
  repeat (apply orb_false_intro; [assumption|]). reflexivity.
Qed.

Lemma inner_facts (c : N) :
  inner lib c = true ->
  solid c = true /\ (c =? 45)%N = false
  /\ contains c (utf8 "+-*/%(") = false.
Proof.
  unfold inner, solid. intros H. apply orb_prop in H as [H|H].
  - destruct (digit_facts c H) as (Hs & H45 & _ & Ho).
    now rewrite Hs.
  - apply N.eqb_eq in H. subst c. repeat split.
Qed.

Lemma numeral_inner (sg d1 dt d2 : str) :
  numeral lib sg d1 dt d2 -> forallb (inner lib) (d1 ++ dt ++ d2) = true.
Proof.
  intros (_ & _ & Hd1 & Hdt & Hd2). rewrite !forallb_app.
  assert (E : forall d, forallb (is_decimal lib) d = true ->
                        forallb (inner lib) d = true).
  { intros d Hd. rewrite forallb_forall in *. intros x Hx.
    unfold inner. now rewrite (Hd x Hx). }
  rewrite (E _ Hd1), (E _ Hd2).
  destruct Hdt as [->| ->]; cbn [forallb]; unfold inner;
    rewrite ?N.eqb_refl, ?orb_true_r; reflexivity.
Qed.

Lemma inner_solid (s : str) :
  forallb (inner lib) s = true -> forallb solid s = true.
Proof.
  rewrite !forallb_forall. intros H x Hx.
  now destruct (inner_facts x (H x Hx)).
Qed.

Lemma numeral_solid (sg d1 dt d2 : str) :
  numeral lib sg d1 dt d2 ->
  forallb solid (sg ++ d1 ++ dt ++ d2) = true.
Proof.
  intros Hn. rewrite forallb_app, (inner_solid _ (numeral_inner _ _ _ _ Hn)).
  destruct Hn as ([->| ->] & _); reflexivity.
Qed.

Lemma numeral_after_head (sg d1 dt d2 : str) (x : N) (rest : str) :
  numeral lib sg d1 dt d2 ->
  sg ++ d1 ++ dt ++ d2 = x :: rest ->
  forallb (inner lib) rest = true.
Proof.
  intros Hn E. pose proof (numeral_inner _ _ _ _ Hn) as Hi.
  destruct Hn as ([->| ->] & _); cbn [app] in E.
  - rewrite E in Hi. cbn [forallb] in Hi.
    now apply andb_prop in Hi as [_ Hi].
  - injection E as _ <-. exact Hi.
Qed.

Lemma drop_while_solid (s : str) :
  s <> [] -> forallb solid s = true ->
  forall u, drop_while is_space (s ++ u) = s ++ u.
Proof.
  intros Hne H u. destruct s as [|c s]; [contradiction|].
  cbn [forallb] in H. apply andb_prop in H as [Hc _].
  unfold solid in Hc. apply negb_true_iff in Hc.
  cbn [app drop_while]. now rewrite Hc.
Qed.

(** Two ways to cut a text into a start, a solid block and white
    space to the end agree on where the block ends. *)
Lemma blocks_agree (U B S U' B' S' : str) :
  U ++ B ++ S = U' ++ B' ++ S' ->
  B <> [] -> B' <> [] ->
  forallb solid B = true -> forallb solid B' = true ->
  forallb is_space S = true -> forallb is_space S' = true ->
  U ++ B = U' ++ B'.
Proof.
  intros E HB HB' Hs Hs' HS HS'.
  assert (F : forall U B S,
             B <> [] -> forallb solid B = true ->
             forallb is_space S = true ->
             drop_while is_space (rev (U ++ B ++ S)) = rev (U ++ B)).
  { clear. intros U B S HB Hs HS.
    rewrite app_assoc, !rev_app_distr.
    rewrite drop_while_app_all by now rewrite forallb_rev.
    apply drop_while_solid.
    - intros Hr. apply HB. rewrite <- (rev_involutive B), Hr. reflexivity.
    - unfold solid. now rewrite forallb_rev. }
  pose proof (F U B S HB Hs HS) as F1.
  pose proof (F U' B' S' HB' Hs' HS') as F2.
  rewrite E, F2 in F1.
  rewrite <- (rev_involutive (U ++ B)), <- F1. apply rev_involutive.
Qed.

Lemma end_is_space (w2 s' : str) :
  forallb is_space w2 = true -> s' = [] \/ s' = [10%N] ->
  forallb is_space (w2 ++ s') = true.
Proof.
  intros Hw Hs. rewrite forallb_app, Hw.
  destruct Hs as [->| ->]; reflexivity.
Qed.

(** The parts of the text around the match that [search] finds. *)
Lemma search_parts (e : str) (m : found) :
  search (LAST_NUMBER lib) 0 e = Some m ->
  exists P o w sg d1 dt d2 w2 s',
    e = P ++ o ++ w ++ (sg ++ d1 ++ dt ++ d2) ++ w2 ++ s'
    /\ last_number_at lib (List.length P) m o w sg d1 dt d2 w2 s'.
Proof.
  intros H. destruct (search_sound _ _ _ _ H) as (d & Hd & Hm).
  cbn [Nat.add] in Hm.
  destruct (last_sound lib _ _ _ Hm)
    as (o & w & sg & d1 & dt & d2 & w2 & s' & E & Hat).
  exists (firstn d e), o, w, sg, d1, dt, d2, w2, s'.
  rewrite <- E, firstn_skipn, length_firstn, Nat.min_l by exact Hd.
  auto.
Qed.

Lemma group_of_parts (U B S : str) (q j : nat) :
  group1 ((q, j), (List.length U, List.length U + List.length B))
    (U ++ B ++ S) = B.
Proof.
  unfold group1. cbn [snd].
  replace (List.length U + List.length B - List.length U)
    with (List.length B) by lia.
  now rewrite skipn_app_length, firstn_app_length.
Qed.

(** After a minus sign has been put before an unsigned number, the
    search finds that number again, with its sign. *)
Lemma search_signed (P o w d1 dt d2 w2 s' : str) (m : found) :
  last_number_at lib (List.length P) m o w [] d1 dt d2 w2 s' ->
  exists q j,
    search (LAST_NUMBER lib) 0
      ((P ++ o ++ w) ++ (45%N :: d1 ++ dt ++ d2) ++ w2 ++ s')
    = Some ((q, j),
            (List.length (P ++ o ++ w),
             List.length (P ++ o ++ w)
             + List.length (45%N :: d1 ++ dt ++ d2))).
Proof.
  intros Hat.
  pose proof Hat as (Ho & Hw & Hn & Hw2 & Hs & _).
  set (U := P ++ o ++ w). set (B := 45%N :: d1 ++ dt ++ d2).
  set (S := w2 ++ s'). set (e1 := U ++ B ++ S).
  assert (Hn1 : numeral lib [45%N] d1 dt d2).
  { destruct Hn as (_ & Hn). split; [now right | exact Hn]. }
  assert (HU : List.length U = List.length P + List.length o
                               + List.length w).
  { unfold U. rewrite !length_app. lia. }
  assert (HBne : B <> []) by discriminate.
  assert (HB : forallb solid B = true).
  { exact (numeral_solid _ _ _ _ Hn1). }
  assert (HS : forallb is_space S = true).
  { exact (end_is_space _ _ Hw2 Hs). }
  (* the pattern matches where it matched before *)
  assert (Hm1 : exists m1,
             match_at (LAST_NUMBER lib) (List.length P)
               (skipn (List.length P) e1) = Some m1).
  { assert (Hat1 : exists m',
               last_number_at lib (List.length P) m' o w [45%N] d1 dt d2
                 w2 s').
    { eexists. split; [exact Ho|]. split; [exact Hw|].
      split; [exact Hn1|]. split; [exact Hw2|]. split; [exact Hs|].
      reflexivity. }
    destruct Hat1 as [m' Hat1].
    destruct (last_complete lib _ _ _ _ _ _ _ _ _ _ Hat1) as [m1 Hm1].
    exists m1. rewrite <- Hm1. f_equal.
    unfold e1, U, B, S. rewrite <- !app_assoc. cbn [app].
    rewrite <- !app_assoc. now rewrite skipn_app_length. }
  destruct Hm1 as [m1 Hm1].
  assert (HPle : List.length P <= List.length e1).
  { unfold e1. rewrite !length_app. lia. }
  destruct (search_first _ _ _ 0 _ HPle Hm1)
    as (d' & m2 & Hd' & Hm2 & Hs2).
  cbn [Nat.add] in Hm2.
  (* the parts of the match that is found *)
  destruct (last_sound lib _ _ _ Hm2)
    as (o' & w' & sg' & d1' & dt' & d2' & w2' & s'' & E & Hat2).
  pose proof Hat2 as (Ho' & Hw' & Hn' & Hw2' & Hs' & ->).
  set (P' := firstn d' e1).
  assert (HP' : List.length P' = d').
  { unfold P'. rewrite length_firstn. lia. }
  set (U' := P' ++ o' ++ w'). set (B' := sg' ++ d1' ++ dt' ++ d2').
  set (S' := w2' ++ s'').
  assert (E1 : U ++ B ++ S = U' ++ B' ++ S').
  { fold e1. rewrite <- (firstn_skipn d' e1), E. unfold U', B', S', P'.
    now rewrite <- !app_assoc. }
  assert (HB'ne : B' <> []).
  { pose proof (numeral_length lib _ _ _ _ Hn') as L. fold B' in L.
    intros HB'. rewrite HB' in L. simpl in L. lia. }
  assert (HB' : forallb solid B' = true).
  { exact (numeral_solid _ _ _ _ Hn'). }
  assert (HS' : forallb is_space S' = true).
  { exact (end_is_space _ _ Hw2' Hs'). }
  pose proof (blocks_agree _ _ _ _ _ _ E1 HBne HB'ne HB HB' HS HS') as EB.
  assert (HU' : List.length U' = d' + List.length o' + List.length w').
  { unfold U'. rewrite !length_app. lia. }
  assert (Hsame : U = U' /\ B = B').
  { apply app_eq_app in EB as [l [[EU El]|[EU El]]].
    - (* the block found begins before the sign: the sign is inside *)
      destruct l as [|c l].
      + rewrite app_nil_r in EU. auto.
      + exfalso. pose proof (numeral_after_head _ _ _ _ _ _ Hn' El) as Hi.
        rewrite forallb_app in Hi. apply andb_prop in Hi as [_ Hi].
        unfold B in Hi. cbn [forallb] in Hi. apply andb_prop in Hi as [Hi _].
        destruct (inner_facts _ Hi) as (_ & H45 & _). discriminate H45.
    - (* the block found begins after the sign *)
      destruct l as [|x l2].
      + rewrite app_nil_r in EU. auto.
      + exfalso.
        assert (Hx : x = 45%N /\ d1 ++ dt ++ d2 = l2 ++ B').
        { unfold B in El. now injection El as <- El. }
        destruct Hx as [-> Hnum].
        assert (Hl2 : forallb (inner lib) l2 = true).
        { pose proof (numeral_inner _ _ _ _ Hn) as Hi.
          rewrite Hnum, forallb_app in Hi.
          now apply andb_prop in Hi as [Hi _]. }
        destruct (exists_last (l := 45%N :: l2) ltac:(discriminate))
          as (l0 & z & El0).
        assert (Hz : solid z = true
                     /\ (contains z (utf8 "+-*/%(") = true ->
                         l0 = [] /\ z = 45%N /\ l2 = [])).
        { destruct l0 as [|y l0].
          - injection El0 as <- <-. split; [reflexivity | auto].
          - injection El0 as <- ->.
            rewrite forallb_app in Hl2. apply andb_prop in Hl2 as [_ Hz].
            cbn [forallb] in Hz. apply andb_prop in Hz as [Hz _].
            destruct (inner_facts _ Hz) as (Hso & _ & Hop).
            split; [exact Hso|]. intros Hc. rewrite Hc in Hop.
            discriminate Hop. }
        destruct Hz as [Hz Hzop].
        rewrite El0, app_assoc in EU.
        destruct w' as [|y0 w0'] using rev_ind.
        * (* no white space before the number found *)
          unfold U' in EU. rewrite app_nil_r in EU.
          destruct Ho' as [[-> Hd0]|(c & -> & Hc)].
          -- rewrite app_nil_r in EU.
             assert (HP0 : P' = []).
             { apply length_zero_iff_nil. lia. }
             rewrite HP0 in EU. symmetry in EU.
             now apply app_eq_nil in EU as [_ EU].
          -- apply app_inj_tail in EU as [EP Ec]. subst c.
             destruct (Hzop Hc) as (-> & -> & ->).
             rewrite app_nil_r in EP.
             assert (Hd0 : List.length P = 0 /\ o = [] /\ w = []).
             { assert (L : List.length P' = List.length U)
                 by now rewrite EP.
               rewrite HP', HU in L.
               assert (Lo : List.length o = 0) by lia.
               assert (Lw : List.length w = 0) by lia.
               destruct o; [|discriminate Lo].
               destruct w; [|discriminate Lw].
               destruct Ho as [[_ Hp]|(c & Hc' & _)];
                 [auto | discriminate Hc']. }
             destruct Hd0 as (HP0 & -> & ->).
             assert (HPnil : P = []).
             { now apply length_zero_iff_nil. }
             assert (Hd'0 : d' = 0) by lia.
             rewrite Hd'0 in Hm2.
             assert (He1 : e1 = [] ++ ([45%N] ++ d1 ++ dt ++ d2) ++ w2 ++ s').
             { unfold e1, U, B, S. now rewrite HPnil. }
             cbn [skipn] in Hm2. rewrite He1 in Hm2.
             destruct (last_sound_start lib [] [45%N] d1 dt d2 w2 s' _
                         eq_refl Hn1 Hw2 Hs Hm2)
               as (w3 & sg3 & d13 & dt3 & d23 & w23 & s3 & E3 & Hat3).
             destruct Hat3 as (_ & Hw3 & _ & _ & _ & Hg3).
             injection Hg3 as _ Hg3 _.
             cbn [List.length] in Hg3.
             destruct w3 as [|y [|y' w3]]; try (simpl in Hg3; lia).
             cbn [app] in E3. injection E3 as <- _.
             discriminate Hw3.
        * (* white space before the number found: its last character *)
          clear IHw0'.
          unfold U' in EU. rewrite !app_assoc in EU.
          apply app_inj_tail in EU as [_ Ey]. subst y0.
          rewrite forallb_app in Hw'. apply andb_prop in Hw' as [_ Hy].
          cbn [forallb] in Hy. apply andb_prop in Hy as [Hy _].
          unfold solid in Hz. rewrite Hy in Hz. discriminate Hz. }
  destruct Hsame as [EU' EB'].
  exists d', (d' + List.length o' + List.length w'
              + List.length (sg' ++ d1' ++ dt' ++ d2') + List.length w2').
  rewrite Hs2. fold B'. now rewrite EU', EB', HU'.
Qed.


Lemma skipn_block (U B S : str) :
  skipn (List.length U + List.length B) (U ++ B ++ S) = S.
Proof.
  rewrite <- length_app, app_assoc. apply skipn_app_length.
Qed.

(** What the sign handler does to an unsigned number, and what it does
    next. *)
Lemma toggle_sign_unsigned (self : CalculatorApp) (m : found) :
  search (LAST_NUMBER lib) 0 (expression self) = Some m ->
  starts_with (utf8 "-") (group1 m (expression self)) = false ->
  expression (_toggle_sign lib self)
  = firstn (fst (snd m)) (expression self)
    ++ utf8 "-" ++ skipn (fst (snd m)) (expression self)
  /\ expression (_toggle_sign lib (_toggle_sign lib self))
     = expression self.
Proof.
  intros Hs Hu.
  destruct (search_parts _ _ Hs)
    as (P & o & w & sg & d1 & dt & d2 & w2 & s' & E & Hat).
  pose proof Hat as (_ & _ & Hn & _ & _ & Hm).
  set (U := P ++ o ++ w) in *.
  assert (HU : List.length P + List.length o + List.length w
               = List.length U).
  { unfold U. rewrite !length_app. lia. }
  rewrite HU in Hm.
  assert (E' : expression self
               = U ++ (sg ++ d1 ++ dt ++ d2) ++ w2 ++ s').
  { rewrite E. unfold U. now rewrite <- !app_assoc. }
  pose proof (toggle_sign_found lib self m Hs) as H1.
  rewrite Hu in H1. rewrite Hm in Hu, H1 |- *. cbn [fst snd] in *.
  rewrite E' in Hu, H1 |- *.
  rewrite group_of_parts in Hu, H1.
  rewrite firstn_app_length, skipn_block, skipn_app_length in *.
  assert (Hsg : sg = []).
  { destruct Hn as ([->| ->] & _); [reflexivity | discriminate Hu]. }
  subst sg. cbn [app] in *.
  split; [exact H1|].
  destruct (search_signed P o w d1 dt d2 w2 s' m Hat) as (q & j & Hs1).
  fold U in Hs1.
  assert (Hs1' : search (LAST_NUMBER lib) 0
                   (expression (_toggle_sign lib self))
                 = Some ((q, j),
                         (List.length U,
                          List.length U
                          + List.length (45%N :: d1 ++ dt ++ d2)))).
  { rewrite H1. exact Hs1. }
  pose proof (toggle_sign_found lib _ _ Hs1') as H2.
  rewrite H2. cbn [fst snd]. rewrite H1.
  change (utf8 "-" ++ (d1 ++ dt ++ d2) ++ w2 ++ s')
    with ((45%N :: d1 ++ dt ++ d2) ++ w2 ++ s').
  rewrite group_of_parts, firstn_app_length, skipn_block.
  reflexivity.
Qed.

End ToggleTwice.

(** X23: when the sign handler finds an unsigned number at the end of
    the expression, it puts a minus sign before it, and a second press
    takes exactly that sign away again: the expression is as it was
    (the digits of the library being no white space and none of
    [+ - * / % ( .]). *)
Theorem toggle_sign_twice (lib : Library) (self : CalculatorApp)
  (m : PyRe.found) (ms : list PyRe.found) :
  plain_digits lib ->
  PyRe.finditer (LAST_NUMBER lib) (expression self) = m :: ms ->
  starts_with (utf8 "-") (PyRe.group1 (last ms m) (expression self))
  = false ->
  expression (_toggle_sign lib self)
  = firstn (fst (snd (last ms m))) (expression self)
    ++ utf8 "-" ++ skipn (fst (snd (last ms m))) (expression self)
  /\ expression (_toggle_sign lib (_toggle_sign lib self))
     = expression self.
Proof.
  intros plain Hf. rewrite finditer_last in Hf.
  destruct (PyRe.search (LAST_NUMBER lib) 0 (expression self))
    as [m0|] eqn:Hs; [|discriminate Hf].
  injection Hf as -> <-. cbn [last].
  exact (toggle_sign_unsigned lib plain self m Hs).
Qed.

Lemma example_digits_plain : plain_digits Example.library.
Proof.
  intros c H. cbn [is_decimal Example.library] in H.
  unfold Example.is_digit in H. apply andb_prop in H as [H1 H2].
  apply N.leb_le in H1. apply N.leb_le in H2.
  assert (Hc : In c [48; 49; 50; 51; 52; 53; 54; 55; 56; 57]%N).
  { destruct c as [|p]; [lia|].
    do 10 (try (destruct p as [p|p|]; try lia)); simpl; tauto. }
  repeat (destruct Hc as [<-|Hc]; [split; reflexivity|]).
  destruct Hc.
Qed.

Lemma toggle_sign_twice_witness :
  let self := set_expression initial (utf8 "12*3.5 ") in
  expression (_toggle_sign Example.library self) = utf8 "12*-3.5 "
  /\ expression (_toggle_sign Example.library
                   (_toggle_sign Example.library self))
     = utf8 "12*3.5 ".
Proof.
  cbv zeta.
  apply (toggle_sign_twice Example.library
           (set_expression initial (utf8 "12*3.5 "))
           ((2, 7), (3, 6)) []);
    [exact example_digits_plain | reflexivity | reflexivity].
Defined.

(** ** The keyboard against the keypad *)

(** X24: typing one of the characters [0123456789.+-*/()] on the
    keyboard does what the keypad button showing that character does
    ([×] for [*], [÷] for [/]): the same state results, and the event is
    consumed. *)
Theorem keyboard_as_keypad (lib : Library) (e : KeyEvent) (c : char)
  (self : CalculatorApp) :
  e_char e = [c] ->
  contains c (utf8 "0123456789.+-*/()") = true ->
  on_key e self
  = (self' <- _on_button lib (display_expr [c]) self ;; Ret (self', true)).
Proof.
  intros He Hc. unfold on_key. cbv zeta. rewrite He.
  unfold contains in Hc. rewrite existsb_exists in Hc.
  destruct Hc as [x [Hin Hx]]. apply N.eqb_eq in Hx. subst x.
  change (utf8 "0123456789.+-*/()")
    with [48; 49; 50; 51; 52; 53; 54; 55; 56; 57; 46; 43; 45; 42; 47; 40;
          41]%N in Hin.
  repeat (destruct Hin as [<-|Hin]; [reflexivity|]).
  destruct Hin.
Qed.

Lemma keyboard_as_keypad_witness :
  let e := {| e_keysym := utf8 "asterisk"; e_char := utf8 "*";
              e_state := 1 |} in
  let self := set_expression initial (utf8 "2") in
  on_key e self
  = (self' <- _on_button Example.library (utf8 "×") self ;; Ret (self', true)).
Proof.
  cbv zeta.
  apply (keyboard_as_keypad Example.library
           {| e_keysym := utf8 "asterisk"; e_char := utf8 "*";
              e_state := 1 |} 42%N); reflexivity.
Defined.

(** ** Expressions that do not end with a number *)

Section NoNumber.

Import PyRe.

Variable lib : Library.

(** The last character of a text that [LAST_NUMBER] matches is white
    space, a digit or the point. *)
Lemma last_character (e0 : str) (c : N) :
  is_space c = false -> is_decimal lib c = false -> (c =? 46)%N = false ->
  finditer (LAST_NUMBER lib) (e0 ++ [c]) = [].
Proof.
  intros Hsp Hd Hp. rewrite finditer_last.
  destruct (search (LAST_NUMBER lib) 0 (e0 ++ [c])) as [m|] eqn:Hs;
    [exfalso | reflexivity].
  destruct (search_parts lib _ _ Hs)
    as (P & o & w & sg & d1 & dt & d2 & w2 & s' & E & Hat).
  destruct Hat as (_ & _ & (_ & Hne & Hd1 & Hdt & Hd2) & Hw2 & Hs' & _).
  assert (Hlast : forall (cls : N -> bool) X Y,
             Y <> [] -> forallb cls Y = true -> e0 ++ [c] = X ++ Y ->
             cls c = true).
  { intros cls X Y HY Hc EY.
    destruct (exists_last HY) as (Y0 & y & ->).
    rewrite app_assoc in EY. apply app_inj_tail in EY as [_ ->].
    rewrite forallb_app in Hc. apply andb_prop in Hc as [_ Hc].
    cbn [forallb] in Hc. now apply andb_prop in Hc as [Hc _]. }
  destruct Hs' as [->| ->].
  - rewrite app_nil_r in E. destruct w2 as [|y w2].
    + rewrite app_nil_r in E. destruct d2 as [|y d2].
      * rewrite app_nil_r in E. destruct Hdt as [->| ->].
        -- rewrite app_nil_r in E.
           rewrite !app_assoc in E.
           pose proof (Hlast _ _ d1 Hne Hd1 E) as H. congruence.
        -- rewrite !app_assoc in E.
           pose proof (Hlast (N.eqb 46) _ [46%N] ltac:(discriminate)
                         eq_refl E) as H.
           rewrite N.eqb_sym in H. congruence.
      * rewrite !app_assoc in E.
        pose proof (Hlast _ _ (y :: d2) ltac:(discriminate) Hd2 E) as H.
        congruence.
    + rewrite !app_assoc in E.
      pose proof (Hlast _ _ (y :: w2) ltac:(discriminate) Hw2 E) as H.
      congruence.
  - rewrite !app_assoc in E.
    pose proof (Hlast is_space _ [10%N] ltac:(discriminate) eq_refl E) as H.
    congruence.
Qed.

End NoNumber.

(** X25: the sign and the percent handler leave the state as it is when
    the expression ends with a character that is no digit, no point and
    no white space (an operator, a parenthesis, the [r] of ["Error"]). *)
Theorem handlers_need_number (lib : Library) (self : CalculatorApp)
  (e0 : str) (c : char) :
  expression self = e0 ++ [c] ->
  is_space c = false -> is_decimal lib c = false -> (c =? 46)%N = false ->
  _toggle_sign lib self = self /\ _percent lib self = Ret self.
Proof.
  intros E Hsp Hd Hp.
  pose proof (last_character lib e0 c Hsp Hd Hp) as H. rewrite <- E in H.
  pose proof (whole_number_needs_last lib _ H) as Hw.
  unfold _toggle_sign, _percent. cbv zeta. rewrite H, Hw.
  now destruct (is_empty (expression self)).
Qed.

Lemma handlers_need_number_witness :
  let self := set_expression initial (utf8 "(2+3)") in
  _toggle_sign Example.library self = self
  /\ _percent Example.library self = Ret self.
Proof.
  cbv zeta.
  apply (handlers_need_number Example.library
           (set_expression initial (utf8 "(2+3)")) (utf8 "(2+3") 41%N);
    reflexivity.
Defined.

(** ** A successful evaluation *)

(** X26: when [safe_eval] returns a value for an expression that is not
    blank, the evaluate handler returns with the formatted value as the
    new expression and main label, the value as last answer, the pair of
    the displayed expression and the formatted value in front of the
    history, cut to six entries and shown one per line, and the
    evaluated expression followed by [" ="] in the status line. *)
Theorem evaluate_success (h : Host) (self : CalculatorApp) (v : value) :
  is_empty (strip (expression self)) = false ->
  run h (safe_eval (internal_expr (expression self)))
  = Returns (Some v, None) ->
  exists s self',
    run h (format_result v) = Returns s
    /\ run h (_evaluate self) = Returns self'
    /\ expression self' = s
    /\ last_ans self' = Some v
    /\ history_list self'
       = firstn 6 ((display_expr (expression self), s) :: history_list self)
    /\ history_label self'
       = join [10%N] (map history_line (history_list self'))
    /\ main_display self' = s
    /\ sub_display_text self'
       = display_expr (internal_expr (expression self)) ++ utf8 " ="
    /\ sub_display self' = sub_display_text self'.
Proof.
  intros Hb Hs.
  destruct (format_result_returns h v) as (s & Hf & _).
  pose proof (run_evaluate_success h self Hb v s Hs Hf) as He.
  cbv zeta in He. exists s. eexists. split; [exact Hf|].
  split; [exact He|].
  cbn [expression last_ans history_list history_label main_display
       sub_display sub_display_text].
  auto 10.
Qed.

Lemma evaluate_success_witness :
  let tree := BinOp (Constant (CInt 10)) Div (Constant (CInt 4)) in
  let h := example_host [(utf8 "10/4", inr tree)] in
  let self := {| expression := utf8 "10/4";
                 last_ans := None;
                 history_list :=
                   [(utf8 "1", utf8 "1"); (utf8 "2", utf8 "2");
                    (utf8 "3", utf8 "3"); (utf8 "4", utf8 "4");
                    (utf8 "5", utf8 "5"); (utf8 "6", utf8 "6")];
                 sub_display_text := [];
                 main_display := utf8 "10÷4";
                 sub_display := [];
                 history_label := [] |} in
  exists s self',
    run h (format_result (VFloat 2.5)) = Returns s
    /\ run h (_evaluate self) = Returns self'
    /\ expression self' = s
    /\ last_ans self' = Some (VFloat 2.5)
    /\ history_list self'
       = firstn 6 ((display_expr (expression self), s) :: history_list self)
    /\ history_label self'
       = join [10%N] (map history_line (history_list self'))
    /\ main_display self' = s
    /\ sub_display_text self'
       = display_expr (internal_expr (expression self)) ++ utf8 " ="
    /\ sub_display self' = sub_display_text self'.
Proof.
  cbv zeta.
  apply (evaluate_success
           (example_host
              [(utf8 "10/4",
                inr (BinOp (Constant (CInt 10)) Div (Constant (CInt 4))))]));
    reflexivity.
Defined.

(** ** The order of evaluation *)

(** X27: a binary node with an allowed operator evaluates its left
    operand first: an exception of the left operand is raised whatever
    the right operand is, an exception of the right operand is raised
    whatever the left one returned, and only when both have returned does
    a [None] of either make the result [None]. *)
Theorem binop_order (h : Host) (a b : expr) (op : operator) :
  existsb (operator_eqb op) ALLOWED_BINOPS = true ->
  (forall e, run h (eval_node a) = Raises e ->
             run h (eval_node (BinOp a op b)) = Raises e)
  /\ (forall l e, run h (eval_node a) = Returns l ->
                  run h (eval_node b) = Raises e ->
                  run h (eval_node (BinOp a op b)) = Raises e)
  /\ (forall l r, run h (eval_node a) = Returns l ->
                  run h (eval_node b) = Returns r ->
                  l = None \/ r = None ->
                  run h (eval_node (BinOp a op b)) = Returns None).
Proof.
  intros Hop. cbn [eval_node]. rewrite Hop. cbn [negb].
  split; [|split].
  - intros e Ha. now rewrite run_bind, Ha.
  - intros l e Ha Hb. now rewrite run_bind, Ha, run_bind, Hb.
  - intros l r Ha Hb Hn. rewrite run_bind, Ha, run_bind, Hb.
    destruct Hn as [->| ->]; [reflexivity | now destruct l].
Qed.

Lemma binop_order_witness :
  let h := example_host [] in
  let a := BinOp (Constant (CInt 1)) Div (Constant (CInt 0)) in
  let b := Constant (CInt (10 ^ 400)) in
  run h (eval_node a) = Raises (Exn ZeroDivisionError (utf8 "Division by zero"))
  /\ run h (eval_node (BinOp a Add b))
     = Raises (Exn ZeroDivisionError (utf8 "Division by zero")).
Proof.
  cbv zeta. split; [reflexivity|].
  apply (binop_order (example_host [])
           (BinOp (Constant (CInt 1)) Div (Constant (CInt 0)))
           (Constant (CInt (10 ^ 400))) Add eq_refl).
  reflexivity.
Defined.

(** ** The percent of a number *)

(** X28: when the percent handler finds a number at the end of the
    expression (a numeral of the group's form, followed by white space
    only), it puts the formatted hundredth of its value in its place
    and keeps the text before it and the white space after it; if
    [float] refuses the numeral the expression stays; the status line
    is cleared in both cases. *)
Theorem percent_of_number (h : Host) (lib : Library) (self : CalculatorApp)
  (m : PyRe.found) (ms : list PyRe.found) :
  PyRe.finditer (LAST_NUMBER lib) (expression self) = m :: ms ->
  exists U sg d1 dt d2 S self',
    expression self = U ++ (sg ++ d1 ++ dt ++ d2) ++ S
    /\ numeral lib sg d1 dt d2
    /\ forallb is_space S = true
    /\ run h (_percent lib self) = Returns self'
    /\ sub_display_text self' = []
    /\ match float_of_str lib (sg ++ d1 ++ dt ++ d2) with
       | inr x =>
           exists s,
             run h (format_result (VFloat (x / 100))) = Returns s
             /\ expression self' = U ++ s ++ S
       | inl _ => expression self' = expression self
       end.
Proof.
  intros Hf. pose proof Hf as Hf'. rewrite finditer_last in Hf'.
  destruct (PyRe.search (LAST_NUMBER lib) 0 (expression self))
    as [m0|] eqn:Hs; [|discriminate Hf'].
  injection Hf' as -> <-.
  destruct (search_parts lib _ _ Hs)
    as (P & o & w & sg & d1 & dt & d2 & w2 & s' & E & Hat).
  destruct Hat as (_ & _ & Hn & Hw2 & Hs' & Hm).
  set (U := P ++ o ++ w) in *.
  assert (HU : List.length P + List.length o + List.length w
               = List.length U).
  { unfold U. rewrite !length_app. lia. }
  rewrite HU in Hm.
  assert (E' : expression self
               = U ++ (sg ++ d1 ++ dt ++ d2) ++ w2 ++ s').
  { rewrite E. unfold U. now rewrite <- !app_assoc. }
  exists U, sg, d1, dt, d2, (w2 ++ s').
  unfold _percent. cbv zeta.
  rewrite (search_nonempty lib _ _ Hs), Hf. cbn [last].
  rewrite run_bind, run_percent_try. cbn [run].
  rewrite Hm. cbn [fst snd]. rewrite E'.
  rewrite group_of_parts, firstn_app_length, skipn_block.
  eexists. split; [reflexivity|]. split; [exact Hn|].
  split; [exact (end_is_space _ _ Hw2 Hs')|].
  split; [reflexivity|]. split; [reflexivity|].
  destruct (float_of_str lib (sg ++ d1 ++ dt ++ d2)) as [e|x].
  - cbn [expression set_sub_display_text]. exact E'.
  - destruct (format_result_returns h (VFloat (x / 100))) as (s & Hr & _).
    exists s. rewrite Hr. split; reflexivity.
Qed.

Lemma percent_of_number_witness :
  let self := set_expression initial (utf8 "200*50 ") in
  exists U sg d1 dt d2 S self',
    expression self = U ++ (sg ++ d1 ++ dt ++ d2) ++ S
    /\ numeral Example.library sg d1 dt d2
    /\ forallb is_space S = true
    /\ run (example_host []) (_percent Example.library self) = Returns self'
    /\ sub_display_text self' = []
    /\ match float_of_str Example.library (sg ++ d1 ++ dt ++ d2) with
       | inr x =>
           exists s,
             run (example_host []) (format_result (VFloat (x / 100)))
             = Returns s
             /\ expression self' = U ++ s ++ S
       | inl _ => expression self' = expression self
       end.
Proof.
  cbv zeta.
  apply (percent_of_number (example_host []) Example.library
           (set_expression initial (utf8 "200*50 ")) ((3, 7), (4, 6)) []).
  reflexivity.
Defined.

Example case_percent :
  run (example_host [])
    (_percent Example.library (set_expression initial (utf8 "200*50 ")))
  = Returns (set_sub_display_text
               (set_expression initial (utf8 "200*0.5 ")) []).
Proof. vm_compute. reflexivity. Qed.
